(** * Web-model request lifecycle: Observer, Broker and Facade

    A shallow embedding of the three TypeScript components that drive the
    automated chat page:

    - [Observer]  : src/main/preload/webModelPreload.ts
    - [Broker]    : the main-process class [WebModelService]
    - [Facade]    : the renderer-side class [WebModelClient]

    Each component is single threaded: a handler runs to completion (or to
    its next [await]) before another one starts.  A component is therefore
    modelled as a state record together with one function per handler; a
    handler returns the new state and the list of effects it performed, in
    program order.  Mutable objects that are shared between a closure and a
    map (the per-request state of the Observer) live in an explicit store
    and are referred to by reference. *)

From Stdlib Require Import ZArith Bool List String Ascii Lia.
From stdpp Require Import gmap strings list fin_maps.
Import ListNotations.

Local Open Scope string_scope.
Local Open Scope list_scope.
Local Open Scope Z_scope.

(** ** Values shared by the three components *)

(** JavaScript truthiness of a string: every string but the empty one. *)
Definition truthy (s : string) : bool :=
  match s with
  | EmptyString => false
  | String _ _ => true
  end.

(** Truthiness of an optional string ([undefined] is falsy). *)
Definition truthy_opt (s : option string) : bool :=
  match s with
  | Some s => truthy s
  | None => false
  end.

(** Truthiness of an optional boolean, that is [Boolean(x)]. *)
Definition truthy_flag (b : option bool) : bool :=
  match b with
  | Some b => b
  | None => false
  end.

(** The payload type used on the upstream channels ([WebModelChunkPayload]
    in the Broker, [WebModelEventPayload] in the Facade). *)
Record Payload := mkPayload {
  requestId : string;
  content : option string;
  done : option bool;
  error : option string
}.

(** Messages the Observer sends with [ipcRenderer.send]. *)
Inductive Upstream :=
| UpChunk (p : Payload)       (* 'web-model:chunk' *)
| UpError (p : Payload)       (* 'web-model:error' *)
| UpReady.                    (* 'web-model:ready' *)

Definition upstream_id (m : Upstream) : option string :=
  match m with
  | UpChunk p | UpError p => Some (requestId p)
  | UpReady => None
  end.

(** * The Observer (webModelPreload.ts) *)
Module Observer.

(** ** The page, as the preload script reads it *)

Record Element := mkElement {
  el_node : nat;                      (* identity of the DOM node *)
  el_isButton : bool;                 (* instanceof HTMLButtonElement *)
  el_innerText : option string;       (* innerText, when the node has one *)
  el_ownValueSetter : option nat;     (* setter of the own 'value' property *)
  el_protoValueSetter : option nat    (* setter of the prototype's 'value' *)
}.

(** One snapshot of the document. *)
Record Dom := mkDom {
  querySelector : string -> option Element;
  querySelectorAll : string -> list Element;
  (* [el.closest('form')], given as that form's own querySelector *)
  closestForm : Element -> option (string -> option Element);
  HTMLButtonCtor : bool;              (* globalWindow.HTMLButtonElement is defined *)
  InputEventCtor : bool               (* globalWindow.InputEvent is defined *)
}.

(** The double quote character of the selector literals. *)
Definition dq : string := String (ascii_of_nat 34) EmptyString.

(** [attr tag name op value] is the selector [tag[name op "value"]]. *)
Definition attr (tag name op value : string) : string :=
  String.append tag (String.append "[" (String.append name (String.append op
    (String.append dq (String.append value (String.append dq "]")))))).

Definition INPUT_SELECTORS : list string :=
  [attr "textarea" "data-id" "=" "chat-input";
   attr "textarea" "placeholder" "*=" "Message";
   "textarea"].

Definition SEND_BUTTON_SELECTORS : list string :=
  [attr "button" "data-testid" "=" "send-button";
   attr "button" "type" "=" "submit";
   attr "button" "aria-label" "*=" "Send"].

Definition STOP_BUTTON_SELECTORS : list string :=
  [attr "button" "data-testid" "=" "stop-button";
   attr "button" "aria-label" "*=" "Stop"].

Definition ASSISTANT_MESSAGE_SELECTOR : string :=
  attr "" "data-message-author-role" "=" "assistant".

(** ** String.prototype.trim

    A string holds the UTF-8 encoding of the text.  [trim] removes, at both
    ends, the code points ECMAScript calls WhiteSpace and LineTerminator;
    each is given here by its encoding. *)

Definition utf8 (bytes : list Z) : string :=
  string_of_list_ascii (map (fun b => ascii_of_nat (Z.to_nat b)) bytes).

Definition WHITE_SPACE : list string :=
  [utf8 [9];                (* U+0009 character tabulation *)
   utf8 [10];               (* U+000A line feed *)
   utf8 [11];               (* U+000B line tabulation *)
   utf8 [12];               (* U+000C form feed *)
   utf8 [13];               (* U+000D carriage return *)
   utf8 [32];               (* U+0020 space *)
   utf8 [194; 160];         (* U+00A0 no-break space *)
   utf8 [225; 154; 128];    (* U+1680 ogham space mark *)
   utf8 [226; 128; 128];    (* U+2000 en quad *)
   utf8 [226; 128; 129];    (* U+2001 em quad *)
   utf8 [226; 128; 130];    (* U+2002 en space *)
   utf8 [226; 128; 131];    (* U+2003 em space *)
   utf8 [226; 128; 132];    (* U+2004 three-per-em space *)
   utf8 [226; 128; 133];    (* U+2005 four-per-em space *)
   utf8 [226; 128; 134];    (* U+2006 six-per-em space *)
   utf8 [226; 128; 135];    (* U+2007 figure space *)
   utf8 [226; 128; 136];    (* U+2008 punctuation space *)
   utf8 [226; 128; 137];    (* U+2009 thin space *)
   utf8 [226; 128; 138];    (* U+200A hair space *)
   utf8 [226; 128; 168];    (* U+2028 line separator *)
   utf8 [226; 128; 169];    (* U+2029 paragraph separator *)
   utf8 [226; 128; 175];    (* U+202F narrow no-break space *)
   utf8 [226; 129; 159];    (* U+205F medium mathematical space *)
   utf8 [227; 128; 128];    (* U+3000 ideographic space *)
   utf8 [239; 187; 191]].   (* U+FEFF zero width no-break space *)

(** [strip w s] is [s] without its prefix [w], when [w] is a prefix of [s]. *)
Fixpoint strip (w s : string) : option string :=
  match w with
  | EmptyString => Some s
  | String a w' =>
      match s with
      | String b s' => if Ascii.eqb a b then strip w' s' else None
      | EmptyString => None
      end
  end.

(** The rest of [s] after its first code point, when that is one of [ws]. *)
Fixpoint after_first (ws : list string) (s : string) : option string :=
  match ws with
  | [] => None
  | w :: rest =>
      match strip w s with
      | Some r => Some r
      | None => after_first rest s
      end
  end.

(** Leading white space is removed one code point at a time; a string
    has no more code points than bytes, so [String.length s] rounds are
    enough. *)
Fixpoint trim_start_from (rounds : nat) (s : string) : string :=
  match rounds with
  | O => s
  | S n =>
      match after_first WHITE_SPACE s with
      | Some r => trim_start_from n r
      | None => s
      end
  end.

Definition trim_start (s : string) : string := trim_start_from (String.length s) s.

(** [trim_end s] drops the trailing white space.  By the time a byte is
    looked at, the white space that ended the text after it is gone; what
    is left from this byte on is dropped when it is one white space code
    point, and kept otherwise. *)
Fixpoint trim_end (s : string) : string :=
  match s with
  | String c r =>
      let kept := String c (trim_end r) in
      if existsb (String.eqb kept) WHITE_SPACE then EmptyString else kept
  | EmptyString => EmptyString
  end.

Definition trim (s : string) : string := trim_end (trim_start s).

(** ** Element lookup *)

(** The loop [for (const selector of selectors) { el = query(selector); if
    (ok el) return el }]. *)
Fixpoint first_match (query : string -> option Element) (ok : Element -> bool)
    (selectors : list string) : option Element :=
  match selectors with
  | [] => None
  | sel :: rest =>
      match query sel with
      | Some e => if ok e then Some e else first_match query ok rest
      | None => first_match query ok rest
      end
  end.

(** [HTMLButtonCtor && button instanceof HTMLButtonCtor] *)
Definition is_button (d : Dom) (e : Element) : bool :=
  HTMLButtonCtor d && el_isButton e.

Definition findSendButton (d : Dom) (textarea : Element) : option Element :=
  let in_form :=
    match closestForm d textarea with
    | Some form_query => first_match form_query (is_button d) SEND_BUTTON_SELECTORS
    | None => None
    end in
  match in_form with
  | Some b => Some b
  | None => first_match (querySelector d) (is_button d) SEND_BUTTON_SELECTORS
  end.

Definition findStopButton (d : Dom) : option Element :=
  first_match (querySelector d) (is_button d) STOP_BUTTON_SELECTORS.

Definition getLatestAssistantContent (d : Dom) : string :=
  match last (querySelectorAll d ASSISTANT_MESSAGE_SELECTOR) with
  | None => ""
  | Some node =>
      (* (last.innerText || '').trim() *)
      trim (match el_innerText node with
            | Some t => if truthy t then t else ""
            | None => ""
            end)
  end.

(** ** Per-request state and the registry of active requests *)

Record RequestState := mkRequestState {
  interval : option nat;
  lastContent : string;
  lastEmit : Z;
  rdone : bool                        (* the field [done] *)
}.

(** The Observer's memory.  A [RequestState] object is reachable both from
    [ACTIVE_REQUESTS] and from the closure of its interval callback, so the
    objects live in [heap] and both places hold a reference.  [startPolling]
    creates the object and its interval together: one fresh number serves
    as the reference of the object and as the handle of the interval. *)
Record Observer := mkObserver {
  ACTIVE_REQUESTS : gmap string nat;  (* requestId -> reference of its state *)
  heap : gmap nat RequestState;       (* the state objects *)
  timers : gmap nat string;           (* live intervals: handle -> requestId of the closure *)
  fresh : nat                         (* next unused reference / handle *)
}.

Definition init : Observer :=
  {| ACTIVE_REQUESTS := ∅; heap := ∅; timers := ∅; fresh := 1%nat |}.

(** What a handler does to the outside world, in program order. *)
Inductive Effect :=
| IpcSend (m : Upstream)
| DomFocus (e : Element)
| DomCallSetter (setter : nat) (e : Element) (value : string)
| DomDispatchInput (e : Element) (data : option string)
| DomClick (e : Element).

(** A thrown JavaScript value. *)
Inductive Thrown :=
| ErrorObj (message : string)         (* an instance of Error *)
| OtherValue.

(** ** The handler monad: state, effect log, exceptions, suspension *)

Inductive Outcome (A : Type) :=
| Ret (a : A)
| Throw (t : Thrown)
| Suspend.                            (* parked at an [await] that has not settled *)
Arguments Ret {A} a.
Arguments Throw {A} t.
Arguments Suspend {A}.

Definition M (A : Type) : Type := Observer -> Observer * list Effect * Outcome A.

Definition ret {A} (a : A) : M A := fun o => (o, [], Ret a).

Definition bind {A B} (m : M A) (k : A -> M B) : M B :=
  fun o =>
    match m o with
    | (o1, out1, Ret a) => let '(o2, out2, r) := k a o1 in (o2, out1 ++ out2, r)
    | (o1, out1, Throw t) => (o1, out1, Throw t)
    | (o1, out1, Suspend) => (o1, out1, Suspend)
    end.

Definition throw {A} (t : Thrown) : M A := fun o => (o, [], Throw t).
Definition emit (e : Effect) : M unit := fun o => (o, [e], Ret tt).
Definition get : M Observer := fun o => (o, [], Ret o).
Definition modify (f : Observer -> Observer) : M unit := fun o => (f o, [], Ret tt).

(** [try { body } catch (error) { handler error }] *)
Definition try_catch {A} (body : M A) (handler : Thrown -> M A) : M A :=
  fun o =>
    match body o with
    | (o1, out1, Throw t) => let '(o2, out2, r) := handler t o1 in (o2, out1 ++ out2, r)
    | r => r
    end.

(** The result of a promise at the moment the handler is looked at. *)
Inductive Settled (A : Type) :=
| Resolved (a : A)
| Rejected (t : Thrown)
| Pending.
Arguments Resolved {A} a.
Arguments Rejected {A} t.
Arguments Pending {A}.

Definition await {A} (p : Settled A) : M A :=
  match p with
  | Resolved a => ret a
  | Rejected t => throw t
  | Pending => fun o => (o, [], Suspend)
  end.

(** The monad is used with stdpp's notations [x ← m; k] and [m;; k]. *)
#[global] Instance M_ret : MRet M := @ret.
#[global] Instance M_bind : MBind M := fun A B k m => bind m k.

(** ** waitForSelector

    [checks] lists, for every run of the inner function [check], the
    document it queried and the value of [Date.now()] it then read; [start]
    is the [Date.now()] taken when the promise was created.  The promise is
    [Pending] as long as no listed check settles it. *)
Fixpoint waitForSelector (selectors : list string) (timeout start : Z)
    (checks : list (Dom * Z)) : Settled Element :=
  match checks with
  | [] => Pending
  | (d, now) :: later =>
      match first_match (querySelector d) (fun _ => true) selectors with
      | Some element => Resolved element
      | None =>
          if timeout <? now - start
          then Rejected (ErrorObj "Timed out waiting for ChatGPT input area")
          else waitForSelector selectors timeout start later
      end
  end.

(** ** setNativeValue *)

(** [setter?.call(element, value)] *)
Definition call_setter (setter : option nat) (e : Element) (value : string) : M unit :=
  match setter with
  | Some f => emit (DomCallSetter f e value)
  | None => mret tt
  end.

Definition setNativeValue (d : Dom) (element : Element) (value : string) : M unit :=
  let valueSetter := el_ownValueSetter element in
  let prototypeValueSetter := el_protoValueSetter element in
  (if bool_decide (is_Some valueSetter) && negb (bool_decide (valueSetter = prototypeValueSetter))
   then call_setter prototypeValueSetter element value
   else call_setter valueSetter element value);;
  emit (DomDispatchInput element None);;
  if InputEventCtor d then emit (DomDispatchInput element (Some value)) else mret tt.

(** ** startPolling, the interval callback and cleanupRequest *)

Definition with_heap (f : gmap nat RequestState -> gmap nat RequestState) (o : Observer) : Observer :=
  {| ACTIVE_REQUESTS := ACTIVE_REQUESTS o; heap := f (heap o);
     timers := timers o; fresh := fresh o |}.

(** Assignment to the fields of the state object [r]. *)
Definition set_state (r : nat) (st : RequestState) : M unit :=
  modify (with_heap (insert r st)).

Definition chunk (rid content : string) (is_done : bool) : Upstream :=
  UpChunk {| requestId := rid; content := Some content; done := Some is_done; error := None |}.

(** The effect of [cleanupRequest rid] on the Observer's memory.  An
    interval handle is an object, hence truthy: [if (state.interval)] asks
    whether the field is set. *)
Definition discard (rid : string) (o : Observer) : Observer :=
  match ACTIVE_REQUESTS o !! rid with
  | None => o
  | Some r =>
      {| ACTIVE_REQUESTS := delete rid (ACTIVE_REQUESTS o);
         heap := heap o;
         timers := match heap o !! r ≫= interval with
                   | Some h => delete h (timers o)      (* clearInterval *)
                   | None => timers o
                   end;
         fresh := fresh o |}
  end.

Definition cleanupRequest (rid : string) : M unit := modify (discard rid).

(** The body of the function given to [setInterval] by [startPolling rid],
    whose closure holds the state object [r].  [now1] is the clock read at
    the emission of a chunk, [now2] the one read by the completion test. *)
Definition pollCallback (rid : string) (r : nat) (d : Dom) (now1 now2 : Z) : M unit :=
  o ← get;
  match heap o !! r with
  | None => mret tt
  | Some state =>
      let content := getLatestAssistantContent d in
      state ← (if truthy content && negb (String.eqb content (lastContent state))
               then
                 let state' := {| interval := interval state; lastContent := content;
                                  lastEmit := now1; rdone := rdone state |} in
                 set_state r state';;
                 emit (IpcSend (chunk rid content false));;
                 mret state'
               else mret state);
      let stopButtonVisible := bool_decide (is_Some (findStopButton d)) in
      if negb (rdone state) then
        if negb (truthy content) && (lastEmit state =? 0) then mret tt
        else if negb stopButtonVisible && (0 <? lastEmit state)
                && (1500 <? now2 - lastEmit state)
        then
          set_state r {| interval := interval state; lastContent := lastContent state;
                         lastEmit := lastEmit state; rdone := true |};;
          emit (IpcSend (chunk rid (lastContent state) true));;
          cleanupRequest rid
        else mret tt
      else mret tt
  end.

(** The effect of [startPolling rid] on the Observer's memory: a new state
    object, registered under [rid], and a new interval whose callback holds
    the object. *)
Definition install (rid : string) (o : Observer) : Observer :=
  let r := fresh o in
  {| ACTIVE_REQUESTS := <[rid := r]> (ACTIVE_REQUESTS o);
     heap := <[r := {| interval := Some r; lastContent := ""; lastEmit := 0;
                       rdone := false |}]> (heap o);
     timers := <[r := rid]> (timers o);
     fresh := S r |}.

Definition startPolling (rid : string) : M unit := modify (install rid).

(** ** submitPrompt, cancelRequest and the message handlers *)

Definition submitPrompt (rid prompt : string) (start : Z) (checks : list (Dom * Z))
    (page : Dom) : M unit :=
  textarea ← await (waitForSelector INPUT_SELECTORS 15000 start checks);
  emit (DomFocus textarea);;
  setNativeValue page textarea prompt;;
  match findSendButton page textarea with
  | None =>
      throw (ErrorObj
        "Unable to locate ChatGPT send button. Please make sure you are signed in.")
  | Some sendButton =>
      emit (DomClick sendButton);;
      startPolling rid
  end.

Definition cancelRequest (page : Dom) (rid : string) : M unit :=
  match findStopButton page with
  | Some stopButton => emit (DomClick stopButton)
  | None => mret tt
  end;;
  cleanupRequest rid.

(** [error instanceof Error ? error.message : 'Unknown error'] *)
Definition error_message (t : Thrown) : string :=
  match t with
  | ErrorObj message => message
  | OtherValue => "Unknown error"
  end.

Definition error_event (rid : string) (t : Thrown) : Upstream :=
  UpError {| requestId := rid; content := None; done := None;
             error := Some (error_message t) |}.

Definition onPrompt (rid prompt : string) (start : Z) (checks : list (Dom * Z))
    (page : Dom) : M unit :=
  try_catch (submitPrompt rid prompt start checks page)
    (fun t => cleanupRequest rid;; emit (IpcSend (error_event rid t))).

(** [ACTIVE_REQUESTS.forEach((_state, requestId) => cleanupRequest(requestId));
    ACTIVE_REQUESTS.clear()].  Each [cleanupRequest] touches the entry it is
    called for and the interval of that entry only, so the order in which
    the entries are visited is of no consequence. *)
Definition onBeforeUnload : M unit :=
  o ← get;
  foldr (fun rid rest => cleanupRequest rid;; rest) (mret tt)
        (fst <$> map_to_list (ACTIVE_REQUESTS o));;
  modify (fun o => {| ACTIVE_REQUESTS := ∅; heap := heap o; timers := timers o;
                      fresh := fresh o |}).

(** ** The Observer as a transition system *)

Inductive Event :=
| Prompt (rid prompt : string) (start : Z) (checks : list (Dom * Z)) (page : Dom)
| Cancel (rid : string) (page : Dom)
| Tick (h : nat) (page : Dom) (now1 now2 : Z)   (* interval [h] fires *)
| BeforeUnload
| DOMContentLoaded.

Definition handler (ev : Event) : M unit :=
  match ev with
  | Prompt rid prompt start checks page => onPrompt rid prompt start checks page
  | Cancel rid page => cancelRequest page rid
  | Tick h page now1 now2 =>
      o ← get;
      match timers o !! h with
      | Some rid => pollCallback rid h page now1 now2
      | None => mret tt               (* a cleared interval never fires *)
      end
  | BeforeUnload => onBeforeUnload
  | DOMContentLoaded => emit (IpcSend UpReady)
  end.

Definition step (o : Observer) (ev : Event) : Observer * list Effect :=
  let '(o', out, _) := handler ev o in (o', out).

Fixpoint run (o : Observer) (evs : list Event) : Observer * list Effect :=
  match evs with
  | [] => (o, [])
  | ev :: rest =>
      let '(o1, out1) := step o ev in
      let '(o2, out2) := run o1 rest in
      (o2, out1 ++ out2)
  end.

(** The upstream messages among a list of effects. *)
Definition sent (out : list Effect) : list Upstream :=
  omap (fun e => match e with IpcSend m => Some m | _ => None end) out.

(** The upstream messages that carry the request identifier [rid]. *)
Definition sent_for (rid : string) (out : list Effect) : list Upstream :=
  filter (fun m => upstream_id m = Some rid) (sent out).

End Observer.

(** * The Broker (class WebModelService, main process) *)
Module Broker.

Record PendingRequest := mkPending { senderId : nat }.

(** What [webContents.fromId] returns for a live identifier. *)
Record WebContents := mkWebContents { wc_destroyed : bool }.

Definition CHATGPT_URL : string := "https://chatgpt.com/?oai=1".

(** Messages sent to the Observer with [this.window.webContents.send]. *)
Inductive Downstream :=
| DownPrompt (rid prompt : string) (provider : option string)   (* 'web-model:prompt' *)
| DownCancel (rid : string).                                    (* 'web-model:cancel' *)

(** The two asynchronous entry points.  [uuid] is the value [uuidv4()]
    returns if the call gets that far. *)
Inductive Call :=
| CInitialize
| CSendMessage (prompt : string) (provider : option string) (sender : nat) (uuid : string).

(** At which [await] of [ensureWindow] a call is parked. *)
Inductive Role :=
| Creator            (* line 120: inside try/finally, having called createWindow *)
| Follower.          (* line 114: awaiting the creation another call started *)

Record Parked := mkParked {
  pk_call : nat;     (* which invocation *)
  pk_what : Call;
  pk_role : Role;
  pk_promise : nat   (* the promise it awaits *)
}.

(** The service object, and the part of the runtime it depends on: which
    windows are destroyed and which calls are parked at an [await].  A
    window and the promise of the [createWindow] call that made it are
    named by the same number. *)
Record Broker := mkBroker {
  window : option nat;
  isReady : bool;
  creatingWindowPromise : option nat;
  pendingRequests : gmap string PendingRequest;
  destroyed : gset nat;
  parked : list Parked;
  nextWindow : nat
}.

Definition init : Broker :=
  {| window := None; isReady := false; creatingWindowPromise := None;
     pendingRequests := ∅; destroyed := ∅; parked := []; nextWindow := 1%nat |}.

Inductive Value :=
| VBool (b : bool)
| VString (s : string).

Inductive Effect :=
| NewBrowserWindow (w : nat)                 (* new BrowserWindow({...}) *)
| LoadURL (w : nat) (url : string)
| ToObserver (w : nat) (m : Downstream)
| ToCaller (sender : nat) (p : Payload)      (* target.send(IpcChannel.WebModel_Stream, payload) *)
| Resolve (call : nat) (v : Value)           (* the call's promise is fulfilled *)
| Reject (call : nat) (message : string).    (* the call's promise is rejected *)

(** [this.window && !this.window.isDestroyed()], giving the window. *)
Definition live_window (b : Broker) : option nat :=
  match window b with
  | Some w => if decide (w ∈ destroyed b) then None else Some w
  | None => None
  end.

Definition set_pending (f : gmap string PendingRequest -> gmap string PendingRequest)
    (b : Broker) : Broker :=
  {| window := window b; isReady := isReady b;
     creatingWindowPromise := creatingWindowPromise b;
     pendingRequests := f (pendingRequests b);
     destroyed := destroyed b; parked := parked b; nextWindow := nextWindow b |}.

(** [createWindow] up to its [await this.window.loadURL(...)]: the window
    is constructed and stored at once; the returned promise settles when
    the load does. *)
Definition createWindow (b : Broker) : Broker * list Effect * nat :=
  let w := nextWindow b in
  ({| window := Some w; isReady := false;
      creatingWindowPromise := creatingWindowPromise b;
      pendingRequests := pendingRequests b;
      destroyed := destroyed b; parked := parked b; nextWindow := S w |},
   [NewBrowserWindow w; LoadURL w CHATGPT_URL], w).

(** [ensureWindow] up to its first [await]: either it returns at once
    ([None]) or the calling invocation parks on a promise. *)
Definition ensureWindow (b : Broker) : Broker * list Effect * option (Role * nat) :=
  match live_window b with
  | Some _ => (b, [], None)
  | None =>
      match creatingWindowPromise b with
      | Some p => (b, [], Some (Follower, p))
      | None =>
          let '(b1, out, p) := createWindow b in
          ({| window := window b1; isReady := isReady b1;
              creatingWindowPromise := Some p;
              pendingRequests := pendingRequests b1;
              destroyed := destroyed b1; parked := parked b1;
              nextWindow := nextWindow b1 |}, out, Some (Creator, p))
      end
  end.

(** What [initialize] and [sendMessage] do once [await this.ensureWindow()]
    has returned normally. *)
Definition afterEnsure (cid : nat) (c : Call) (b : Broker) : Broker * list Effect :=
  match c with
  | CInitialize => (b, [Resolve cid (VBool (isReady b))])
  | CSendMessage prompt provider sender uuid =>
      match live_window b with
      | None => (b, [Reject cid "Web model window is not available"])
      | Some w =>
          (set_pending (insert uuid (mkPending sender)) b,
           [ToObserver w (DownPrompt uuid prompt provider); Resolve cid (VString uuid)])
      end
  end.

(** A call of [initialize] or [sendMessage] arrives. *)
Definition invoke (cid : nat) (c : Call) (b : Broker) : Broker * list Effect :=
  match ensureWindow b with
  | (b1, out, None) =>
      let '(b2, out2) := afterEnsure cid c b1 in (b2, out ++ out2)
  | (b1, out, Some (role, p)) =>
      ({| window := window b1; isReady := isReady b1;
          creatingWindowPromise := creatingWindowPromise b1;
          pendingRequests := pendingRequests b1;
          destroyed := destroyed b1;
          parked := parked b1 ++ [mkParked cid c role p];
          nextWindow := nextWindow b1 |}, out)
  end.

(** A parked call resumes because its promise settled; [failure] is the
    rejection reason, if any.  The creator first runs its [finally]. *)
Definition resume (failure : option string) (k : Parked) (b : Broker) : Broker * list Effect :=
  let b1 :=
    match pk_role k with
    | Creator =>
        {| window := window b; isReady := isReady b;
           creatingWindowPromise := None;
           pendingRequests := pendingRequests b;
           destroyed := destroyed b; parked := parked b; nextWindow := nextWindow b |}
    | Follower => b
    end in
  match failure with
  | Some message => (b1, [Reject (pk_call k) message])
  | None => afterEnsure (pk_call k) (pk_what k) b1
  end.

Fixpoint resume_all (failure : option string) (ks : list Parked) (b : Broker)
    : Broker * list Effect :=
  match ks with
  | [] => (b, [])
  | k :: rest =>
      let '(b1, out1) := resume failure k b in
      let '(b2, out2) := resume_all failure rest b1 in
      (b2, out1 ++ out2)
  end.

(** The promise [p] of a [createWindow] call settles. *)
Definition loadSettled (p : nat) (failure : option string) (b : Broker) : Broker * list Effect :=
  let waiting := filter (fun k => pk_promise k = p) (parked b) in
  let others := filter (fun k => pk_promise k ≠ p) (parked b) in
  resume_all failure waiting
    {| window := window b; isReady := isReady b;
       creatingWindowPromise := creatingWindowPromise b;
       pendingRequests := pendingRequests b;
       destroyed := destroyed b; parked := others; nextWindow := nextWindow b |}.

(** The handler of the window's 'closed' event. *)
Definition onClosed (w : nat) (b : Broker) : Broker :=
  {| window := None; isReady := false;
     creatingWindowPromise := creatingWindowPromise b;
     pendingRequests := pendingRequests b;
     destroyed := {[w]} ∪ destroyed b; parked := parked b; nextWindow := nextWindow b |}.

Definition onDestroyed (w : nat) (b : Broker) : Broker :=
  {| window := window b; isReady := isReady b;
     creatingWindowPromise := creatingWindowPromise b;
     pendingRequests := pendingRequests b;
     destroyed := {[w]} ∪ destroyed b; parked := parked b; nextWindow := nextWindow b |}.

Definition onReady (b : Broker) : Broker :=
  {| window := window b; isReady := true;
     creatingWindowPromise := creatingWindowPromise b;
     pendingRequests := pendingRequests b;
     destroyed := destroyed b; parked := parked b; nextWindow := nextWindow b |}.

Definition cancel (rid : string) (b : Broker) : Broker * list Effect :=
  if truthy rid then
    (set_pending (delete rid) b,
     match window b with
     | Some w => [ToObserver w (DownCancel rid)]
     | None => []
     end)
  else (b, []).

(** [payload.done || payload.error] *)
Definition terminal (p : Payload) : bool :=
  truthy_flag (done p) || truthy_opt (error p).

Definition forwardChunk (fromId : nat -> option WebContents) (payload : Payload)
    (b : Broker) : Broker * list Effect :=
  match pendingRequests b !! requestId payload with
  | None => (b, [])
  | Some request =>
      match fromId (senderId request) with
      | Some target =>
          if wc_destroyed target
          then (set_pending (delete (requestId payload)) b, [])
          else
            (if terminal payload
             then set_pending (delete (requestId payload)) b
             else b,
             [ToCaller (senderId request) payload])
      | None => (set_pending (delete (requestId payload)) b, [])
      end
  end.

(** [{ ...payload, error: payload.error ?? 'Unknown error', done: true }] *)
Definition as_error (payload : Payload) : Payload :=
  {| requestId := requestId payload;
     content := content payload;
     done := Some true;
     error := Some (match error payload with
                    | Some e => e
                    | None => "Unknown error"
                    end) |}.

(** The three [ipcMain.on] handlers installed by the constructor. *)
Definition onUpstream (fromId : nat -> option WebContents) (m : Upstream) (b : Broker)
    : Broker * list Effect :=
  match m with
  | UpReady => (onReady b, [])
  | UpChunk payload => forwardChunk fromId payload b
  | UpError payload => forwardChunk fromId (as_error payload) b
  end.

Inductive Event :=
| Invoke (cid : nat) (c : Call)
| CallCancel (rid : string)
| LoadSettled (p : nat) (failure : option string)
| WindowClosed (w : nat)
| WindowDestroyed (w : nat)
| FromObserver (fromId : nat -> option WebContents) (m : Upstream).

Definition step (b : Broker) (ev : Event) : Broker * list Effect :=
  match ev with
  | Invoke cid c => invoke cid c b
  | CallCancel rid => cancel rid b
  | LoadSettled p failure => loadSettled p failure b
  | WindowClosed w => (onClosed w b, [])
  | WindowDestroyed w => (onDestroyed w b, [])
  | FromObserver fromId m => onUpstream fromId m b
  end.

Fixpoint run (b : Broker) (evs : list Event) : Broker * list Effect :=
  match evs with
  | [] => (b, [])
  | ev :: rest =>
      let '(b1, out1) := step b ev in
      let '(b2, out2) := run b1 rest in
      (b2, out1 ++ out2)
  end.

(** How many windows a list of effects constructs. *)
Definition windows_created (out : list Effect) : nat :=
  length (List.filter (fun e => match e with NewBrowserWindow _ => true | _ => false end) out).

End Broker.

(** * The Facade (class WebModelClient, one per caller context) *)
Module Facade.

(** The two optional callbacks of a request; a function is named by a
    number. *)
Record StreamCallbacks := mkCallbacks {
  onUpdate : option nat;
  onError : option nat
}.

Record Facade := mkFacade {
  listeners : gmap string StreamCallbacks;
  api : bool                          (* window.api?.webModel is there *)
}.

Definition init : Facade := {| listeners := ∅; api := true |}.

(** Calls made by the Facade.  A callback invocation records the key of
    the listener record the function was taken from. *)
Inductive Effect :=
| CallOnUpdate (rid : string) (f : nat) (content : string) (is_done : bool)
| CallOnError (rid : string) (f : nat) (message : string)   (* f(new Error(message)) *)
| ApiCancel (rid : string).                                 (* window.api.webModel.cancel *)

Definition set_listeners (f : gmap string StreamCallbacks -> gmap string StreamCallbacks)
    (fa : Facade) : Facade :=
  {| listeners := f (listeners fa); api := api fa |}.

(** The last statement of [sendMessage], run when the Broker has answered
    with the identifier: [this.listeners.set(requestId, callbacks)]. *)
Definition listen (rid : string) (callbacks : StreamCallbacks) (fa : Facade) : Facade :=
  set_listeners (insert rid callbacks) fa.

Definition cancel (rid : string) (fa : Facade) : Facade * list Effect :=
  if truthy rid then
    (set_listeners (delete rid) fa, if api fa then [ApiCancel rid] else [])
  else (fa, []).

Definition handleEvent (payload : Payload) (fa : Facade) : Facade * list Effect :=
  let rid := requestId payload in
  match listeners fa !! rid with
  | None => (fa, [])
  | Some listener =>
      if truthy_opt (error payload) then
        (set_listeners (delete rid) fa,
         match onError listener with
         | Some f => [CallOnError rid f (default "" (error payload))]
         | None => []
         end)
      else
        (if truthy_flag (done payload) then set_listeners (delete rid) fa else fa,
         match content payload, onUpdate listener with
         | Some c, Some f => [CallOnUpdate rid f c (truthy_flag (done payload))]
         | _, _ => []
         end)
  end.

Inductive Event :=
| Listen (rid : string) (callbacks : StreamCallbacks)
| CancelCall (rid : string)
| Incoming (payload : Payload).

Definition step (fa : Facade) (ev : Event) : Facade * list Effect :=
  match ev with
  | Listen rid callbacks => (listen rid callbacks fa, [])
  | CancelCall rid => cancel rid fa
  | Incoming payload => handleEvent payload fa
  end.

Fixpoint run (fa : Facade) (evs : list Event) : Facade * list Effect :=
  match evs with
  | [] => (fa, [])
  | ev :: rest =>
      let '(fa1, out1) := step fa ev in
      let '(fa2, out2) := run fa1 rest in
      (fa2, out1 ++ out2)
  end.

(** A callback invocation that ends the request as the caller sees it:
    [onError], or [onUpdate] with [done = true]. *)
Definition terminal_call (rid : string) (e : Effect) : bool :=
  match e with
  | CallOnUpdate r _ _ d => bool_decide (r = rid) && d
  | CallOnError r _ _ => bool_decide (r = rid)
  | ApiCancel _ => false
  end.

(** Any callback invocation made for the listener record of [rid]. *)
Definition call_for (rid : string) (e : Effect) : bool :=
  match e with
  | CallOnUpdate r _ _ _ | CallOnError r _ _ => bool_decide (r = rid)
  | ApiCancel _ => false
  end.

(** [onUpdate] invocations that pass the content [c]. *)
Definition update_with (c : string) (e : Effect) : bool :=
  match e with
  | CallOnUpdate _ _ c' _ => bool_decide (c' = c)
  | _ => false
  end.

Definition registrations (rid : string) (evs : list Event) : nat :=
  length (List.filter (fun ev => match ev with
                                 | Listen r _ => bool_decide (r = rid)
                                 | _ => false
                                 end) evs).

End Facade.

(** * The three components wired together

    The upstream channels deliver every message, in the order sent: what
    the Observer sends reaches the Broker's [ipcMain.on] handlers, and what
    the Broker sends to a caller reaches [handleEvent] of the Facade living
    in that caller's context. *)
Module System.

Record World := mkWorld {
  observer : Observer.Observer;
  broker : Broker.Broker;
  facades : gmap nat Facade.Facade    (* by webContents identifier *)
}.

(** The Broker's effect [ToCaller sender p] arrives at that caller. *)
Definition deliver (e : Broker.Effect) (fs : gmap nat Facade.Facade)
    : gmap nat Facade.Facade * list (nat * Facade.Effect) :=
  match e with
  | Broker.ToCaller sender p =>
      match fs !! sender with
      | Some fa =>
          let '(fa', out) := Facade.handleEvent p fa in
          (<[sender := fa']> fs, pair sender <$> out)
      | None => (fs, [])
      end
  | _ => (fs, [])
  end.

Fixpoint deliver_all (es : list Broker.Effect) (fs : gmap nat Facade.Facade)
    : gmap nat Facade.Facade * list (nat * Facade.Effect) :=
  match es with
  | [] => (fs, [])
  | e :: rest =>
      let '(fs1, out1) := deliver e fs in
      let '(fs2, out2) := deliver_all rest fs1 in
      (fs2, out1 ++ out2)
  end.

(** One upstream message travels from the Observer to the callbacks. *)
Definition relay (fromId : nat -> option Broker.WebContents) (m : Upstream) (w : World)
    : World * list (nat * Facade.Effect) :=
  let '(b', out) := Broker.onUpstream fromId m (broker w) in
  let '(fs', calls) := deliver_all out (facades w) in
  ({| observer := observer w; broker := b'; facades := fs' |}, calls).

Fixpoint relay_all (fromId : nat -> option Broker.WebContents) (ms : list Upstream)
    (w : World) : World * list (nat * Facade.Effect) :=
  match ms with
  | [] => (w, [])
  | m :: rest =>
      let '(w1, out1) := relay fromId m w in
      let '(w2, out2) := relay_all fromId rest w1 in
      (w2, out1 ++ out2)
  end.

(** An Observer event, with everything it sends carried to the callers. *)
Definition observe (fromId : nat -> option Broker.WebContents) (ev : Observer.Event)
    (w : World) : World * list (nat * Facade.Effect) :=
  let '(o', out) := Observer.step (observer w) ev in
  relay_all fromId (Observer.sent out)
    {| observer := o'; broker := broker w; facades := facades w |}.

Fixpoint observe_all (fromId : nat -> option Broker.WebContents)
    (evs : list Observer.Event) (w : World) : World * list (nat * Facade.Effect) :=
  match evs with
  | [] => (w, [])
  | ev :: rest =>
      let '(w1, out1) := observe fromId ev w in
      let '(w2, out2) := observe_all fromId rest w1 in
      (w2, out1 ++ out2)
  end.

End System.

(** * Vocabulary of the statements *)
Module Terms.
Import Observer.

(** Lines 141-145 of the interval callback: does the sample replace
    [lastContent], and the state object afterwards. *)
Definition emits (st : RequestState) (d : Dom) : bool :=
  truthy (getLatestAssistantContent d)
  && negb (String.eqb (getLatestAssistantContent d) (lastContent st)).

Definition sampled (st : RequestState) (d : Dom) (now1 : Z) : RequestState :=
  if emits st d
  then {| interval := interval st; lastContent := getLatestAssistantContent d;
          lastEmit := now1; rdone := rdone st |}
  else st.

(** What lines 141-145 send. *)
Definition tick_output (rid : string) (st : RequestState) (d : Dom) : list Effect :=
  if emits st d then [IpcSend (chunk rid (getLatestAssistantContent d) false)] else [].

(** The test of line 153. *)
Definition quiet (d : Dom) (st : RequestState) (now2 : Z) : bool :=
  negb (bool_decide (is_Some (findStopButton d)))
  && (0 <? lastEmit st) && (1500 <? now2 - lastEmit st).

Definition finished (st : RequestState) : RequestState :=
  {| interval := interval st; lastContent := lastContent st;
     lastEmit := lastEmit st; rdone := true |}.

(** One request seen alone: what its interval sends over a sequence of
    ticks, each given by the page, the clock read at emission and the
    clock read by the completion test.  Completion clears the interval, so
    the ticks after it never happen. *)
Fixpoint poll (rid : string) (st : RequestState) (ticks : list (Dom * Z * Z))
    : list Upstream :=
  match ticks with
  | [] => []
  | (d, now1, now2) :: rest =>
      let st1 := sampled st d now1 in
      sent (tick_output rid st d)
      ++ (if quiet d st1 now2
          then [chunk rid (lastContent st1) true]
          else poll rid st1 rest)
  end.

Definition tick_of (h : nat) (t : Dom * Z * Z) : Event :=
  let '(d, now1, now2) := t in Tick h d now1 now2.

(** The state object [startPolling] creates for interval [h]. *)
Definition initial_state (h : nat) : RequestState :=
  {| interval := Some h; lastContent := ""; lastEmit := 0; rdone := false |}.

(** The request identifiers of the prompts in a sequence of events. *)
Fixpoint prompt_ids (evs : list Event) : list string :=
  match evs with
  | [] => []
  | Prompt rid _ _ _ _ :: rest => rid :: prompt_ids rest
  | _ :: rest => prompt_ids rest
  end.

(** The Broker draws every request identifier afresh: no identifier is
    prompted twice, and none that is still registered. *)
Definition fresh_prompts (o : Observer) (evs : list Event) : Prop :=
  NoDup (prompt_ids evs) ∧ ∀ rid, rid ∈ prompt_ids evs → ACTIVE_REQUESTS o !! rid = None.

(** Shape of the Observer's memory: a live interval belongs to the request
    registered under its identifier, and every registered request has its
    live interval; the state object of a live interval is not done; every
    state object knows its own interval; references at or above [fresh]
    are unused; a state object whose [lastEmit] is set holds the non-empty
    content of the chunk emitted then. *)
Record wf (o : Observer) : Prop := {
  wf_registered : ∀ h rid, timers o !! h = Some rid → ACTIVE_REQUESTS o !! rid = Some h;
  wf_owner : ∀ rid h, ACTIVE_REQUESTS o !! rid = Some h → timers o !! h = Some rid;
  wf_running : ∀ h rid, timers o !! h = Some rid →
               ∃ st, heap o !! h = Some st ∧ rdone st = false;
  wf_interval : ∀ r st, heap o !! r = Some st → interval st = Some r;
  wf_fresh : ∀ h, (fresh o ≤ h)%nat → timers o !! h = None ∧ heap o !! h = None;
  wf_emitted : ∀ r st, heap o !! r = Some st → lastEmit st ≠ 0 →
               truthy (lastContent st) = true
}.

(** The request [rid], polled by interval [h], has not produced anything:
    it is gone, or its state object is as [startPolling] made it. *)
Definition idle (rid : string) (h : nat) (o : Observer) : Prop :=
  ACTIVE_REQUESTS o !! rid = None
  ∨ (timers o !! h = Some rid
     ∧ ∃ st, heap o !! h = Some st ∧ lastEmit st = 0 ∧ lastContent st = "").

(** The [done: true] chunks for [rid] among the effects. *)
Definition is_final (rid : string) (m : Upstream) : bool :=
  match m with
  | UpChunk p => bool_decide (requestId p = rid) && truthy_flag (done p)
  | _ => false
  end.

Definition finals (rid : string) (out : list Effect) : list Upstream :=
  List.filter (is_final rid) (sent out).

(** A prompt that starts polling must carry an identifier that is not
    registered; every other event keeps the shape unconditionally. *)
Definition prompt_is_new (o : Observer) (ev : Event) : Prop :=
  match ev with
  | Prompt rid _ _ _ _ => ACTIVE_REQUESTS o !! rid = None
  | _ => True
  end.

(** Ticks of the interval [h] in [evs] all sample an empty answer text. *)
Definition empty_samples (h : nat) (evs : list Event) : Prop :=
  ∀ d now1 now2, Tick h d now1 now2 ∈ evs → getLatestAssistantContent d = "".

(** The contents of the [done: false] chunks for [rid], in order. *)
Definition chunk_contents (rid : string) (ms : list Upstream) : list string :=
  omap (fun m => match m with
                 | UpChunk p =>
                     if bool_decide (requestId p = rid) && negb (truthy_flag (done p))
                     then content p else None
                 | _ => None
                 end) ms.

(** No two neighbours of the list are equal. *)
Fixpoint no_repeat (l : list string) : Prop :=
  match l with
  | a :: (b :: _) as rest => a ≠ b ∧ no_repeat rest
  | _ => True
  end.

(** What [submitPrompt] does to the input area [ta] before it looks for
    the send button: focus, the native value setter, the input events. *)
Definition typing (d : Dom) (ta : Element) (value : string) : list Effect :=
  [DomFocus ta]
  ++ match (if bool_decide (is_Some (el_ownValueSetter ta))
               && negb (bool_decide (el_ownValueSetter ta = el_protoValueSetter ta))
            then el_protoValueSetter ta else el_ownValueSetter ta) with
     | Some f => [DomCallSetter f ta value]
     | None => []
     end
  ++ [DomDispatchInput ta None]
  ++ (if InputEventCtor d then [DomDispatchInput ta (Some value)] else []).

Definition no_send_button : Thrown :=
  ErrorObj "Unable to locate ChatGPT send button. Please make sure you are signed in.".

Definition timed_out : Thrown := ErrorObj "Timed out waiting for ChatGPT input area".

(** The state after [ACTIVE_REQUESTS.forEach(cleanupRequest)] and [clear()]. *)
Definition unloaded (o : Observer) : Observer :=
  let o1 := foldr discard o (rev (fst <$> map_to_list (ACTIVE_REQUESTS o))) in
  {| ACTIVE_REQUESTS := ∅; heap := heap o1; timers := timers o1; fresh := fresh o1 |}.

(** A page whose latest assistant message reads [text] and on which the
    stop button is shown or not; it has an input area and a send button. *)
Definition node (n : nat) (is_button : bool) (text : option string) : Element :=
  mkElement n is_button text None None.

Definition page (text : string) (stop : bool) : Dom :=
  {| querySelector := fun sel =>
       if String.eqb sel (attr "button" "data-testid" "=" "stop-button")
       then (if stop then Some (node 7 true None) else None)
       else if String.eqb sel "textarea" then Some (node 1 false None)
       else if String.eqb sel (attr "button" "type" "=" "submit")
            then Some (node 2 true None)
       else None;
     querySelectorAll := fun sel =>
       if String.eqb sel ASSISTANT_MESSAGE_SELECTOR
       then [node 3 false (Some "earlier answer"); node 4 false (Some text)]
       else [];
     closestForm := fun _ => None;
     HTMLButtonCtor := true;
     InputEventCtor := true |}.

(** A page without input area. *)
Definition blank_page : Dom :=
  {| querySelector := fun _ => None; querySelectorAll := fun _ => [];
     closestForm := fun _ => None; HTMLButtonCtor := true; InputEventCtor := true |}.

(** A page with an input area but no send button. *)
Definition page_without_send : Dom :=
  {| querySelector := fun sel =>
       if String.eqb sel "textarea" then Some (node 1 false None) else None;
     querySelectorAll := fun _ => [];
     closestForm := fun _ => None; HTMLButtonCtor := true; InputEventCtor := true |}.

(** [1] when the Facade holds a listener record for [rid], else [0]. *)
Definition listening (rid : string) (fa : Facade.Facade) : nat :=
  match Facade.listeners fa !! rid with
  | Some _ => 1%nat
  | None => 0%nat
  end.

Definition terminal_calls (rid : string) (out : list Facade.Effect) : list Facade.Effect :=
  List.filter (Facade.terminal_call rid) out.

Definition calls_for (rid : string) (out : list Facade.Effect) : list Facade.Effect :=
  List.filter (Facade.call_for rid) out.

(** The payload that reaches [forwardChunk] for an upstream message. *)
Definition routed (m : Upstream) : option Payload :=
  match m with
  | UpChunk p => Some p
  | UpError p => Some (Broker.as_error p)
  | UpReady => None
  end.

(** The event is a call of one of the two callbacks of [l], made for the
    listener record of [rid]. *)
Definition call_of (rid : string) (l : Facade.StreamCallbacks) (e : Facade.Effect) : Prop :=
  (∃ f m, e = Facade.CallOnError rid f m ∧ Facade.onError l = Some f)
  ∨ (∃ f c d, e = Facade.CallOnUpdate rid f c d ∧ Facade.onUpdate l = Some f).

(** Every caller context is alive. *)
Definition all_alive : nat -> option Broker.WebContents :=
  fun _ => Some {| Broker.wc_destroyed := false |}.

(** One request in flight: "r1", issued by caller 5, whose callbacks are
    the functions 10 ([onUpdate]) and 11 ([onError]); the Observer polls it
    with interval 1. *)
Definition one_request : System.World :=
  {| System.observer := install "r1" Observer.init;
     System.broker :=
       Broker.set_pending (insert "r1" (Broker.mkPending 5)) Broker.init;
     System.facades :=
       {[ 5%nat := Facade.listen "r1"
                     {| Facade.onUpdate := Some 10%nat; Facade.onError := Some 11%nat |}
                     Facade.init ]} |}.

(** How often [onUpdate] is invoked with the content [c]. *)
Definition updates_with (c : string) (calls : list (nat * Facade.Effect)) : nat :=
  length (List.filter (fun x => Facade.update_with c x.2) calls).

End Terms.

(** * The asynchronous entry points of the Facade

    [ensureInitialized] and [sendMessage] of [WebModelClient] await promises
    of the preload API.  A call that reaches an [await] on a pending promise
    is parked and resumes when the promise settles; everything a call does
    between two such points happens in one step.  The listener map, [cancel]
    and [handleEvent] are those of [Facade]. *)
Module Client.

(** What [this.initializePromise] holds. *)
Inductive InitPromise :=
| FromApi (n : nat)      (* window.api.webModel.initialize().catch(..).finally(..) *)
| ResolvedFalse.         (* Promise.resolve(false), when the API is missing *)

Inductive Call :=
| CEnsure
| CSend (prompt : string) (provider : option string) (callbacks : Facade.StreamCallbacks).

(** A call parked at [await this.initializePromise]. *)
Record InitWaiter := mkInitWaiter {
  iw_call : nat;
  iw_what : Call;
  iw_promise : nat
}.

Record Client := mkClient {
  facade : Facade.Facade;
  initialized : bool;
  initializePromise : option InitPromise;
  awaiting_init : list InitWaiter;
  (* calls of sendMessage parked at [await window.api.webModel.sendMessage] *)
  awaiting_reply : list (nat * Facade.StreamCallbacks);
  nextPromise : nat
}.

Definition init : Client :=
  {| facade := Facade.init; initialized := false; initializePromise := None;
     awaiting_init := []; awaiting_reply := []; nextPromise := 1%nat |}.

Inductive Value :=
| VBool (b : bool)
| VString (s : string).

Inductive Effect :=
| ApiInitialize (n : nat)        (* window.api.webModel.initialize(); its promise is [n] *)
| ApiSendMessage (cid : nat) (prompt : string) (provider : option string)
| Resolve (cid : nat) (v : Value)
| Reject (cid : nat) (message : string)
| OfFacade (e : Facade.Effect).  (* a callback invocation or the API's cancel *)

Definition with_facade (f : Facade.Facade -> Facade.Facade) (c : Client) : Client :=
  {| facade := f (facade c); initialized := initialized c;
     initializePromise := initializePromise c; awaiting_init := awaiting_init c;
     awaiting_reply := awaiting_reply c; nextPromise := nextPromise c |}.

Definition set_initialized (v : bool) (c : Client) : Client :=
  {| facade := facade c; initialized := v;
     initializePromise := initializePromise c; awaiting_init := awaiting_init c;
     awaiting_reply := awaiting_reply c; nextPromise := nextPromise c |}.

Definition set_promise (p : option InitPromise) (c : Client) : Client :=
  {| facade := facade c; initialized := initialized c;
     initializePromise := p; awaiting_init := awaiting_init c;
     awaiting_reply := awaiting_reply c; nextPromise := nextPromise c |}.

(** [ensureInitialized] up to its [await]: the result when it is known at
    once, or the promise of the API the call has to wait for. *)
Definition ensureInitialized (c : Client) : Client * list Effect * (bool + nat) :=
  if initialized c then (c, [], inl true)
  else
    let '(c1, out, p) :=
      match initializePromise c with
      | Some p => (c, [], p)
      | None =>
          if Facade.api (facade c) then
            let n := nextPromise c in
            ({| facade := facade c; initialized := initialized c;
                initializePromise := Some (FromApi n);
                awaiting_init := awaiting_init c;
                awaiting_reply := awaiting_reply c; nextPromise := S n |},
             [ApiInitialize n], FromApi n)
          else (set_promise (Some ResolvedFalse) c, [], ResolvedFalse)
      end in
    match p with
    | FromApi n => (c1, out, inr n)
    | ResolvedFalse => (set_initialized false c1, out, inl false)
    end.

(** What a call does once [ensureInitialized] has returned [result]:
    [ensureInitialized] itself answers with it; [sendMessage] does not look
    at it, checks that the API is there and asks the Broker. *)
Definition afterInit (cid : nat) (what : Call) (result : bool) (c : Client)
    : Client * list Effect :=
  match what with
  | CEnsure => (c, [Resolve cid (VBool result)])
  | CSend prompt provider callbacks =>
      if Facade.api (facade c) then
        ({| facade := facade c; initialized := initialized c;
            initializePromise := initializePromise c;
            awaiting_init := awaiting_init c;
            awaiting_reply := awaiting_reply c ++ [(cid, callbacks)];
            nextPromise := nextPromise c |},
         [ApiSendMessage cid prompt provider])
      else (c, [Reject cid "Web model API is not available"])
  end.

(** A call of [ensureInitialized] or [sendMessage] arrives. *)
Definition invoke (cid : nat) (what : Call) (c : Client) : Client * list Effect :=
  match ensureInitialized c with
  | (c1, out, inl result) =>
      let '(c2, out2) := afterInit cid what result c1 in (c2, out ++ out2)
  | (c1, out, inr n) =>
      ({| facade := facade c1; initialized := initialized c1;
          initializePromise := initializePromise c1;
          awaiting_init := awaiting_init c1 ++ [mkInitWaiter cid what n];
          awaiting_reply := awaiting_reply c1; nextPromise := nextPromise c1 |}, out)
  end.

(** A call parked on the initialization resumes with [result]:
    [this.initialized = result], then the rest of the call. *)
Fixpoint resume_all (result : bool) (ws : list InitWaiter) (c : Client)
    : Client * list Effect :=
  match ws with
  | [] => (c, [])
  | w :: rest =>
      let '(c1, out1) := afterInit (iw_call w) (iw_what w) result (set_initialized result c) in
      let '(c2, out2) := resume_all result rest c1 in
      (c2, out1 ++ out2)
  end.

(** The promise [n] of [window.api.webModel.initialize()] settles, with a
    boolean or with a rejection ([None]), which [catch] turns into [false];
    [finally] clears [initializePromise]; then the parked calls resume.  A
    promise settles once: the event has no effect unless [n] is the
    promise in flight. *)
Definition in_flight (n : nat) (c : Client) : bool :=
  match initializePromise c with
  | Some (FromApi m) => bool_decide (m = n)
  | _ => false
  end.

Definition initSettled (n : nat) (outcome : option bool) (c : Client) : Client * list Effect :=
  if in_flight n c then
    let result := default false outcome in
    resume_all result
      (filter (fun w => iw_promise w = n) (awaiting_init c))
      {| facade := facade c; initialized := initialized c;
         initializePromise := None;
         awaiting_init := filter (fun w => iw_promise w ≠ n) (awaiting_init c);
         awaiting_reply := awaiting_reply c; nextPromise := nextPromise c |}
  else (c, []).

(** The Broker's answer to the [sendMessage] of call [cid] arrives: the
    request identifier, or a rejection with its message. *)
Definition sendSettled (cid : nat) (answer : string + string) (c : Client)
    : Client * list Effect :=
  match list_find (fun x => x.1 = cid) (awaiting_reply c) with
  | None => (c, [])
  | Some (_, (_, callbacks)) =>
      let c1 :=
        {| facade := facade c; initialized := initialized c;
           initializePromise := initializePromise c;
           awaiting_init := awaiting_init c;
           awaiting_reply := filter (fun x => x.1 ≠ cid) (awaiting_reply c);
           nextPromise := nextPromise c |} in
      match answer with
      | inl rid => (with_facade (Facade.listen rid callbacks) c1, [Resolve cid (VString rid)])
      | inr message => (c1, [Reject cid message])
      end
  end.

Inductive Event :=
| Invoke (cid : nat) (what : Call)
| InitSettled (n : nat) (outcome : option bool)
| SendSettled (cid : nat) (answer : string + string)
| CancelCall (rid : string)
| Incoming (payload : Payload).

Definition of_facade (r : Facade.Facade * list Facade.Effect) (c : Client)
    : Client * list Effect :=
  (with_facade (fun _ => r.1) c, OfFacade <$> r.2).

Definition step (c : Client) (ev : Event) : Client * list Effect :=
  match ev with
  | Invoke cid what => invoke cid what c
  | InitSettled n outcome => initSettled n outcome c
  | SendSettled cid answer => sendSettled cid answer c
  | CancelCall rid => of_facade (Facade.cancel rid (facade c)) c
  | Incoming payload => of_facade (Facade.handleEvent payload (facade c)) c
  end.

Fixpoint run (c : Client) (evs : list Event) : Client * list Effect :=
  match evs with
  | [] => (c, [])
  | ev :: rest =>
      let '(c1, out1) := step c ev in
      let '(c2, out2) := run c1 rest in
      (c2, out1 ++ out2)
  end.

End Client.

(** * Further vocabulary *)
Module MoreTerms.
Import Observer Terms.


(** The text [getLatestAssistantContent] starts from: the [innerText] of
    the last assistant node, if there is a node and it has one. *)
Definition latest_text (d : Dom) : option string :=
  last (querySelectorAll d ASSISTANT_MESSAGE_SELECTOR) ≫= el_innerText.

(** The elements clicked, in order. *)
Definition clicks (out : list Effect) : list Element :=
  omap (fun e => match e with DomClick b => Some b | _ => None end) out.

Definition is_tick (ev : Event) : bool :=
  match ev with
  | Tick _ _ _ _ => true
  | _ => false
  end.

(** A [done: false] chunk of the request [rid]. *)
Definition is_progress (rid : string) (m : Upstream) : Prop :=
  ∃ c, m = chunk rid c false.

(** The stop button is shown on the page of every tick. *)
Definition stop_shown (ticks : list (Dom * Z * Z)) : Prop :=
  ∀ d now1 now2, (d, now1, now2) ∈ ticks → is_Some (findStopButton d).

(** ** What is done to the input area *)

(** The calls of a value setter: the setter, the element, the value. *)
Definition setter_calls (out : list Effect) : list (nat * Element * string) :=
  omap (fun e => match e with
                 | DomCallSetter f el v => Some (f, el, v)
                 | _ => None
                 end) out.

(** The input events dispatched: the element and the [data] of the event. *)
Definition input_events (out : list Effect) : list (Element * option string) :=
  omap (fun e => match e with
                 | DomDispatchInput el data => Some (el, data)
                 | _ => None
                 end) out.

(** ** Counting on the Broker's side *)

(** The effect settles the promise of call [cid]. *)
Definition answered (cid : nat) (e : Broker.Effect) : bool :=
  match e with
  | Broker.Resolve c _ | Broker.Reject c _ => bool_decide (c = cid)
  | _ => false
  end.

Definition answers (cid : nat) (out : list Broker.Effect) : nat :=
  length (List.filter (answered cid) out).

(** How often call [cid] is parked in the Broker. *)
Definition parked_calls (cid : nat) (ks : list Broker.Parked) : nat :=
  length (List.filter (fun k => bool_decide (Broker.pk_call k = cid)) ks).

Definition invocations (cid : nat) (evs : list Broker.Event) : nat :=
  length (List.filter (fun ev => match ev with
                                 | Broker.Invoke c _ => bool_decide (c = cid)
                                 | _ => false
                                 end) evs).

(** The number of [createWindow] promises that settle in a run. *)
Definition settlements (evs : list Broker.Event) : nat :=
  length (List.filter (fun ev => match ev with
                                 | Broker.LoadSettled _ _ => true
                                 | _ => false
                                 end) evs).

(** [1] when no creation is in flight, else [0]. *)
Definition creation_slot (b : Broker.Broker) : nat :=
  match Broker.creatingWindowPromise b with
  | Some _ => 0%nat
  | None => 1%nat
  end.

(** What a call gets when [ensureWindow] has returned and there is no
    window and no readiness. *)
Definition unavailable (cid : nat) (c : Broker.Call) : Broker.Effect :=
  match c with
  | Broker.CInitialize => Broker.Resolve cid (Broker.VBool false)
  | Broker.CSendMessage _ _ _ _ => Broker.Reject cid "Web model window is not available"
  end.

(** Every parked call waits for the creation in flight, and while a
    creation is in flight the call that started it is parked on it. *)
Definition waiting_on_creation (b : Broker.Broker) : Prop :=
  (∀ k, k ∈ Broker.parked b →
     Broker.creatingWindowPromise b = Some (Broker.pk_promise k))
  ∧ (∀ p, Broker.creatingWindowPromise b = Some p →
       ∃ k, k ∈ Broker.parked b
            ∧ Broker.pk_role k = Broker.Creator ∧ Broker.pk_promise k = p).

(** What a call gets when the creation it waited for has settled, with
    [failure] or normally, and the window is gone by then: the failure of
    the load, or else what [unavailable] says. *)
Definition after_lost_window (failure : option string) (cid : nat) (c : Broker.Call)
    : Broker.Effect :=
  match failure with
  | Some reason => Broker.Reject cid reason
  | None => unavailable cid c
  end.

(** The event is the arrival of 'web-model:ready'. *)
Definition ready_signal (ev : Broker.Event) : bool :=
  match ev with
  | Broker.FromObserver _ UpReady => true
  | _ => false
  end.

(** The effect fulfils a call of [initialize] with [true]. *)
Definition reports_ready (e : Broker.Effect) : bool :=
  match e with
  | Broker.Resolve _ (Broker.VBool true) => true
  | _ => false
  end.

(** ** Counting on the Facade's side *)

Definition init_calls (out : list Client.Effect) : nat :=
  length (List.filter (fun e => match e with
                                | Client.ApiInitialize _ => true
                                | _ => false
                                end) out).

Definition init_settlements (evs : list Client.Event) : nat :=
  length (List.filter (fun ev => match ev with
                                 | Client.InitSettled _ _ => true
                                 | _ => false
                                 end) evs).

(** [1] when [initializePromise] is null, else [0]. *)
Definition init_slot (c : Client.Client) : nat :=
  match Client.initializePromise c with
  | Some _ => 0%nat
  | None => 1%nat
  end.

(** A call of [ensureInitialized] is answered with [false]. *)
Definition reports_uninitialized (e : Client.Effect) : bool :=
  match e with
  | Client.Resolve _ (Client.VBool false) => true
  | _ => false
  end.

(** What a call gets from a Facade that has no preload API. *)
Definition without_api (call : nat * Client.Call) : Client.Effect :=
  match call.2 with
  | Client.CEnsure => Client.Resolve call.1 (Client.VBool false)
  | Client.CSend _ _ _ => Client.Reject call.1 "Web model API is not available"
  end.

Definition invoke_of (call : nat * Client.Call) : Client.Event :=
  Client.Invoke call.1 call.2.

(** ** The path from the Observer to the callbacks *)

(** The [onUpdate] call a chunk event leads to, for the caller [sid] whose
    callback is [f]. *)
Definition update_call (sid f : nat) (m : Upstream) : option (nat * Facade.Effect) :=
  match m with
  | UpChunk p =>
      c ← content p;
      Some (sid, Facade.CallOnUpdate (requestId p) f c (truthy_flag (done p)))
  | _ => None
  end.

(** The stream contains a final event. *)
Definition completes (rid : string) (ms : list Upstream) : Prop :=
  ∃ c, chunk rid c true ∈ ms.

(** The records the Broker and the caller's Facade hold for a request:
    the pending record [req], and the listener [l] in the Facade of the
    caller named by [req]. *)
Definition held (rid : string) (req : Broker.PendingRequest) (l : Facade.StreamCallbacks)
    (b : Broker.Broker) (fs : gmap nat Facade.Facade) : Prop :=
  Broker.pendingRequests b !! rid = Some req
  ∧ ∃ fa, fs !! Broker.senderId req = Some fa ∧ Facade.listeners fa !! rid = Some l.

(** Neither of them holds a record for the request any more. *)
Definition retired (rid : string) (req : Broker.PendingRequest)
    (b : Broker.Broker) (fs : gmap nat Facade.Facade) : Prop :=
  Broker.pendingRequests b !! rid = None
  ∧ ∃ fa, fs !! Broker.senderId req = Some fa ∧ Facade.listeners fa !! rid = None.

(** ** States used by the instances *)

Definition both_callbacks : Facade.StreamCallbacks :=
  {| Facade.onUpdate := Some 10%nat; Facade.onError := Some 11%nat |}.

(** The Observer polling "r1" with interval 1 and "r2" with interval 2. *)
Definition two_requests : Observer := install "r2" (install "r1" Observer.init).

(** The Broker after its window was created and the page was loaded. *)
Definition broker_with_window : Broker.Broker :=
  (Broker.run Broker.init
     [Broker.Invoke 1 Broker.CInitialize; Broker.LoadSettled 1 None]).1.

Definition initialized_client : Client.Client :=
  Client.set_initialized true Client.init.

Definition client_without_api : Client.Client :=
  Client.with_facade
    (fun fa => {| Facade.listeners := Facade.listeners fa; Facade.api := false |})
    Client.init.

(** A page whose input area has a value setter of its own (20), as a
    framework installs it, besides the one of its prototype (21). *)
Definition controlled_input : Element := mkElement 1 false None (Some 20%nat) (Some 21%nat).

Definition controlled_page : Dom :=
  {| querySelector := fun sel =>
       if String.eqb sel "textarea" then Some controlled_input else None;
     querySelectorAll := fun _ => [];
     closestForm := fun _ => None; HTMLButtonCtor := true; InputEventCtor := true |}.

End MoreTerms.

(** * Properties of the Observer *)
Module ObserverFacts.
Import Observer Terms.

(** ** What each handler does, as an equation on [step] *)

Ltac run_monad :=
  unfold step, handler, onPrompt, submitPrompt, cancelRequest, pollCallback,
    onBeforeUnload, cleanupRequest, startPolling, set_state, setNativeValue,
    call_setter, try_catch, await, emit, throw, modify, get,
    mbind, mret, M_bind, M_ret, bind, ret.

Lemma step_tick_dead o h d n1 n2 :
  timers o !! h = None → step o (Tick h d n1 n2) = (o, []).
Proof. intros Hh. run_monad. by rewrite Hh. Qed.

Lemma quiet_started d st n2 : quiet d st n2 = true → (lastEmit st =? 0) = false.
Proof.
  unfold quiet. intros H. apply andb_true_iff in H as [H _].
  apply andb_true_iff in H as [_ H]. apply Z.ltb_lt in H. apply Z.eqb_neq. lia.
Qed.

(** The interval callback: emit a chunk when the sample is new; complete
    when the request is not done and quiet. *)
Lemma step_tick o h rid st d n1 n2 :
  timers o !! h = Some rid →
  heap o !! h = Some st →
  let st1 := sampled st d n1 in
  let o1 := if emits st d then with_heap (insert h st1) o else o in
  let out1 := if emits st d
              then [IpcSend (chunk rid (getLatestAssistantContent d) false)] else [] in
  step o (Tick h d n1 n2) =
    if negb (rdone st) && quiet d st1 n2
    then (discard rid (with_heap (insert h (finished st1)) o1),
          out1 ++ [IpcSend (chunk rid (lastContent st1) true)])
    else (o1, out1).
Proof.
  intros Ht Hh. cbv zeta. run_monad. rewrite Ht, Hh.
  unfold sampled, emits.
  destruct (truthy (getLatestAssistantContent d)) eqn:Hc; cbn [andb negb].
  - destruct (String.eqb (getLatestAssistantContent d) (lastContent st)) eqn:He;
      cbn [negb]; destruct (rdone st) eqn:Hd; cbn [negb andb rdone lastEmit];
      try reflexivity.
    + unfold quiet. destruct (_ && _ && _); reflexivity.
    + unfold quiet; cbn [lastEmit]. destruct (_ && _ && _); reflexivity.
  - destruct (rdone st) eqn:Hd; cbn [negb andb]; try reflexivity.
    destruct (lastEmit st =? 0) eqn:H0.
    + destruct (quiet d st n2) eqn:Hq; [|reflexivity].
      apply quiet_started in Hq. congruence.
    + unfold quiet. destruct (_ && _ && _); reflexivity.
Qed.

Lemma step_cancel o rid pg :
  step o (Cancel rid pg) =
    (discard rid o,
     match findStopButton pg with Some b => [DomClick b] | None => [] end).
Proof. run_monad. destruct (findStopButton pg); reflexivity. Qed.

Lemma step_loaded o : step o DOMContentLoaded = (o, [IpcSend UpReady]).
Proof. reflexivity. Qed.

Lemma step_prompt o rid prompt start checks pg :
  step o (Prompt rid prompt start checks pg) =
    match waitForSelector INPUT_SELECTORS 15000 start checks with
    | Pending => (o, [])
    | Rejected t => (discard rid o, [IpcSend (error_event rid t)])
    | Resolved ta =>
        match findSendButton pg ta with
        | None => (discard rid o,
                   typing pg ta prompt ++ [IpcSend (error_event rid no_send_button)])
        | Some b => (install rid o, typing pg ta prompt ++ [DomClick b])
        end
    end.
Proof.
  run_monad. unfold typing.
  destruct (waitForSelector _ _ _ _) as [ta|t|]; try reflexivity.
  destruct (bool_decide (is_Some (el_ownValueSetter ta))
            && negb (bool_decide (el_ownValueSetter ta = el_protoValueSetter ta)));
    [destruct (el_protoValueSetter ta) | destruct (el_ownValueSetter ta)];
    destruct (InputEventCtor pg); destruct (findSendButton pg ta); reflexivity.
Qed.

Lemma run_submitPrompt o rid prompt start checks pg :
  submitPrompt rid prompt start checks pg o =
    match waitForSelector INPUT_SELECTORS 15000 start checks with
    | Pending => (o, [], Suspend)
    | Rejected t => (o, [], Throw t)
    | Resolved ta =>
        match findSendButton pg ta with
        | None => (o, typing pg ta prompt, Throw no_send_button)
        | Some b => (install rid o, typing pg ta prompt ++ [DomClick b], Ret tt)
        end
    end.
Proof.
  run_monad. unfold typing.
  destruct (waitForSelector _ _ _ _) as [ta|t|]; try reflexivity.
  destruct (bool_decide (is_Some (el_ownValueSetter ta))
            && negb (bool_decide (el_ownValueSetter ta = el_protoValueSetter ta)));
    [destruct (el_protoValueSetter ta) | destruct (el_ownValueSetter ta)];
    destruct (InputEventCtor pg); destruct (findSendButton pg ta); reflexivity.
Qed.

Lemma run_onPrompt o rid prompt start checks pg :
  handler (Prompt rid prompt start checks pg) o =
    match submitPrompt rid prompt start checks pg o with
    | (o1, out1, Throw t) =>
        (discard rid o1, out1 ++ [IpcSend (error_event rid t)], Ret tt)
    | r => r
    end.
Proof.
  unfold handler, onPrompt, try_catch.
  destruct (submitPrompt rid prompt start checks pg o) as [[o1 out1] [[]|t|]];
    reflexivity.
Qed.

(** [waitForSelector] gives up at the first check that comes more than
    [timeout] ms after the start, provided no check up to then found one of
    the selectors. *)
Lemma wait_times_out selectors timeout start checks :
  (∀ d now, (d, now) ∈ checks →
     first_match (querySelector d) (fun _ => true) selectors = None) →
  (∃ d now, (d, now) ∈ checks ∧ timeout < now - start) →
  waitForSelector selectors timeout start checks = Rejected timed_out.
Proof.
  induction checks as [|[d now] checks IH]; intros Hnone (d' & now' & Hin & Hlate).
  - by apply elem_of_nil in Hin.
  - cbn [waitForSelector]. rewrite (Hnone d now) by left.
    destruct (timeout <? now - start) eqn:Hlt; [done|].
    apply IH.
    + intros d1 n1 H1. apply (Hnone d1 n1). by right.
    + apply elem_of_cons in Hin as [Heq|Hin].
      * injection Heq as -> ->. apply Z.ltb_ge in Hlt. lia.
      * eauto.
Qed.

(** Some check settles the promise: the wait is never left pending when a
    check finds the input or comes after the timeout. *)
Lemma wait_settles selectors timeout start checks :
  (∃ d now, (d, now) ∈ checks ∧
     (is_Some (first_match (querySelector d) (fun _ => true) selectors)
      ∨ timeout < now - start)) →
  waitForSelector selectors timeout start checks ≠ Pending.
Proof.
  induction checks as [|[d now] checks IH]; intros (d' & now' & Hin & Hset).
  - by apply elem_of_nil in Hin.
  - cbn [waitForSelector].
    destruct (first_match (querySelector d) _ selectors) eqn:Hf; [done|].
    destruct (timeout <? now - start) eqn:Hlt; [done|].
    apply IH. apply elem_of_cons in Hin as [Heq|Hin]; [|eauto].
    injection Heq as -> ->. destruct Hset as [[e He]|Hlate]; [congruence|].
    apply Z.ltb_ge in Hlt. lia.
Qed.

Lemma cleanup_fold (l : list string) o :
  foldr (fun rid rest => cleanupRequest rid;; rest) (mret tt) l o
  = (foldr discard o (rev l), [], Ret tt).
Proof.
  revert o. induction l as [|rid l IH]; intros o; [reflexivity|].
  cbn [foldr rev]. rewrite foldr_app. cbn [foldr].
  unfold mbind, M_bind, bind, cleanupRequest, modify. rewrite IH. reflexivity.
Qed.

Lemma step_unload o : step o BeforeUnload = (unloaded o, []).
Proof.
  unfold step, handler, onBeforeUnload, mbind, M_bind, bind, get.
  rewrite cleanup_fold. reflexivity.
Qed.

(** ** The registry under [discard] and [install] *)

Lemma discard_active rid o :
  ACTIVE_REQUESTS (discard rid o) = delete rid (ACTIVE_REQUESTS o).
Proof.
  unfold discard. destruct (ACTIVE_REQUESTS o !! rid) eqn:H; [reflexivity|].
  symmetry. by apply delete_id.
Qed.

Lemma discard_gone rid o : ACTIVE_REQUESTS (discard rid o) !! rid = None.
Proof. rewrite discard_active. apply lookup_delete_eq. Qed.

Lemma discard_heap rid o : heap (discard rid o) = heap o.
Proof. unfold discard. by destruct (ACTIVE_REQUESTS o !! rid). Qed.

Lemma discard_fresh rid o : fresh (discard rid o) = fresh o.
Proof. unfold discard. by destruct (ACTIVE_REQUESTS o !! rid). Qed.

Lemma discard_timers_sub rid o h r :
  timers (discard rid o) !! h = Some r → timers o !! h = Some r.
Proof.
  unfold discard. destruct (ACTIVE_REQUESTS o !! rid) as [n|]; [|done]. cbn.
  destruct (heap o !! n ≫= interval); [|done].
  intros H. apply lookup_delete_Some in H. tauto.
Qed.

Lemma discard_fold_active l o :
  ACTIVE_REQUESTS (foldr discard o l) = foldr delete (ACTIVE_REQUESTS o) l.
Proof.
  induction l as [|rid l IH]; [reflexivity|]. cbn [foldr].
  by rewrite discard_active, IH.
Qed.

Lemma delete_fold_lookup (l : list string) (m : gmap string nat) r :
  foldr delete m l !! r = if bool_decide (r ∈ l) then None else m !! r.
Proof.
  induction l as [|a l IH]; cbn [foldr].
  - rewrite bool_decide_eq_false_2; [done | apply not_elem_of_nil].
  - destruct (decide (a = r)) as [->|Hne].
    + rewrite lookup_delete_eq, bool_decide_eq_true_2; [done | left].
    + rewrite lookup_delete_ne, IH by done.
      destruct (bool_decide (r ∈ l)) eqn:Hl.
      * apply bool_decide_eq_true in Hl.
        rewrite bool_decide_eq_true_2; [done | by right].
      * apply bool_decide_eq_false in Hl.
        rewrite bool_decide_eq_false_2; [done|].
        intros Hin. apply elem_of_cons in Hin as [?|?]; congruence.
Qed.

(** ** The shape of the memory is kept by every handler *)

Lemma wf_init : wf init.
Proof. split; intros *; cbn; try rewrite lookup_empty; done. Qed.

Lemma wf_discard rid o : wf o → wf (discard rid o).
Proof.
  intros W. unfold discard.
  destruct (ACTIVE_REQUESTS o !! rid) as [r|] eqn:Ha; [|done].
  pose proof (wf_owner o W rid r Ha) as Ht.
  destruct (wf_running o W r rid Ht) as (st & Hr & _).
  rewrite Hr; cbn. rewrite (wf_interval o W r st Hr). split; cbn.
  - intros h q Hh. apply lookup_delete_Some in Hh as [Hne Hh].
    pose proof (wf_registered o W h q Hh) as Hq.
    rewrite lookup_delete_ne; [done|]. congruence.
  - intros q h Hq. apply lookup_delete_Some in Hq as [Hne Hq].
    pose proof (wf_owner o W q h Hq) as Hh.
    rewrite lookup_delete_ne; [done|]. congruence.
  - intros h q Hh. apply lookup_delete_Some in Hh as [Hne Hh].
    by apply (wf_running o W h q).
  - apply W.
  - intros h Hh. destruct (wf_fresh o W h Hh) as [H1 H2]. split; [|done].
    apply lookup_delete_None. by right.
  - apply W.
Qed.

(** [discard] removes the entry of [rid] and clears its interval. *)
Lemma discard_registered rid h o :
  wf o → ACTIVE_REQUESTS o !! rid = Some h →
  ACTIVE_REQUESTS (discard rid o) = delete rid (ACTIVE_REQUESTS o)
  ∧ timers (discard rid o) = delete h (timers o)
  ∧ heap (discard rid o) = heap o.
Proof.
  intros W Ha. unfold discard. rewrite Ha.
  pose proof (wf_owner o W rid h Ha) as Ht.
  destruct (wf_running o W h rid Ht) as (st & Hr & _).
  rewrite Hr; cbn. by rewrite (wf_interval o W h st Hr).
Qed.

Lemma wf_install rid o :
  wf o → ACTIVE_REQUESTS o !! rid = None → wf (install rid o).
Proof.
  intros W Ha. split; cbn.
  - intros h q Hh. apply lookup_insert_Some in Hh as [[<- <-]|[Hne Hh]].
    + apply lookup_insert_eq.
    + pose proof (wf_registered o W h q Hh) as Hq.
      rewrite lookup_insert_ne; [done|]. congruence.
  - intros q h Hq. apply lookup_insert_Some in Hq as [[<- <-]|[Hne Hq]].
    + apply lookup_insert_eq.
    + pose proof (wf_owner o W q h Hq) as Hh.
      rewrite lookup_insert_ne; [done|]. intros <-.
      destruct (wf_fresh o W (fresh o)) as [H1 _]; [lia|]. congruence.
  - intros h q Hh. apply lookup_insert_Some in Hh as [[<- <-]|[Hne Hh]].
    + rewrite lookup_insert_eq. eauto.
    + rewrite lookup_insert_ne by done. by apply (wf_running o W h q).
  - intros r st Hr. apply lookup_insert_Some in Hr as [[<- <-]|[Hne Hr]]; [done|].
    by apply (wf_interval o W).
  - intros h Hh. destruct (wf_fresh o W h) as [H1 H2]; [lia|].
    rewrite !lookup_insert_ne by lia. done.
  - intros r st Hr. apply lookup_insert_Some in Hr as [[<- <-]|[Hne Hr]]; [done|].
    by apply (wf_emitted o W r).
Qed.

Lemma wf_update o h st st' :
  wf o → heap o !! h = Some st → interval st' = Some h → rdone st' = rdone st →
  (lastEmit st' ≠ 0 → truthy (lastContent st') = true) →
  wf (with_heap (insert h st') o).
Proof.
  intros W Hh Hi Hd He. split; cbn.
  - apply W.
  - apply W.
  - intros h' q Ht. destruct (wf_running o W h' q Ht) as (s & Hs & Hsd).
    destruct (decide (h = h')) as [<-|Hne].
    + rewrite lookup_insert_eq. exists st'. split; [done|]. congruence.
    + rewrite lookup_insert_ne by done. eauto.
  - intros r s Hr. apply lookup_insert_Some in Hr as [[<- <-]|[Hne Hr]]; [done|].
    by apply (wf_interval o W).
  - intros h' Hf. destruct (wf_fresh o W h' Hf) as [H1 H2]. split; [done|].
    rewrite lookup_insert_ne; [done|]. congruence.
  - intros r s Hr. apply lookup_insert_Some in Hr as [[<- <-]|[Hne Hr]]; [done|].
    by apply (wf_emitted o W r).
Qed.

(** Completion: the object is marked done and the request is discarded in
    the same callback, which clears the very interval that is running. *)
Lemma wf_complete o h rid st st' :
  wf o → timers o !! h = Some rid → heap o !! h = Some st → interval st' = Some h →
  (lastEmit st' ≠ 0 → truthy (lastContent st') = true) →
  wf (discard rid (with_heap (insert h st') o))
  ∧ timers (discard rid (with_heap (insert h st') o)) = delete h (timers o)
  ∧ ACTIVE_REQUESTS (discard rid (with_heap (insert h st') o))
    = delete rid (ACTIVE_REQUESTS o)
  ∧ heap (discard rid (with_heap (insert h st') o)) = <[h := st']> (heap o).
Proof.
  intros W Ht Hh Hi He.
  pose proof (wf_registered o W h rid Ht) as Ha.
  unfold discard; cbn. rewrite Ha, lookup_insert_eq; cbn. rewrite Hi.
  split; [|done]. split; cbn.
  - intros h' q Hq. apply lookup_delete_Some in Hq as [Hne Hq].
    pose proof (wf_registered o W h' q Hq).
    rewrite lookup_delete_ne; [done|]. congruence.
  - intros q h' Hq. apply lookup_delete_Some in Hq as [Hne Hq].
    pose proof (wf_owner o W q h' Hq).
    rewrite lookup_delete_ne; [done|]. congruence.
  - intros h' q Hq. apply lookup_delete_Some in Hq as [Hne Hq].
    rewrite lookup_insert_ne by done. by apply (wf_running o W h' q).
  - intros r s Hr. apply lookup_insert_Some in Hr as [[<- <-]|[Hne Hr]]; [done|].
    by apply (wf_interval o W).
  - intros h' Hf. destruct (wf_fresh o W h' Hf) as [H1 H2]. split.
    + apply lookup_delete_None. by right.
    + rewrite lookup_insert_ne; [done|]. congruence.
  - intros r s Hr. apply lookup_insert_Some in Hr as [[<- <-]|[Hne Hr]]; [done|].
    by apply (wf_emitted o W r).
Qed.

Lemma sampled_interval st d n1 : interval (sampled st d n1) = interval st.
Proof. unfold sampled. by destruct (emits st d). Qed.

Lemma sampled_rdone st d n1 : rdone (sampled st d n1) = rdone st.
Proof. unfold sampled. by destruct (emits st d). Qed.

Lemma sampled_emitted st d n1 :
  (lastEmit st ≠ 0 → truthy (lastContent st) = true) →
  lastEmit (sampled st d n1) ≠ 0 → truthy (lastContent (sampled st d n1)) = true.
Proof.
  unfold sampled. destruct (emits st d) eqn:He; [|done]. cbn. intros _ _.
  unfold emits in He. by apply andb_true_iff in He as [-> _].
Qed.

Lemma wf_unloaded o : wf o → wf (unloaded o).
Proof.
  intros W. unfold unloaded.
  set (l := rev (fst <$> map_to_list (ACTIVE_REQUESTS o))).
  assert (W1 : wf (foldr discard o l)).
  { clearbody l. induction l as [|a l IH]; [done|]. cbn [foldr]. by apply wf_discard. }
  assert (Hnone : ∀ r, ACTIVE_REQUESTS (foldr discard o l) !! r = None).
  { intros r. rewrite discard_fold_active, delete_fold_lookup.
    destruct (bool_decide (r ∈ l)) eqn:Hl; [done|].
    apply bool_decide_eq_false in Hl.
    destruct (ACTIVE_REQUESTS o !! r) as [h|] eqn:Hr; [|done].
    exfalso. apply Hl. unfold l. apply list_elem_of_In.
    rewrite <- in_rev. apply list_elem_of_In.
    apply list_elem_of_fmap. exists (r, h). split; [done|].
    by apply elem_of_map_to_list. }
  split; cbn.
  - intros h q Hq. pose proof (wf_registered _ W1 h q Hq) as Ha.
    by rewrite Hnone in Ha.
  - intros q h Hq. by rewrite lookup_empty in Hq.
  - apply W1.
  - apply W1.
  - apply W1.
  - apply W1.
Qed.

Lemma wf_tick o h d n1 n2 : wf o → wf (step o (Tick h d n1 n2)).1.
Proof.
  intros W. destruct (timers o !! h) as [rid|] eqn:Ht.
  - destruct (wf_running o W h rid Ht) as (st & Hh & Hd).
    rewrite (step_tick o h rid st d n1 n2 Ht Hh). cbv zeta.
    set (o1 := if emits st d then with_heap (insert h (sampled st d n1)) o else o).
    assert (W1 : wf o1 ∧ timers o1 = timers o ∧ heap o1 !! h = Some (sampled st d n1)).
    { unfold o1. destruct (emits st d) eqn:He.
      - split; [|split; [done|apply lookup_insert_eq]].
        eapply wf_update; eauto.
        + rewrite sampled_interval. by apply (wf_interval o W).
        + apply sampled_rdone.
        + apply sampled_emitted, (wf_emitted o W h st Hh).
      - split; [done|]. split; [done|]. unfold sampled. by rewrite He. }
    destruct W1 as (W1 & Ht1 & Hh1).
    destruct (negb (rdone st) && quiet d (sampled st d n1) n2); cbn [fst]; [|done].
    eapply wf_complete; eauto.
    + by rewrite Ht1.
    + cbn. rewrite sampled_interval. by apply (wf_interval o W).
    + cbn. apply sampled_emitted, (wf_emitted o W h st Hh).
  - by rewrite step_tick_dead.
Qed.

Lemma wf_step o ev : wf o → prompt_is_new o ev → wf (step o ev).1.
Proof.
  intros W Hnew. destruct ev as [rid prompt start checks pg|rid pg|h pg n1 n2| |].
  - rewrite step_prompt.
    destruct (waitForSelector _ _ _ _) as [ta|t|]; cbn [fst]; [|by apply wf_discard|done].
    destruct (findSendButton pg ta); cbn [fst]; [by apply wf_install|by apply wf_discard].
  - rewrite step_cancel. by apply wf_discard.
  - by apply wf_tick.
  - rewrite step_unload. by apply wf_unloaded.
  - done.
Qed.

(** ** One tick of a running request *)

Lemma tick_continues o h rid st d n1 n2 :
  wf o → timers o !! h = Some rid → heap o !! h = Some st →
  quiet d (sampled st d n1) n2 = false →
  ∃ o', step o (Tick h d n1 n2) = (o', tick_output rid st d)
        ∧ ACTIVE_REQUESTS o' = ACTIVE_REQUESTS o
        ∧ timers o' = timers o
        ∧ heap o' = <[h := sampled st d n1]> (heap o)
        ∧ fresh o' = fresh o.
Proof.
  intros W Ht Hh Hq. rewrite (step_tick o h rid st d n1 n2 Ht Hh). cbv zeta.
  rewrite Hq, andb_false_r. unfold tick_output, sampled.
  destruct (emits st d); eexists; split; try reflexivity; cbn.
  - done.
  - repeat split. symmetry. by apply insert_id.
Qed.

Lemma tick_completes o h rid st d n1 n2 :
  wf o → timers o !! h = Some rid → heap o !! h = Some st →
  quiet d (sampled st d n1) n2 = true →
  ∃ o', step o (Tick h d n1 n2)
          = (o', tick_output rid st d
                 ++ [IpcSend (chunk rid (lastContent (sampled st d n1)) true)])
        ∧ ACTIVE_REQUESTS o' = delete rid (ACTIVE_REQUESTS o)
        ∧ timers o' = delete h (timers o)
        ∧ heap o' = <[h := finished (sampled st d n1)]> (heap o).
Proof.
  intros W Ht Hh Hq. rewrite (step_tick o h rid st d n1 n2 Ht Hh). cbv zeta.
  destruct (wf_running o W h rid Ht) as (st0 & Hst0 & Hd).
  assert (st0 = st) as -> by congruence.
  rewrite Hq, Hd. cbn [negb andb]. eexists. split; [reflexivity|].
  set (o1 := if emits st d then with_heap (insert h (sampled st d n1)) o else o).
  assert (W1 : wf o1 ∧ timers o1 = timers o ∧ ACTIVE_REQUESTS o1 = ACTIVE_REQUESTS o
               ∧ heap o1 !! h = Some (sampled st d n1)
               ∧ <[h := finished (sampled st d n1)]> (heap o1)
                 = <[h := finished (sampled st d n1)]> (heap o)).
  { unfold o1. destruct (emits st d) eqn:He.
    - split; [|split; [done|split; [done|split; [apply lookup_insert_eq|]]]].
      + eapply wf_update; eauto.
        * rewrite sampled_interval. by apply (wf_interval o W).
        * apply sampled_rdone.
        * apply sampled_emitted, (wf_emitted o W h st Hh).
      + cbn. apply insert_insert_eq.
    - split; [done|]. split; [done|]. split; [done|]. split; [|done].
      unfold sampled. by rewrite He. }
  destruct W1 as (W1 & Ht1 & Ha1 & Hh1 & Hins).
  destruct (wf_complete o1 h rid (sampled st d n1) (finished (sampled st d n1)))
    as (_ & Htm & Hac & Hhp); try done.
  - by rewrite Ht1.
  - cbn. rewrite sampled_interval. by apply (wf_interval o W).
  - cbn. apply sampled_emitted, (wf_emitted o W h st Hh).
  - by rewrite Htm, Hac, Hhp, Ht1, Ha1, Hins.
Qed.

(** ** Messages sent *)

Lemma sent_app a b : sent (a ++ b) = sent a ++ sent b.
Proof. unfold sent. apply omap_app. Qed.

Lemma sent_for_app rid a b : sent_for rid (a ++ b) = sent_for rid a ++ sent_for rid b.
Proof. unfold sent_for. by rewrite sent_app, filter_app. Qed.

Lemma sent_typing d ta v : sent (typing d ta v) = [].
Proof.
  unfold typing.
  destruct (if _ && _ then _ else _); destruct (InputEventCtor d); reflexivity.
Qed.

Lemma sent_for_chunk_other rid q c b : q ≠ rid → sent_for rid [IpcSend (chunk q c b)] = [].
Proof.
  intros Hne. unfold sent_for; cbn. case_decide; [congruence|done].
Qed.

Lemma sent_for_error_other rid q t : q ≠ rid → sent_for rid [IpcSend (error_event q t)] = [].
Proof.
  intros Hne. unfold sent_for; cbn. case_decide; [congruence|done].
Qed.

Lemma sent_for_tick_other rid q st d : q ≠ rid → sent_for rid (tick_output q st d) = [].
Proof.
  intros Hne. unfold tick_output. destruct (emits st d); [|done].
  by apply sent_for_chunk_other.
Qed.

(** ** A request that is not registered stays silent *)

Lemma prompt_ids_cons ev evs : prompt_ids (ev :: evs) = prompt_ids [ev] ++ prompt_ids evs.
Proof. by destruct ev. Qed.

Lemma step_keeps_absent o ev rid :
  wf o → ACTIVE_REQUESTS o !! rid = None → rid ∉ prompt_ids [ev] →
  ACTIVE_REQUESTS (step o ev).1 !! rid = None.
Proof.
  intros W Ha Hp. destruct ev as [r prompt start checks pg|r pg|h pg n1 n2| |].
  - assert (r ≠ rid) by (intros ->; apply Hp; cbn; left).
    rewrite step_prompt.
    destruct (waitForSelector _ _ _ _) as [ta|t|]; cbn [fst];
      [destruct (findSendButton pg ta); cbn [fst]| |done].
    + cbn. by rewrite lookup_insert_ne.
    + rewrite discard_active. apply lookup_delete_None. by right.
    + rewrite discard_active. apply lookup_delete_None. by right.
  - rewrite step_cancel; cbn [fst]. rewrite discard_active.
    apply lookup_delete_None. by right.
  - destruct (timers o !! h) as [q|] eqn:Ht; [|by rewrite step_tick_dead].
    destruct (wf_running o W h q Ht) as (st & Hh & _).
    destruct (quiet pg (sampled st pg n1) n2) eqn:Hq.
    + destruct (tick_completes o h q st pg n1 n2 W Ht Hh Hq) as (o' & -> & Hac & _).
      cbn [fst]. rewrite Hac. apply lookup_delete_None. by right.
    + destruct (tick_continues o h q st pg n1 n2 W Ht Hh Hq) as (o' & -> & Hac & _).
      cbn [fst]. by rewrite Hac.
  - rewrite step_unload. cbn. apply lookup_empty.
  - done.
Qed.

Lemma step_silent o ev rid :
  wf o → ACTIVE_REQUESTS o !! rid = None → rid ∉ prompt_ids [ev] →
  sent_for rid (step o ev).2 = [].
Proof.
  intros W Ha Hp. destruct ev as [r prompt start checks pg|r pg|h pg n1 n2| |].
  - assert (r ≠ rid) by (intros ->; apply Hp; cbn; left).
    rewrite step_prompt.
    destruct (waitForSelector _ _ _ _) as [ta|t|]; cbn [snd];
      [destruct (findSendButton pg ta); cbn [snd]| |done].
    + unfold sent_for. rewrite sent_app, sent_typing. done.
    + rewrite sent_for_app. unfold sent_for at 1. rewrite sent_typing.
      by rewrite sent_for_error_other.
    + by apply sent_for_error_other.
  - rewrite step_cancel; cbn [snd]. by destruct (findStopButton pg).
  - destruct (timers o !! h) as [q|] eqn:Ht; [|by rewrite step_tick_dead].
    destruct (wf_running o W h q Ht) as (st & Hh & _).
    assert (q ≠ rid).
    { intros ->. pose proof (wf_registered o W h rid Ht). congruence. }
    destruct (quiet pg (sampled st pg n1) n2) eqn:Hq.
    + destruct (tick_completes o h q st pg n1 n2 W Ht Hh Hq) as (o' & -> & _).
      cbn [snd]. rewrite sent_for_app, sent_for_tick_other, sent_for_chunk_other; done.
    + destruct (tick_continues o h q st pg n1 n2 W Ht Hh Hq) as (o' & -> & _).
      cbn [snd]. by apply sent_for_tick_other.
  - by rewrite step_unload.
  - done.
Qed.

Lemma fresh_prompts_step o ev evs :
  wf o → fresh_prompts o (ev :: evs) →
  prompt_is_new o ev ∧ fresh_prompts (step o ev).1 evs.
Proof.
  intros W [Hnd Hin]. rewrite prompt_ids_cons in Hnd, Hin.
  apply NoDup_app in Hnd as (_ & Hdisj & Hnd). split; [|split; [done|]].
  - destruct ev; try done. cbn. apply Hin. cbn. left.
  - intros r Hr. apply step_keeps_absent; [done| |].
    + apply Hin. apply elem_of_app. by right.
    + intros Hr'. by apply (Hdisj r).
Qed.

Lemma wf_run o evs : wf o → fresh_prompts o evs → wf (run o evs).1.
Proof.
  revert o. induction evs as [|ev evs IH]; intros o W F; [done|].
  destruct (fresh_prompts_step o ev evs W F) as [Hnew F'].
  pose proof (wf_step o ev W Hnew) as W'.
  cbn [run]. destruct (step o ev) as [o1 out1] eqn:Hs. cbn [fst] in *.
  specialize (IH o1 W' F'). destruct (run o1 evs) as [o2 out2]. done.
Qed.


(** ** Completion *)


Lemma finals_app rid a b : finals rid (a ++ b) = finals rid a ++ finals rid b.
Proof. unfold finals. by rewrite sent_app, List.filter_app. Qed.

Lemma finals_tick_output rid q st d : finals rid (tick_output q st d) = [].
Proof.
  unfold tick_output. destruct (emits st d); [|done].
  unfold finals; cbn. by rewrite andb_false_r.
Qed.


Lemma no_timer_of_absent o rid :
  wf o → ACTIVE_REQUESTS o !! rid = None → ∀ h, timers o !! h ≠ Some rid.
Proof. intros W Ha h Ht. pose proof (wf_registered o W h rid Ht). congruence. Qed.


(** ** At most one final event *)

Lemma run_cons o ev evs :
  run o (ev :: evs)
  = ((run (step o ev).1 evs).1, (step o ev).2 ++ (run (step o ev).1 evs).2).
Proof. cbn [run]. destruct (step o ev) as [o1 out1]. cbn. by destruct (run o1 evs). Qed.






(** ** The ticks of one request *)

Lemma run_dead_ticks o h ticks :
  timers o !! h = None → run o (tick_of h <$> ticks) = (o, []).
Proof.
  intros Ht. induction ticks as [|[[d n1] n2] ticks IH]; [done|].
  rewrite fmap_cons, run_cons. cbn [tick_of].
  rewrite step_tick_dead by done. cbn [fst snd]. by rewrite IH.
Qed.

Lemma run_ticks o h rid st ticks :
  wf o → timers o !! h = Some rid → heap o !! h = Some st →
  sent (run o (tick_of h <$> ticks)).2 = poll rid st ticks.
Proof.
  revert o st. induction ticks as [|[[d n1] n2] ticks IH]; intros o st W Ht Hh; [done|].
  rewrite fmap_cons, run_cons. cbn [tick_of poll snd].
  pose proof (wf_tick o h d n1 n2 W) as W'.
  destruct (quiet d (sampled st d n1) n2) eqn:Hq.
  - destruct (tick_completes o h rid st d n1 n2 W Ht Hh Hq) as (o' & Hs & _ & Htm & _).
    rewrite Hs in *. cbn [fst snd] in *.
    rewrite run_dead_ticks by (rewrite Htm; apply lookup_delete_eq).
    cbn [snd]. by rewrite app_nil_r, sent_app.
  - destruct (tick_continues o h rid st d n1 n2 W Ht Hh Hq)
      as (o' & Hs & _ & Htm & Hhp & _).
    rewrite Hs in *. cbn [fst snd] in *.
    rewrite sent_app, (IH o' (sampled st d n1)); [done|done| |].
    + by rewrite Htm.
    + rewrite Hhp. apply lookup_insert_eq.
Qed.


(** ** Error events *)

Lemma wait_rejects_with_timeout selectors timeout start checks t :
  waitForSelector selectors timeout start checks = Rejected t → t = timed_out.
Proof.
  induction checks as [|[d now] checks IH]; [done|]. cbn [waitForSelector].
  destruct (first_match _ _ _); [done|].
  destruct (timeout <? now - start); [by intros [= <-]|done].
Qed.

Lemma tick_sends_chunks o h d n1 n2 m :
  m ∈ sent (step o (Tick h d n1 n2)).2 → ∃ rid c b, m = chunk rid c b.
Proof.
  destruct (timers o !! h) as [rid|] eqn:Ht.
  2:{ rewrite step_tick_dead by done. intros H. by apply elem_of_nil in H. }
  destruct (heap o !! h) as [st|] eqn:Hh.
  - rewrite (step_tick o h rid st d n1 n2 Ht Hh). cbv zeta.
    destruct (negb (rdone st) && quiet d (sampled st d n1) n2); cbn [snd];
      destruct (emits st d); cbn; intros H;
      repeat (apply elem_of_cons in H as [->|H]; [eauto|]);
      by apply elem_of_nil in H.
  - run_monad. rewrite Ht, Hh. cbn. intros H. by apply elem_of_nil in H.
Qed.

(** The only error events the Observer sends are the two of the prompt
    handler; their message is not empty. *)
Lemma observer_error_events o ev p :
  UpError p ∈ sent (step o ev).2 →
  ∃ rid t, (t = timed_out ∨ t = no_send_button) ∧ UpError p = error_event rid t.
Proof.
  destruct ev as [rid prompt start checks pg|rid pg|h pg n1 n2| |].
  - rewrite step_prompt.
    destruct (waitForSelector _ _ _ _) as [ta|t|] eqn:Hw; cbn [snd];
      [destruct (findSendButton pg ta); cbn [snd]| |].
    + rewrite sent_app, sent_typing. cbn. intros H. by apply elem_of_nil in H.
    + rewrite sent_app, sent_typing. cbn. intros H.
      apply list_elem_of_singleton in H. eauto.
    + cbn. intros H. apply list_elem_of_singleton in H.
      apply wait_rejects_with_timeout in Hw as ->. eauto.
    + intros H. by apply elem_of_nil in H.
  - rewrite step_cancel. cbn [snd].
    destruct (findStopButton pg); cbn; intros H; by apply elem_of_nil in H.
  - intros H. apply tick_sends_chunks in H as (rid & c & b & H). discriminate.
  - rewrite step_unload. intros H. by apply elem_of_nil in H.
  - cbn. intros H. apply list_elem_of_singleton in H. discriminate.
Qed.

(** ** A request whose answer stays empty *)

Lemma emits_empty st d : getLatestAssistantContent d = "" → emits st d = false.
Proof. unfold emits. by intros ->. Qed.

Lemma quiet_unstarted d st n2 : lastEmit st = 0 → quiet d st n2 = false.
Proof.
  unfold quiet. intros ->. change (0 <? 0) with false. by rewrite andb_false_r.
Qed.

Lemma sent_for_prompt_other o rid r prompt start checks pg :
  r ≠ rid → sent_for rid (step o (Prompt r prompt start checks pg)).2 = [].
Proof.
  intros Hne. rewrite step_prompt.
  destruct (waitForSelector _ _ _ _) as [ta|t|]; cbn [snd];
    [destruct (findSendButton pg ta); cbn [snd]| |done].
  - unfold sent_for. rewrite sent_app, sent_typing. done.
  - rewrite sent_for_app. unfold sent_for at 1. rewrite sent_typing.
    by rewrite sent_for_error_other.
  - by apply sent_for_error_other.
Qed.

Lemma idle_step o ev rid h :
  wf o → idle rid h o → prompt_is_new o ev → rid ∉ prompt_ids [ev] →
  (∀ d n1 n2, ev = Tick h d n1 n2 → getLatestAssistantContent d = "") →
  idle rid h (step o ev).1 ∧ sent_for rid (step o ev).2 = [].
Proof.
  intros W [Ha|(Ht & st & Hh & He & Hc)] Hnew Hp Hempty.
  { split; [left; by apply step_keeps_absent|by apply step_silent]. }
  pose proof (wf_registered o W h rid Ht) as Ha.
  destruct ev as [r prompt start checks pg|r pg|h' pg n1 n2| |].
  - assert (r ≠ rid) by (intros ->; apply Hp; cbn; left).
    cbn in Hnew. split; [|by apply sent_for_prompt_other].
    rewrite step_prompt.
    destruct (waitForSelector _ _ _ _) as [ta|t|]; cbn [fst];
      [destruct (findSendButton pg ta); cbn [fst]| |].
    + right. cbn. destruct (wf_fresh o W (fresh o)) as [Hft Hfh]; [lia|].
      assert (fresh o ≠ h) by congruence.
      rewrite !lookup_insert_ne by done. eauto.
    + unfold discard. rewrite Hnew. right. eauto.
    + unfold discard. rewrite Hnew. right. eauto.
    + right. eauto.
  - rewrite step_cancel. cbn [fst snd]. split; [|by destruct (findStopButton pg)].
    destruct (decide (r = rid)) as [->|Hne]; [left; apply discard_gone|].
    right. rewrite discard_heap. split; [|eauto].
    destruct (ACTIVE_REQUESTS o !! r) as [x|] eqn:Hr.
    + destruct (discard_registered r x o W Hr) as (_ & -> & _).
      rewrite lookup_delete_ne; [done|]. intros ->.
      pose proof (wf_owner o W r h Hr). congruence.
    + unfold discard. by rewrite Hr.
  - destruct (timers o !! h') as [q|] eqn:Ht'.
    2:{ rewrite step_tick_dead by done. split; [right; eauto|done]. }
    destruct (wf_running o W h' q Ht') as (st' & Hh' & _).
    destruct (decide (h' = h)) as [->|Hne].
    + assert (q = rid) as -> by congruence. assert (st' = st) as -> by congruence.
      pose proof (emits_empty st pg (Hempty pg n1 n2 eq_refl)) as Hem.
      assert (Hsm : sampled st pg n1 = st) by (unfold sampled; by rewrite Hem).
      destruct (tick_continues o h rid st pg n1 n2 W Ht Hh)
        as (o' & -> & Hac & Htm & Hhp & _).
      { rewrite Hsm. by apply quiet_unstarted. }
      cbn [fst snd]. unfold tick_output. rewrite Hem. split; [|done].
      right. rewrite Htm, Hhp, Hsm, lookup_insert_eq. eauto.
    + assert (q ≠ rid).
      { intros ->. pose proof (wf_registered o W h' rid Ht'). congruence. }
      destruct (quiet pg (sampled st' pg n1) n2) eqn:Hq.
      * destruct (tick_completes o h' q st' pg n1 n2 W Ht' Hh' Hq)
          as (o' & -> & Hac & Htm & Hhp).
        cbn [fst snd]. split.
        -- right. rewrite Htm, Hhp, lookup_delete_ne, lookup_insert_ne by done. eauto.
        -- rewrite sent_for_app, sent_for_tick_other, sent_for_chunk_other; done.
      * destruct (tick_continues o h' q st' pg n1 n2 W Ht' Hh' Hq)
          as (o' & -> & Hac & Htm & Hhp & _).
        cbn [fst snd]. split.
        -- right. rewrite Htm, Hhp, lookup_insert_ne by done. eauto.
        -- by apply sent_for_tick_other.
  - rewrite step_unload. split; [left; apply lookup_empty|done].
  - split; [right; eauto|done].
Qed.

Lemma idle_run o evs rid h :
  wf o → idle rid h o → fresh_prompts o evs → rid ∉ prompt_ids evs →
  empty_samples h evs →
  sent_for rid (run o evs).2 = [].
Proof.
  revert o. induction evs as [|ev evs IH]; intros o W I F Hp He; [done|].
  destruct (fresh_prompts_step o ev evs W F) as [Hnew F'].
  pose proof (wf_step o ev W Hnew) as W'.
  rewrite prompt_ids_cons in Hp.
  assert (Hp1 : rid ∉ prompt_ids [ev]) by (intros ?; apply Hp, elem_of_app; by left).
  assert (Hp2 : rid ∉ prompt_ids evs) by (intros ?; apply Hp, elem_of_app; by right).
  destruct (idle_step o ev rid h W I Hnew Hp1) as [I' Hs].
  { intros d n1 n2 ->. apply (He d n1 n2). left. }
  assert (He' : empty_samples h evs).
  { intros d n1 n2 Hin. apply (He d n1 n2). by right. }
  cbn [run]. destruct (step o ev) as [o1 out1]. cbn [fst snd] in *.
  specialize (IH o1 W' I' F' Hp2 He'). destruct (run o1 evs) as [o2 out2].
  cbn [snd] in *. by rewrite sent_for_app, Hs, IH.
Qed.

Lemma idle_install o rid : idle rid (fresh o) (install rid o).
Proof. right. cbn. rewrite !lookup_insert_eq. eauto. Qed.

End ObserverFacts.

(** * The claims about the Observer *)
Module ObserverClaims.
Import Observer Terms ObserverFacts.


(** C6.  A request is polled by a newly started interval.  If every tick
    of that interval samples an empty answer text then, whatever else
    happens (ticks with or without the stop button, other requests, a
    cancellation, the page unloading), the Observer sends no message that
    carries the identifier of the request: no chunk and no final event. *)
Theorem empty_answer_is_silent o rid evs :
  wf o → ACTIVE_REQUESTS o !! rid = None →
  fresh_prompts (install rid o) evs →
  empty_samples (fresh o) evs →
  sent_for rid (run (install rid o) evs).2 = [].
Proof.
  intros W Ha F He. apply (idle_run _ evs rid (fresh o)); try done.
  - by apply wf_install.
  - apply idle_install.
  - intros Hin. destruct F as [_ Hf]. specialize (Hf rid Hin).
    cbn in Hf. by rewrite lookup_insert_eq in Hf.
Qed.


(** C9.  The prompt handler never ends with an uncaught exception.  When
    [submitPrompt] throws, the request is discarded and exactly one message
    goes upstream: an error event ('web-model:error') whose [requestId] is
    the identifier of the request and whose [error] is the message of the
    Error thrown ('Unknown error' for any other value).  This is what
    happens when no input area shows up until a check made more than
    15000 ms after the start (message "Timed out waiting for ChatGPT input
    area"), and when the input area is there but no send button is found. *)
Theorem submission_failure_becomes_one_error o rid prompt start checks pg :
  let result := handler (Prompt rid prompt start checks pg) o in
  (∀ t, result.2 ≠ Throw t)
  ∧ (∀ o1 out1 t,
       submitPrompt rid prompt start checks pg o = (o1, out1, Throw t) →
       o1 = o
       ∧ result.1.1 = discard rid o
       ∧ (∃ message,
            sent result.1.2
            = [UpError {| requestId := rid; content := None; done := None;
                          error := Some message |}]
            ∧ (∀ m, t = ErrorObj m → message = m)
            ∧ (t = OtherValue → message = "Unknown error"))
       ∧ ACTIVE_REQUESTS result.1.1 !! rid = None)
  ∧ ((∀ d now, (d, now) ∈ checks →
        first_match (querySelector d) (fun _ => true) INPUT_SELECTORS = None) →
     (∃ d now, (d, now) ∈ checks ∧ 15000 < now - start) →
     result
     = (discard rid o,
        [IpcSend (UpError {| requestId := rid; content := None; done := None;
                             error := Some "Timed out waiting for ChatGPT input area" |})],
        Ret tt))
  ∧ (∀ ta,
       waitForSelector INPUT_SELECTORS 15000 start checks = Resolved ta →
       findSendButton pg ta = None →
       result.1.1 = discard rid o
       ∧ sent result.1.2
         = [UpError {| requestId := rid; content := None; done := None;
                       error := Some "Unable to locate ChatGPT send button. Please make sure you are signed in." |}]
       ∧ result.2 = Ret tt).
Proof.
  cbv zeta. rewrite run_onPrompt, run_submitPrompt.
  split; [|split; [|split]].
  - intros t. destruct (waitForSelector _ _ _ _) as [ta|t'|]; [|done|done].
    by destruct (findSendButton pg ta).
  - intros o1 out1 t.
    destruct (waitForSelector _ _ _ _) as [ta|t'|];
      [destruct (findSendButton pg ta)| |]; intros [= <- <- <-]; cbn [fst snd].
    + split; [done|]. split; [done|]. split; [|apply discard_gone].
      eexists. rewrite sent_app, sent_typing. split; [reflexivity|].
      split; [by intros m [= <-]|discriminate].
    + split; [done|]. split; [done|]. split; [|apply discard_gone].
      eexists. split; [reflexivity|].
      split; [by intros m ->|by intros ->].
  - intros Hnone Hlate. by rewrite (wait_times_out _ _ _ _ Hnone Hlate).
  - intros ta -> ->. cbn [fst snd]. split; [done|]. split; [|done].
    by rewrite sent_app, sent_typing.
Qed.

End ObserverClaims.

(** * Properties of the Facade *)
Module FacadeFacts.
Import Facade Terms.

Lemma facade_run_cons fa ev evs :
  run fa (ev :: evs)
  = ((run (step fa ev).1 evs).1, (step fa ev).2 ++ (run (step fa ev).1 evs).2).
Proof. cbn [run]. destruct (step fa ev) as [f1 out1]. cbn. by destruct (run f1 evs). Qed.

Lemma handle_no_listener p fa :
  listeners fa !! requestId p = None → handleEvent p fa = (fa, []).
Proof. intros H. unfold handleEvent. by rewrite H. Qed.

(** The shape of what [handleEvent] does when a listener is there. *)
Lemma handle_listener p fa l :
  listeners fa !! requestId p = Some l →
  handleEvent p fa =
    if truthy_opt (error p) then
      (set_listeners (delete (requestId p)) fa,
       match onError l with
       | Some f => [CallOnError (requestId p) f (default "" (error p))]
       | None => []
       end)
    else
      (if truthy_flag (done p) then set_listeners (delete (requestId p)) fa else fa,
       match content p, onUpdate l with
       | Some c, Some f => [CallOnUpdate (requestId p) f c (truthy_flag (done p))]
       | _, _ => []
       end).
Proof. intros H. unfold handleEvent. by rewrite H. Qed.

(** Every callback [handleEvent] invokes is taken from the record stored
    under the identifier of the event. *)
Lemma handle_calls_own p fa e :
  e ∈ (handleEvent p fa).2 →
  ∃ l, listeners fa !! requestId p = Some l
       ∧ ((∃ f m, e = CallOnError (requestId p) f m ∧ onError l = Some f)
          ∨ (∃ f c d, e = CallOnUpdate (requestId p) f c d ∧ onUpdate l = Some f)).
Proof.
  destruct (listeners fa !! requestId p) as [l|] eqn:Hl.
  - rewrite (handle_listener p fa l Hl). intros He. exists l. split; [done|].
    destruct (truthy_opt (error p)); cbn [snd] in He.
    + destruct (onError l) as [f|] eqn:Hf; [|by apply elem_of_nil in He].
      apply list_elem_of_singleton in He as ->. left. eauto.
    + destruct (content p) as [c|]; [|by apply elem_of_nil in He].
      destruct (onUpdate l) as [f|] eqn:Hf; [|by apply elem_of_nil in He].
      apply list_elem_of_singleton in He as ->. right. eauto.
  - rewrite handle_no_listener by done. intros He. by apply elem_of_nil in He.
Qed.

Lemma handle_other_listeners p fa q :
  q ≠ requestId p → listeners (handleEvent p fa).1 !! q = listeners fa !! q.
Proof.
  intros Hne. unfold handleEvent.
  destruct (listeners fa !! requestId p); [|done].
  destruct (truthy_opt (error p)); cbn; [by rewrite lookup_delete_ne|].
  destruct (truthy_flag (done p)); cbn; [by rewrite lookup_delete_ne|done].
Qed.

Lemma handle_terminal_retires p fa :
  truthy_flag (done p) || truthy_opt (error p) = true →
  listeners (handleEvent p fa).1 !! requestId p = None.
Proof.
  intros Ht. unfold handleEvent.
  destruct (listeners fa !! requestId p) eqn:Hl; [|done].
  destruct (truthy_opt (error p)); cbn; [apply lookup_delete_eq|].
  rewrite orb_false_r in Ht. rewrite Ht. cbn. apply lookup_delete_eq.
Qed.

Lemma filter_none {A} (f : A → bool) (l : list A) :
  (∀ x, x ∈ l → f x = false) → List.filter f l = [].
Proof.
  induction l as [|a l IH]; intros H; [done|]. cbn.
  rewrite (H a) by left. apply IH. intros x Hx. apply H. by right.
Qed.

(** The calls made for one request identifier. *)
Section per_request.

Context (rid : string).

Lemma calls_for_other p fa :
  requestId p ≠ rid → calls_for rid (handleEvent p fa).2 = [].
Proof.
  intros Hne. apply filter_none. intros e He.
  apply handle_calls_own in He as (l & _ & [(f & m & -> & _)|(f & c & d & -> & _)]);
    cbn; by apply bool_decide_eq_false.
Qed.

Lemma terminal_is_call e : terminal_call rid e = true → call_for rid e = true.
Proof.
  destruct e; cbn; [|done|done]. intros H. by apply andb_true_iff in H as [-> _].
Qed.

Lemma terminal_calls_of_none out : calls_for rid out = [] → terminal_calls rid out = [].
Proof.
  unfold calls_for, terminal_calls. induction out as [|e out IH]; [done|]. cbn.
  destruct (call_for rid e) eqn:Hc; [done|]. intros H.
  destruct (terminal_call rid e) eqn:Ht; [|by apply IH].
  apply terminal_is_call in Ht. congruence.
Qed.

(** One step: the terminal calls made plus the listener left are covered
    by the listener there was plus the registration made. *)
Lemma terminal_step fa ev :
  (length (terminal_calls rid (step fa ev).2) + listening rid (step fa ev).1
   ≤ listening rid fa + registrations rid [ev])%nat.
Proof.
  destruct ev as [r cb|r|p]; cbn [step fst snd].
  - unfold listening, registrations, listen; cbn.
    destruct (decide (r = rid)) as [->|Hne].
    + rewrite lookup_insert_eq, bool_decide_eq_true_2 by done. cbn.
      destruct (listeners fa !! rid); lia.
    + rewrite lookup_insert_ne, bool_decide_eq_false_2 by done. cbn. lia.
  - unfold cancel, listening, registrations. cbn.
    destruct (truthy r); cbn [fst snd]; [|cbn; lia].
    assert (Hc : terminal_calls rid (if api fa then [ApiCancel r] else []) = []).
    { by destruct (api fa). }
    rewrite Hc. cbn.
    destruct (decide (r = rid)) as [->|Hne].
    + rewrite lookup_delete_eq. lia.
    + rewrite lookup_delete_ne by done. lia.
  - unfold registrations. cbn [List.filter length]. rewrite Nat.add_0_r.
    destruct (decide (requestId p = rid)) as [Heq|Hne].
    2:{ rewrite terminal_calls_of_none by (by apply calls_for_other).
        unfold listening. rewrite handle_other_listeners by done. cbn. lia. }
    subst rid. unfold listening.
    destruct (listeners fa !! requestId p) as [l|] eqn:Hl.
    2:{ rewrite handle_no_listener by done. cbn. rewrite Hl. lia. }
    rewrite (handle_listener p fa l Hl).
    destruct (truthy_opt (error p)); cbn [fst snd].
    + cbn. rewrite lookup_delete_eq. destruct (onError l); cbn;
        [rewrite bool_decide_eq_true_2 by done; cbn|]; lia.
    + destruct (truthy_flag (done p)) eqn:Hd; cbn.
      * rewrite lookup_delete_eq.
        destruct (content p), (onUpdate l); cbn;
          try rewrite bool_decide_eq_true_2 by done; cbn; lia.
      * rewrite Hl.
        destruct (content p), (onUpdate l); cbn;
          try rewrite andb_false_r; cbn; lia.
Qed.

Lemma registrations_cons ev evs :
  registrations rid (ev :: evs) = (registrations rid [ev] + registrations rid evs)%nat.
Proof. unfold registrations. cbn. by destruct (match ev with Listen _ _ => _ | _ => _ end). Qed.

Lemma terminal_calls_app a b :
  terminal_calls rid (a ++ b) = terminal_calls rid a ++ terminal_calls rid b.
Proof. apply List.filter_app. Qed.

Lemma calls_for_app a b : calls_for rid (a ++ b) = calls_for rid a ++ calls_for rid b.
Proof. apply List.filter_app. Qed.

Lemma terminal_bound fa evs :
  (length (terminal_calls rid (run fa evs).2) + listening rid (run fa evs).1
   ≤ listening rid fa + registrations rid evs)%nat.
Proof.
  revert fa. induction evs as [|ev evs IH]; intros fa.
  - cbn. unfold registrations. cbn. lia.
  - rewrite facade_run_cons, registrations_cons. cbn [fst snd].
    rewrite terminal_calls_app, length_app.
    pose proof (terminal_step fa ev). specialize (IH (step fa ev).1). lia.
Qed.

(** Without a listener and without a new registration nothing is called. *)
Lemma facade_silent_step fa ev :
  listeners fa !! rid = None → registrations rid [ev] = 0%nat →
  calls_for rid (step fa ev).2 = [] ∧ listeners (step fa ev).1 !! rid = None.
Proof.
  intros Hl Hr. destruct ev as [r cb|r|p]; cbn [step fst snd].
  - split; [done|]. unfold registrations in Hr. cbn in Hr.
    destruct (decide (r = rid)) as [->|Hne].
    + by rewrite bool_decide_eq_true_2 in Hr.
    + cbn. by rewrite lookup_insert_ne.
  - unfold cancel. destruct (truthy r); cbn [fst snd]; [|done].
    split; [by destruct (api fa)|]. cbn. apply lookup_delete_None. by right.
  - destruct (decide (requestId p = rid)) as [<-|Hne].
    + by rewrite handle_no_listener.
    + split; [by apply calls_for_other|]. by rewrite handle_other_listeners.
Qed.

Lemma facade_silent_run fa evs :
  listeners fa !! rid = None → registrations rid evs = 0%nat →
  calls_for rid (run fa evs).2 = [].
Proof.
  revert fa. induction evs as [|ev evs IH]; intros fa Hl Hr; [done|].
  rewrite registrations_cons in Hr.
  destruct (facade_silent_step fa ev Hl) as [Hc Hl']; [lia|].
  rewrite facade_run_cons. cbn [snd]. rewrite calls_for_app, Hc, IH; [done|done|lia].
Qed.

End per_request.

End FacadeFacts.

(** * Properties of the Broker *)
Module BrokerFacts.
Import Broker.

Lemma broker_run_cons b ev evs :
  run b (ev :: evs)
  = ((run (step b ev).1 evs).1, (step b ev).2 ++ (run (step b ev).1 evs).2).
Proof. cbn [run]. destruct (step b ev) as [b1 out1]. cbn. by destruct (run b1 evs). Qed.

(** ** Routing of upstream events *)

Lemma forward_unknown fromId p b :
  pendingRequests b !! requestId p = None → forwardChunk fromId p b = (b, []).
Proof. intros H. unfold forwardChunk. by rewrite H. Qed.

Lemma forward_live fromId p b req :
  pendingRequests b !! requestId p = Some req →
  fromId (senderId req) = Some {| wc_destroyed := false |} →
  forwardChunk fromId p b =
    (if terminal p then set_pending (delete (requestId p)) b else b,
     [ToCaller (senderId req) p]).
Proof. intros H1 H2. unfold forwardChunk. by rewrite H1, H2. Qed.

(** Whatever is forwarded is the event itself, sent to the sender stored
    under the event's own identifier. *)
Lemma forward_sends fromId p b e :
  e ∈ (forwardChunk fromId p b).2 →
  ∃ req, pendingRequests b !! requestId p = Some req ∧ e = ToCaller (senderId req) p.
Proof.
  unfold forwardChunk. destruct (pendingRequests b !! requestId p) as [req|];
    [|intros H; by apply elem_of_nil in H].
  destruct (fromId (senderId req)) as [[[]]|]; cbn [snd]; intros H;
    try (by apply elem_of_nil in H).
  apply list_elem_of_singleton in H as ->. eauto.
Qed.

Lemma forward_other fromId p b q :
  q ≠ requestId p →
  pendingRequests (forwardChunk fromId p b).1 !! q = pendingRequests b !! q.
Proof.
  intros Hne. unfold forwardChunk.
  destruct (pendingRequests b !! requestId p) as [req|]; [|done].
  destruct (fromId (senderId req)) as [[[]]|]; cbn; try (by rewrite lookup_delete_ne).
  destruct (terminal p); cbn; [by rewrite lookup_delete_ne|done].
Qed.

Lemma forward_terminal_retires fromId p b :
  terminal p = true → pendingRequests (forwardChunk fromId p b).1 !! requestId p = None.
Proof.
  intros Ht. unfold forwardChunk.
  destruct (pendingRequests b !! requestId p) as [req|] eqn:Hp; [|done].
  destruct (fromId (senderId req)) as [[[]]|]; cbn; try apply lookup_delete_eq.
  rewrite Ht. cbn. apply lookup_delete_eq.
Qed.

Lemma as_error_terminal p : terminal (as_error p) = true.
Proof. reflexivity. Qed.

(** The payload the Broker routes for an upstream message. *)
Lemma upstream_routes fromId m b rid :
  upstream_id m = Some rid →
  ∃ p, requestId p = rid ∧ onUpstream fromId m b = forwardChunk fromId p b.
Proof.
  destruct m as [p|p|]; cbn; intros [= <-].
  - by exists p.
  - by exists (as_error p).
Qed.

(** ** Creation of the window *)

Lemma live_invoke_creates_nothing cid c b w :
  live_window b = Some w →
  windows_created (invoke cid c b).2 = 0%nat
  ∧ live_window (invoke cid c b).1 = Some w
  ∧ parked (invoke cid c b).1 = parked b.
Proof.
  intros Hw. unfold invoke, ensureWindow. rewrite Hw.
  destruct c as [|prompt provider sender uuid]; cbn; [done|].
  rewrite Hw. cbn. done.
Qed.

Lemma first_invoke_creates_one cid c b :
  live_window b = None → creatingWindowPromise b = None → nextWindow b ∉ destroyed b →
  windows_created (invoke cid c b).2 = 1%nat
  ∧ live_window (invoke cid c b).1 = Some (nextWindow b)
  ∧ creatingWindowPromise (invoke cid c b).1 = Some (nextWindow b)
  ∧ parked (invoke cid c b).1 = parked b ++ [mkParked cid c Creator (nextWindow b)].
Proof.
  intros Hw Hc Hn. unfold invoke, ensureWindow. rewrite Hw, Hc. cbn.
  unfold live_window. cbn. by rewrite decide_False.
Qed.

Lemma windows_created_app a b :
  windows_created (a ++ b) = (windows_created a + windows_created b)%nat.
Proof. unfold windows_created. by rewrite List.filter_app, length_app. Qed.

Lemma live_invocations_create_nothing calls b w :
  live_window b = Some w →
  windows_created (run b ((fun '(cid, c) => Invoke cid c) <$> calls)).2 = 0%nat.
Proof.
  revert b. induction calls as [|[cid c] calls IH]; intros b Hw; [done|].
  rewrite fmap_cons, broker_run_cons. cbn [snd step].
  destruct (live_invoke_creates_nothing cid c b w Hw) as (H1 & H2 & _).
  rewrite windows_created_app, H1. cbn [fst]. by rewrite (IH _ H2).
Qed.

(** However many calls of [initialize] and [sendMessage] arrive while there
    is no window, one window is constructed. *)
Lemma concurrent_calls_create_one_window cid c calls b :
  live_window b = None → creatingWindowPromise b = None → nextWindow b ∉ destroyed b →
  windows_created (run b ((fun '(cid, c) => Invoke cid c) <$> ((cid, c) :: calls))).2
  = 1%nat.
Proof.
  intros Hw Hc Hn. rewrite fmap_cons, broker_run_cons. cbn [snd step].
  destruct (first_invoke_creates_one cid c b Hw Hc Hn) as (H1 & H2 & _).
  rewrite windows_created_app, H1. cbn [fst].
  by rewrite (live_invocations_create_nothing calls _ _ H2).
Qed.

End BrokerFacts.

(** * Properties of the composition *)
Module SystemFacts.
Import System Terms.

Lemma deliver_all_nil fs : deliver_all [] fs = (fs, []).
Proof. reflexivity. Qed.

Lemma deliver_all_one e fs : deliver_all [e] fs = deliver e fs.
Proof. cbn. destruct (deliver e fs) as [fs1 out1]. by rewrite app_nil_r. Qed.

(** The Broker sends at most one message per upstream event. *)
Lemma forward_at_most_one fromId p b :
  (Broker.forwardChunk fromId p b).2 = []
  ∨ ∃ req, Broker.pendingRequests b !! requestId p = Some req
           ∧ (Broker.forwardChunk fromId p b).2 = [Broker.ToCaller (Broker.senderId req) p].
Proof.
  unfold Broker.forwardChunk.
  destruct (Broker.pendingRequests b !! requestId p) as [req|]; [|by left].
  destruct (fromId (Broker.senderId req)) as [[[]]|]; cbn; eauto.
Qed.

(** What [relay] does with a message that carries an identifier. *)
Lemma relay_routed fromId m w p :
  routed m = Some p →
  relay fromId m w =
    let '(b', out) := Broker.forwardChunk fromId p (broker w) in
    let '(fs', calls) := deliver_all out (facades w) in
    ({| observer := observer w; broker := b'; facades := fs' |}, calls).
Proof. destruct m; cbn; intros [= <-]; reflexivity. Qed.

Lemma routed_id m rid : upstream_id m = Some rid → ∃ p, routed m = Some p ∧ requestId p = rid.
Proof. destruct m as [p|p|]; cbn; intros [= <-]; eauto. Qed.

(** The calls a relayed message leads to are made in the caller context
    stored under the message's identifier, on the listener stored there
    under the same identifier. *)
Lemma relay_calls fromId m w rid sid e :
  upstream_id m = Some rid →
  (sid, e) ∈ (relay fromId m w).2 →
  ∃ req fa l,
    Broker.pendingRequests (broker w) !! rid = Some req
    ∧ sid = Broker.senderId req
    ∧ facades w !! sid = Some fa
    ∧ Facade.listeners fa !! rid = Some l
    ∧ call_of rid l e.
Proof.
  intros Hid. destruct (routed_id m rid Hid) as (p & Hr & <-).
  rewrite (relay_routed fromId m w p Hr).
  destruct (forward_at_most_one fromId p (broker w)) as [Hn|(req & Hp & Hs)];
    destruct (Broker.forwardChunk fromId p (broker w)) as [b' out]; cbn [snd] in *; subst out.
  - cbn. intros H. by apply elem_of_nil in H.
  - rewrite deliver_all_one. unfold deliver.
    destruct (facades w !! Broker.senderId req) as [fa|] eqn:Hfa;
      [|cbn; intros H; by apply elem_of_nil in H].
    destruct (Facade.handleEvent p fa) as [fa' calls] eqn:Hh. cbn [snd].
    intros Hin. apply list_elem_of_fmap in Hin as (e' & [= -> ->] & Hin).
    assert (Hin' : e' ∈ (Facade.handleEvent p fa).2) by (by rewrite Hh).
    apply FacadeFacts.handle_calls_own in Hin' as (l & Hl & Hc).
    exists req, fa, l. done.
Qed.

(** A relayed message leaves the records of every other identifier alone. *)
Lemma relay_other fromId m w rid q :
  upstream_id m = Some rid → q ≠ rid →
  Broker.pendingRequests (broker (relay fromId m w).1) !! q
    = Broker.pendingRequests (broker w) !! q
  ∧ ∀ sid fa, facades w !! sid = Some fa →
      ∃ fa', facades (relay fromId m w).1 !! sid = Some fa'
             ∧ Facade.listeners fa' !! q = Facade.listeners fa !! q.
Proof.
  intros Hid Hne. destruct (routed_id m rid Hid) as (p & Hr & <-).
  rewrite (relay_routed fromId m w p Hr).
  pose proof (BrokerFacts.forward_other fromId p (broker w) q Hne) as Hb.
  destruct (forward_at_most_one fromId p (broker w)) as [Hn|(req & Hp & Hs)];
    destruct (Broker.forwardChunk fromId p (broker w)) as [b' out];
    cbn [fst snd] in *; subst out.
  - cbn. split; [done|]. eauto.
  - rewrite deliver_all_one. unfold deliver.
    destruct (facades w !! Broker.senderId req) as [fa0|] eqn:Hfa; cbn; [|eauto].
    destruct (Facade.handleEvent p fa0) as [fa' calls] eqn:Hh. cbn.
    split; [done|]. intros sid fa Hsid.
    destruct (decide (sid = Broker.senderId req)) as [->|Hs].
    + rewrite lookup_insert_eq. exists fa'. split; [done|].
      assert (fa = fa0) as -> by congruence.
      replace fa' with (Facade.handleEvent p fa0).1 by (by rewrite Hh).
      by apply FacadeFacts.handle_other_listeners.
    + rewrite lookup_insert_ne by done. eauto.
Qed.

End SystemFacts.

(** * The claims about delivery and lifecycle *)
Module LifecycleClaims.
Import Terms.

(** ** Chunks of one request *)

Lemma chunk_contents_app rid a b :
  chunk_contents rid (a ++ b) = chunk_contents rid a ++ chunk_contents rid b.
Proof. apply omap_app. Qed.

Lemma chunk_contents_tick rid st d :
  chunk_contents rid (Observer.sent (tick_output rid st d))
  = if emits st d then [Observer.getLatestAssistantContent d] else [].
Proof.
  unfold tick_output. destruct (emits st d); [|done].
  cbn. by rewrite bool_decide_eq_true_2.
Qed.

Lemma chunk_contents_final rid c : chunk_contents rid [Observer.chunk rid c true] = [].
Proof. cbn. by rewrite andb_false_r. Qed.

Lemma poll_contents rid st ticks :
  no_repeat (Observer.lastContent st :: chunk_contents rid (poll rid st ticks))
  ∧ Forall (fun c => truthy c = true) (chunk_contents rid (poll rid st ticks)).
Proof.
  revert st. induction ticks as [|[[d n1] n2] ticks IH]; intros st; [by cbn|].
  cbn [poll]. rewrite chunk_contents_app, chunk_contents_tick.
  assert (Hrest :
    no_repeat (Observer.lastContent (sampled st d n1)
               :: chunk_contents rid
                    (if quiet d (sampled st d n1) n2
                     then [Observer.chunk rid (Observer.lastContent (sampled st d n1)) true]
                     else poll rid (sampled st d n1) ticks))
    ∧ Forall (fun c => truthy c = true)
        (chunk_contents rid
           (if quiet d (sampled st d n1) n2
            then [Observer.chunk rid (Observer.lastContent (sampled st d n1)) true]
            else poll rid (sampled st d n1) ticks))).
  { destruct (quiet d (sampled st d n1) n2); [|apply IH].
    rewrite chunk_contents_final. by cbn. }
  destruct Hrest as [Hnr Hne]. unfold sampled in *.
  destruct (emits st d) eqn:He; [|done].
  cbn [Observer.lastContent app] in *. unfold emits in He.
  apply andb_true_iff in He as [Hc Hd]. apply negb_true_iff in Hd.
  split; [|by constructor].
  cbn [no_repeat]. split; [|done]. intros Heq. rewrite <- Heq in Hd.
  by rewrite String.eqb_refl in Hd.
Qed.

(** C5, as the code has it.  Over any sequence of ticks of one request,
    every [done: false] chunk carries a non-empty text that differs from
    the content emitted just before it (initially [lastContent]), so an
    unchanged sample is never sent again.  The Facade does no filtering of
    its own: a chunk event that reaches a listener with an [onUpdate]
    callback leads to exactly one call of it, with the content and the done
    flag of the event. *)
Theorem unchanged_sample_is_not_resent o h rid st ticks :
  wf o → Observer.timers o !! h = Some rid → Observer.heap o !! h = Some st →
  let ms := Observer.sent (Observer.run o (tick_of h <$> ticks)).2 in
  no_repeat (Observer.lastContent st :: chunk_contents rid ms)
  ∧ Forall (fun c => truthy c = true) (chunk_contents rid ms)
  ∧ ∀ fa l f c d,
      Facade.listeners fa !! rid = Some l → Facade.onUpdate l = Some f →
      (Facade.handleEvent
         {| requestId := rid; content := Some c; done := Some d; error := None |} fa).2
      = [Facade.CallOnUpdate rid f c d].
Proof.
  intros W Ht Hh. cbv zeta. rewrite (ObserverFacts.run_ticks o h rid st ticks W Ht Hh).
  destruct (poll_contents rid st ticks) as [H1 H2]. split; [done|]. split; [done|].
  intros fa l f c d Hl Hf.
  rewrite (FacadeFacts.handle_listener _ fa l) by done. cbn. by rewrite Hf.
Qed.

(** C3.  A listener record that is registered at most once receives at
    most one terminal call ([onError], or [onUpdate] with done).  Once the
    Facade has processed a terminal event for an identifier, or [cancel]
    has removed the listener, no later event leads to a call for that
    identifier unless it is registered anew.  The Broker forwards nothing
    for an identifier without pending record, and retires the record with
    a terminal event; the Facade does nothing for an identifier without
    listener. *)
Theorem one_terminal_call_then_silence rid :
  (∀ fa evs,
     Facade.listeners fa !! rid = None → (Facade.registrations rid evs ≤ 1)%nat →
     (length (terminal_calls rid (Facade.run fa evs).2) ≤ 1)%nat)
  ∧ (∀ fa p evs,
       requestId p = rid → Broker.terminal p = true →
       Facade.registrations rid evs = 0%nat →
       calls_for rid (Facade.run (Facade.handleEvent p fa).1 evs).2 = [])
  ∧ (∀ fa evs,
       rid ≠ "" → Facade.registrations rid evs = 0%nat →
       calls_for rid (Facade.run (Facade.cancel rid fa).1 evs).2 = [])
  ∧ (∀ fromId b p,
       requestId p = rid →
       (Broker.pendingRequests b !! rid = None → Broker.forwardChunk fromId p b = (b, []))
       ∧ (Broker.terminal p = true →
          Broker.pendingRequests (Broker.forwardChunk fromId p b).1 !! rid = None))
  ∧ (∀ fa p,
       requestId p = rid → Facade.listeners fa !! rid = None →
       Facade.handleEvent p fa = (fa, [])).
Proof.
  split; [|split; [|split; [|split]]].
  - intros fa evs Hl Hr. pose proof (FacadeFacts.terminal_bound rid fa evs) as Hb.
    unfold listening in Hb at 2. rewrite Hl in Hb. lia.
  - intros fa p evs <- Ht Hr. apply FacadeFacts.facade_silent_run; [|done].
    by apply FacadeFacts.handle_terminal_retires.
  - intros fa evs Hne Hr. apply FacadeFacts.facade_silent_run; [|done].
    unfold Facade.cancel. destruct rid; [done|]. cbn. apply lookup_delete_eq.
  - intros fromId b p <-. split.
    + apply BrokerFacts.forward_unknown.
    + apply BrokerFacts.forward_terminal_retires.
  - intros fa p <-. apply FacadeFacts.handle_no_listener.
Qed.

(** C4.  An upstream message tagged [A] is forwarded by the Broker only to
    the sender stored under [A], as an event tagged [A]; the callbacks it
    leads to are those of the listener stored under [A] in that sender's
    Facade.  No call is made for another identifier [B], and the records
    kept under [B] by the Broker and by every Facade are left as they
    are. *)
Theorem no_cross_delivery fromId m w A B :
  upstream_id m = Some A → B ≠ A →
  (∀ e, e ∈ (Broker.onUpstream fromId m (System.broker w)).2 →
     ∃ req p, Broker.pendingRequests (System.broker w) !! A = Some req
              ∧ requestId p = A
              ∧ e = Broker.ToCaller (Broker.senderId req) p)
  ∧ (∀ sid e, (sid, e) ∈ (System.relay fromId m w).2 →
       ∃ req fa l,
         Broker.pendingRequests (System.broker w) !! A = Some req
         ∧ sid = Broker.senderId req
         ∧ System.facades w !! sid = Some fa
         ∧ Facade.listeners fa !! A = Some l
         ∧ call_of A l e)
  ∧ (∀ sid e, (sid, e) ∈ (System.relay fromId m w).2 → Facade.call_for B e = false)
  ∧ Broker.pendingRequests (System.broker (System.relay fromId m w).1) !! B
    = Broker.pendingRequests (System.broker w) !! B
  ∧ (∀ sid fa, System.facades w !! sid = Some fa →
       ∃ fa', System.facades (System.relay fromId m w).1 !! sid = Some fa'
              ∧ Facade.listeners fa' !! B = Facade.listeners fa !! B).
Proof.
  intros Hid Hne.
  pose proof (SystemFacts.relay_other fromId m w A B Hid Hne) as [Hb Hf].
  split; [|split; [|split; [|split]]]; try done.
  - intros e He. destruct (BrokerFacts.upstream_routes fromId m (System.broker w) A Hid)
      as (p & Hp & Heq).
    rewrite Heq in He. apply BrokerFacts.forward_sends in He as (req & Hreq & ->).
    exists req, p. by rewrite <- Hp.
  - intros sid e. by apply SystemFacts.relay_calls.
  - intros sid e He.
    apply (SystemFacts.relay_calls fromId m w A) in He as (_ & _ & l & _ & _ & _ & _ & Hc);
      [|done].
    destruct Hc as [(f & msg & -> & _)|(f & c & d & -> & _)]; cbn;
      apply bool_decide_eq_false; congruence.
Qed.

(** C8.  [cancel] of the Facade and of the Broker is one synchronous
    function without failure path: it removes the record of the identifier
    at once (any non-empty identifier; nothing changes when there is no
    record), leaves the other records alone, parks on nothing, and calls
    no callback and forwards nothing to a caller: the only effect is the
    cancel message passed downstream.  The Observer's cancel handler ends
    normally; it clicks the stop button when there is one, sends nothing
    upstream, and discards the entry and the interval of the request. *)
Theorem cancel_is_immediate_and_silent rid :
  (∀ fa,
     (rid ≠ "" → Facade.listeners (Facade.cancel rid fa).1 !! rid = None)
     ∧ (Facade.listeners fa !! rid = None → (Facade.cancel rid fa).1 = fa)
     ∧ (∀ q, q ≠ rid →
          Facade.listeners (Facade.cancel rid fa).1 !! q = Facade.listeners fa !! q)
     ∧ (∀ e, e ∈ (Facade.cancel rid fa).2 → e = Facade.ApiCancel rid))
  ∧ (∀ b,
       (rid ≠ "" → Broker.pendingRequests (Broker.cancel rid b).1 !! rid = None)
       ∧ (Broker.pendingRequests b !! rid = None → (Broker.cancel rid b).1 = b)
       ∧ (∀ q, q ≠ rid →
            Broker.pendingRequests (Broker.cancel rid b).1 !! q
            = Broker.pendingRequests b !! q)
       ∧ Broker.parked (Broker.cancel rid b).1 = Broker.parked b
       ∧ (∀ e, e ∈ (Broker.cancel rid b).2 →
            ∃ w, Broker.window b = Some w
                 ∧ e = Broker.ToObserver w (Broker.DownCancel rid)))
  ∧ (∀ o pg,
       let r := Observer.handler (Observer.Cancel rid pg) o in
       r.2 = Observer.Ret tt
       ∧ r.1.2 = match Observer.findStopButton pg with
                 | Some b => [Observer.DomClick b]
                 | None => []
                 end
       ∧ Observer.sent r.1.2 = []
       ∧ Observer.ACTIVE_REQUESTS r.1.1 !! rid = None
       ∧ (wf o → wf r.1.1 ∧ ∀ h, Observer.timers r.1.1 !! h ≠ Some rid)).
Proof.
  split; [|split].
  - intros fa. unfold Facade.cancel. destruct (truthy rid) eqn:Hr; cbn [fst snd].
    + split; [intros _; cbn; apply lookup_delete_eq|]. split; [|split].
      * intros Hl. destruct fa as [ls a]. unfold Facade.set_listeners; cbn in *.
        by rewrite delete_id.
      * intros q Hq. cbn. by rewrite lookup_delete_ne.
      * intros e He. destruct (Facade.api fa); [|by apply elem_of_nil in He].
        by apply list_elem_of_singleton in He.
    + destruct rid; [|done]. split; [done|]. split; [done|]. split; [done|].
      intros e He. by apply elem_of_nil in He.
  - intros b. unfold Broker.cancel. destruct (truthy rid) eqn:Hr; cbn [fst snd].
    + split; [intros _; cbn; apply lookup_delete_eq|]. split; [|split; [|split]].
      * intros Hl. destruct b. unfold Broker.set_pending; cbn in *.
        by rewrite delete_id.
      * intros q Hq. cbn. by rewrite lookup_delete_ne.
      * done.
      * intros e He. destruct (Broker.window b) as [w|]; [|by apply elem_of_nil in He].
        apply list_elem_of_singleton in He. eauto.
    + destruct rid; [|done]. split; [done|]. split; [done|]. split; [done|].
      split; [done|]. intros e He. by apply elem_of_nil in He.
  - intros o pg. cbv zeta.
    assert (Hh : Observer.handler (Observer.Cancel rid pg) o
                 = (Observer.discard rid o,
                    match Observer.findStopButton pg with
                    | Some b => [Observer.DomClick b]
                    | None => []
                    end, Observer.Ret tt)).
    { ObserverFacts.run_monad. by destruct (Observer.findStopButton pg). }
    rewrite Hh. cbn [fst snd]. split; [done|]. split; [done|].
    split; [by destruct (Observer.findStopButton pg)|].
    split; [apply ObserverFacts.discard_gone|].
    intros W. pose proof (ObserverFacts.wf_discard rid o W) as W'. split; [done|].
    apply ObserverFacts.no_timer_of_absent; [done|apply ObserverFacts.discard_gone].
Qed.

(** C10.  An error event sent by the Observer carries a non-empty message.
    For a request with a pending record whose caller is alive, the Broker
    forwards it with [done] set to true and that message, and drops the
    pending record; the caller's Facade, if it holds a listener for the
    request, calls its [onError] with the message and retires the listener.
    An error event without message is forwarded with the message
    "Unknown error". *)
Theorem observer_errors_are_terminal o ev p w fromId req fa l :
  UpError p ∈ Observer.sent (Observer.step o ev).2 →
  Broker.pendingRequests (System.broker w) !! requestId p = Some req →
  fromId (Broker.senderId req) = Some {| Broker.wc_destroyed := false |} →
  System.facades w !! Broker.senderId req = Some fa →
  Facade.listeners fa !! requestId p = Some l →
  (∃ msg,
     error p = Some msg ∧ truthy msg = true
     ∧ error (Broker.as_error p) = Some msg
     ∧ done (Broker.as_error p) = Some true
     ∧ Broker.onUpstream fromId (UpError p) (System.broker w)
       = (Broker.set_pending (delete (requestId p)) (System.broker w),
          [Broker.ToCaller (Broker.senderId req) (Broker.as_error p)])
     ∧ (System.relay fromId (UpError p) w).2
       = match Facade.onError l with
         | Some f => [(Broker.senderId req, Facade.CallOnError (requestId p) f msg)]
         | None => []
         end
     ∧ Broker.pendingRequests (System.broker (System.relay fromId (UpError p) w).1)
         !! requestId p = None
     ∧ ∃ fa', System.facades (System.relay fromId (UpError p) w).1
                !! Broker.senderId req = Some fa'
              ∧ Facade.listeners fa' !! requestId p = None)
  ∧ (∀ q, error q = None →
       error (Broker.as_error q) = Some "Unknown error"
       ∧ done (Broker.as_error q) = Some true
       ∧ Broker.terminal (Broker.as_error q) = true).
Proof.
  intros Hin Hp Hs Hfa Hl.
  split; [|intros q Hq; unfold Broker.as_error; cbn; by rewrite Hq].
  apply ObserverFacts.observer_error_events in Hin as (rid & t & Ht & Hev).
  injection Hev as ->. cbn [requestId error] in *.
  exists (Observer.error_message t).
  assert (Hm : truthy (Observer.error_message t) = true) by (by destruct Ht as [->| ->]).
  split; [done|]. split; [done|]. split; [done|]. split; [done|].
  set (p := {| requestId := rid; content := None; done := None;
               error := Some (Observer.error_message t) |}) in *.
  assert (Hfw : Broker.forwardChunk fromId (Broker.as_error p) (System.broker w)
                = (Broker.set_pending (delete rid) (System.broker w),
                   [Broker.ToCaller (Broker.senderId req) (Broker.as_error p)])).
  { by rewrite (BrokerFacts.forward_live fromId (Broker.as_error p) _ req). }
  split; [done|].
  unfold System.relay. cbn [Broker.onUpstream]. rewrite Hfw.
  rewrite SystemFacts.deliver_all_one. unfold System.deliver. rewrite Hfa.
  rewrite (FacadeFacts.handle_listener (Broker.as_error p) fa l) by done.
  subst p. cbn [Broker.as_error error truthy_opt requestId default id]. rewrite Hm.
  cbn [fst snd System.broker System.facades].
  split; [by destruct (Facade.onError l)|]. split; [cbn; apply lookup_delete_eq|].
  eexists. rewrite lookup_insert_eq. split; [done|]. cbn. apply lookup_delete_eq.
Qed.

(** C7, at the input where the code departs from it.  Two calls of
    [initialize] arrive on a service without window, the second before the
    page load of the first has settled.  One window is constructed, and the
    first call is parked on the stored creation promise.  The second call
    finds the window already assigned and resolves at once, with readiness
    false, while that promise is still pending: it does not await it. *)
Theorem second_initialize_does_not_await_creation :
  let r := Broker.run Broker.init
             [Broker.Invoke 1 Broker.CInitialize; Broker.Invoke 2 Broker.CInitialize] in
  r.2 = [Broker.NewBrowserWindow 1; Broker.LoadURL 1 Broker.CHATGPT_URL;
         Broker.Resolve 2 (Broker.VBool false)]
  ∧ Broker.creatingWindowPromise r.1 = Some 1%nat
  ∧ Broker.parked r.1 = [Broker.mkParked 1 Broker.CInitialize Broker.Creator 1]
  ∧ Broker.windows_created r.2 = 1%nat.
Proof. vm_compute. done. Qed.

End LifecycleClaims.

(** * The theorems at concrete inputs *)
Module Instances.
Import Terms.
Import Observer.

(** The Observer after "r1" was started and its first tick read "Hi". *)
Lemma wf_polling : wf (install "r1" init).
Proof. apply ObserverFacts.wf_install; [apply ObserverFacts.wf_init | reflexivity]. Qed.


Lemma no_prompts_are_fresh o evs : prompt_ids evs = [] → fresh_prompts o evs.
Proof.
  intros H. unfold fresh_prompts. rewrite H. split; [constructor|].
  intros rid Hr. by apply elem_of_nil in Hr.
Qed.




Lemma empty_answer_is_silent_witness :
  let evs := [Tick 1 (page "" true) 400 400; Tick 1 (page "" false) 800 800;
              Tick 1 (page "" false) 60000 60000] in
  wf init ∧ ACTIVE_REQUESTS init !! "r1" = None
  ∧ empty_samples 1 evs
  ∧ sent_for "r1" (run (install "r1" init) evs).2 = [].
Proof.
  cbv zeta.
  assert (He : empty_samples 1
                 [Tick 1 (page "" true) 400 400; Tick 1 (page "" false) 800 800;
                  Tick 1 (page "" false) 60000 60000]).
  { intros d n1 n2 H.
    repeat (apply elem_of_cons in H as [H|H]; [by injection H as -> -> ->|]).
    by apply elem_of_nil in H. }
  split; [apply ObserverFacts.wf_init|]. split; [reflexivity|]. split; [exact He|].
  apply (ObserverClaims.empty_answer_is_silent init "r1");
    [apply ObserverFacts.wf_init | reflexivity | by apply no_prompts_are_fresh | exact He].
Defined.

Lemma submission_failure_becomes_one_error_witness :
  let checks := [(blank_page, 0); (blank_page, 200); (blank_page, 15200)] in
  (∃ d now, (d, now) ∈ checks ∧ 15000 < now - 0)
  ∧ handler (Prompt "r1" "Hello" 0 checks blank_page) init
    = (discard "r1" init,
       [IpcSend (UpError {| requestId := "r1"; content := None; done := None;
                            error := Some "Timed out waiting for ChatGPT input area" |})],
       Ret tt).
Proof.
  cbv zeta.
  assert (Hlate : ∃ d now, (d, now) ∈ [(blank_page, 0); (blank_page, 200);
                                        (blank_page, 15200)] ∧ 15000 < now - 0).
  { exists blank_page, 15200. split; [|lia]. right. right. left. }
  split; [exact Hlate|].
  pose proof (ObserverClaims.submission_failure_becomes_one_error init "r1" "Hello" 0
                [(blank_page, 0); (blank_page, 200); (blank_page, 15200)] blank_page)
    as H.
  cbv zeta in H. destruct H as (_ & _ & H & _). apply H; [|exact Hlate].
  intros d now Hin.
  repeat (apply elem_of_cons in Hin as [Hin|Hin]; [by injection Hin as -> ->|]).
  by apply elem_of_nil in Hin.
Defined.

(** C5 as stated fails: the answer text reads "A", "B", "A" over three
    ticks of one request, and [onUpdate] is invoked twice with "A". *)
Lemma same_content_delivered_twice :
  let calls := (System.observe_all all_alive
                  [Tick 1 (page "A" true) 400 400; Tick 1 (page "B" true) 800 800;
                   Tick 1 (page "A" true) 1200 1200] one_request).2 in
  calls = [(5%nat, Facade.CallOnUpdate "r1" 10 "A" false);
           (5%nat, Facade.CallOnUpdate "r1" 10 "B" false);
           (5%nat, Facade.CallOnUpdate "r1" 10 "A" false)]
  ∧ updates_with "A" calls = 2%nat
  ∧ ¬ (updates_with "A" calls ≤ 1)%nat.
Proof.
  cbv zeta. split; [vm_compute; reflexivity|].
  split; [vm_compute; reflexivity|]. vm_compute. lia.
Qed.

Lemma unchanged_sample_is_not_resent_witness :
  let ticks := [(page "A" true, 400, 400); (page "A" true, 800, 800);
                (page "B" true, 1200, 1200)] in
  wf (install "r1" init)
  ∧ no_repeat ("" :: chunk_contents "r1"
                       (sent (run (install "r1" init) (tick_of 1 <$> ticks)).2)).
Proof.
  cbv zeta. split; [apply wf_polling|].
  pose proof (LifecycleClaims.unchanged_sample_is_not_resent (install "r1" init) 1%nat "r1"
                (initial_state 1)
                [(page "A" true, 400, 400); (page "A" true, 800, 800);
                 (page "B" true, 1200, 1200)]
                wf_polling eq_refl eq_refl) as H.
  cbv zeta in H. destruct H as (H & _). exact H.
Defined.

Lemma one_terminal_call_then_silence_witness :
  let cb := {| Facade.onUpdate := Some 10%nat; Facade.onError := Some 11%nat |} in
  let final := {| requestId := "r1"; content := Some "Hi"; done := Some true;
                  error := None |} in
  let failure := {| requestId := "r1"; content := None; done := Some true;
                    error := Some "late" |} in
  let evs := [Facade.Listen "r1" cb; Facade.Incoming final; Facade.Incoming final;
              Facade.Incoming failure] in
  Facade.listeners Facade.init !! "r1" = None
  ∧ (Facade.registrations "r1" evs ≤ 1)%nat
  ∧ (length (terminal_calls "r1" (Facade.run Facade.init evs).2) ≤ 1)%nat.
Proof.
  cbv zeta. split; [reflexivity|]. split; [vm_compute; lia|].
  pose proof (LifecycleClaims.one_terminal_call_then_silence "r1") as (H & _).
  apply H; [reflexivity | vm_compute; lia].
Defined.

Lemma no_cross_delivery_witness :
  let m := chunk "r1" "Hi" false in
  upstream_id m = Some "r1" ∧ "r2" ≠ "r1"
  ∧ ∀ sid e, (sid, e) ∈ (System.relay all_alive m one_request).2 →
      Facade.call_for "r2" e = false.
Proof.
  cbv zeta. split; [reflexivity|]. split; [discriminate|].
  pose proof (LifecycleClaims.no_cross_delivery all_alive (chunk "r1" "Hi" false)
                one_request "r1" "r2" eq_refl) as H.
  destruct H as (_ & _ & H & _); [discriminate|]. exact H.
Defined.

Lemma cancel_is_immediate_and_silent_witness :
  let fa := Facade.listen "r1" {| Facade.onUpdate := Some 10%nat;
                                  Facade.onError := Some 11%nat |} Facade.init in
  "r1" ≠ ""
  ∧ Facade.listeners (Facade.cancel "r1" fa).1 !! "r1" = None
  ∧ Broker.pendingRequests (Broker.cancel "r1" (System.broker one_request)).1 !! "r1"
    = None.
Proof.
  cbv zeta. split; [discriminate|].
  pose proof (LifecycleClaims.cancel_is_immediate_and_silent "r1") as (Hf & Hb & _).
  split.
  - destruct (Hf (Facade.listen "r1" {| Facade.onUpdate := Some 10%nat;
                                        Facade.onError := Some 11%nat |} Facade.init))
      as (H & _).
    apply H. discriminate.
  - destruct (Hb (System.broker one_request)) as (H & _). apply H. discriminate.
Defined.

Lemma observer_errors_are_terminal_witness :
  let ev := Prompt "r1" "Hello" 0 [(blank_page, 0); (blank_page, 15200)] blank_page in
  let p := {| requestId := "r1"; content := None; done := None;
              error := Some "Timed out waiting for ChatGPT input area" |} in
  UpError p ∈ sent (step init ev).2
  ∧ (System.relay all_alive (UpError p) one_request).2
    = [(5%nat, Facade.CallOnError "r1" 11 "Timed out waiting for ChatGPT input area")].
Proof.
  cbv zeta.
  assert (Hin : UpError {| requestId := "r1"; content := None; done := None;
                           error := Some "Timed out waiting for ChatGPT input area" |}
                ∈ sent (step init (Prompt "r1" "Hello" 0
                                     [(blank_page, 0); (blank_page, 15200)]
                                     blank_page)).2).
  { left. }
  split; [exact Hin|].
  pose proof (LifecycleClaims.observer_errors_are_terminal init _ _ one_request all_alive
                {| Broker.senderId := 5 |}
                (Facade.listen "r1" {| Facade.onUpdate := Some 10%nat;
                                       Facade.onError := Some 11%nat |} Facade.init)
                {| Facade.onUpdate := Some 10%nat; Facade.onError := Some 11%nat |}
                Hin eq_refl eq_refl eq_refl eq_refl) as H.
  destruct H as ((msg & Hm & _ & _ & _ & _ & Hcalls & _) & _).
  injection Hm as <-. exact Hcalls.
Defined.

End Instances.

(** * Further properties of the Observer *)
Module ObserverExtras.
Import Observer Terms MoreTerms ObserverFacts.

(** ** Trimming *)

Lemma append_cons c a b : String.append (String c a) b = String c (String.append a b).
Proof. reflexivity. Qed.

Lemma strip_spec w s r : strip w s = Some r ↔ s = w +:+ r.
Proof.
  revert s. induction w as [|a w IH]; intros s; cbn.
  - split; [by intros [= ->]|by intros ->].
  - destruct s as [|b s]; [split; discriminate|].
    destruct (Ascii.eqb a b) eqn:Hab.
    + apply Ascii.eqb_eq in Hab as ->. rewrite IH. split; [by intros ->|by intros [= ->]].
    + apply Ascii.eqb_neq in Hab. split; [discriminate|]. intros [= H _]. by destruct Hab.
Qed.

Lemma after_first_some ws s r :
  after_first ws s = Some r → ∃ w, w ∈ ws ∧ s = w +:+ r.
Proof.
  induction ws as [|w ws IH]; [done|]. cbn [after_first].
  destruct (strip w s) as [r'|] eqn:Hs.
  - intros [= ->]. exists w. split; [left|]. by apply strip_spec.
  - intros H. destruct (IH H) as (w' & Hw & ->). exists w'. split; [by right|done].
Qed.

Lemma after_first_none ws s w r :
  after_first ws s = None → w ∈ ws → s ≠ w +:+ r.
Proof.
  induction ws as [|w' ws IH]; intros Hn Hw; [by apply elem_of_nil in Hw|].
  cbn [after_first] in Hn. destruct (strip w' s) as [r'|] eqn:Hs; [done|].
  apply elem_of_cons in Hw as [->|Hw]; [|by apply IH].
  intros H. apply strip_spec in H. congruence.
Qed.

Lemma after_first_is_none ws s :
  (∀ w r, w ∈ ws → s ≠ w +:+ r) → after_first ws s = None.
Proof.
  intros H. destruct (after_first ws s) as [r|] eqn:E; [|done].
  destruct (after_first_some ws s r E) as (w & Hw & Hs). by destruct (H w r Hw).
Qed.

Lemma white_space_length w : w ∈ WHITE_SPACE → (0 < String.length w)%nat.
Proof.
  intros H. apply list_elem_of_In in H. cbn in H.
  repeat (destruct H as [<-|H]; [cbn; lia|]). done.
Qed.

Lemma length_append a b :
  String.length (String.append a b) = (String.length a + String.length b)%nat.
Proof. induction a as [|c a IH]; [done|]. rewrite append_cons. simpl. by f_equal. Qed.


Lemma trim_start_from_clean n s w r :
  (String.length s ≤ n)%nat → w ∈ WHITE_SPACE → trim_start_from n s ≠ w +:+ r.
Proof.
  revert s. induction n as [|n IH]; intros s Hn Hw.
  - destruct s; [|cbn in Hn; lia]. cbn. intros H.
    pose proof (white_space_length w Hw) as Hl. destruct w; [cbn in Hl; lia|done].
  - cbn [trim_start_from]. destruct (after_first WHITE_SPACE s) as [r'|] eqn:E.
    + destruct (after_first_some _ _ _ E) as (w' & Hw' & ->).
      apply IH; [|done]. rewrite length_append in Hn.
      pose proof (white_space_length w' Hw'). lia.
    + by apply (after_first_none WHITE_SPACE).
Qed.

Lemma trim_start_clean s w r : w ∈ WHITE_SPACE → trim_start s ≠ w +:+ r.
Proof. by apply trim_start_from_clean. Qed.

Lemma trim_start_from_fixed n s :
  (∀ w r, w ∈ WHITE_SPACE → s ≠ w +:+ r) → trim_start_from n s = s.
Proof.
  intros H. destruct n as [|n]; [done|]. cbn [trim_start_from].
  by rewrite after_first_is_none.
Qed.


Lemma in_white_space s : existsb (String.eqb s) WHITE_SPACE = true ↔ s ∈ WHITE_SPACE.
Proof.
  rewrite existsb_exists. split.
  - intros (w & Hw & He). apply String.eqb_eq in He as ->. by apply list_elem_of_In.
  - intros H. exists s. split; [by apply list_elem_of_In|apply String.eqb_refl].
Qed.

Lemma trim_end_clean s w r : w ∈ WHITE_SPACE → trim_end s ≠ r +:+ w.
Proof.
  intros Hw. revert r. induction s as [|c s IH]; intros r.
  - cbn. pose proof (white_space_length w Hw) as Hl.
    destruct r; cbn; [|done]. destruct w; [cbn in Hl; lia|done].
  - cbn [trim_end]. cbv zeta.
    destruct (existsb _ WHITE_SPACE) eqn:E.
    + pose proof (white_space_length w Hw) as Hl.
      destruct r; cbn; [|done]. destruct w; [cbn in Hl; lia|done].
    + intros H. destruct r as [|c' r].
      * change (String.append "" w) with w in H. rewrite H in E.
        apply in_white_space in Hw. congruence.
      * cbn in H. injection H as -> H. by destruct (IH r).
Qed.

Lemma trim_end_prefix s : ∃ x, s = String.append (trim_end s) x.
Proof.
  induction s as [|c s [x IH]]; [by exists ""|]. cbn [trim_end]. cbv zeta.
  destruct (existsb _ WHITE_SPACE).
  - by exists (String c s).
  - exists x. rewrite append_cons. by f_equal.
Qed.

Lemma trim_end_fixed s :
  (∀ w r, w ∈ WHITE_SPACE → s ≠ r +:+ w) → trim_end s = s.
Proof.
  induction s as [|c s IH]; [done|]. intros H. cbn [trim_end]. cbv zeta.
  rewrite IH.
  - destruct (existsb _ WHITE_SPACE) eqn:E; [|done].
    apply in_white_space in E. by destruct (H (String c s) "" E).
  - intros w r Hw Hs. destruct (H w (String c r) Hw). rewrite append_cons. by f_equal.
Qed.

Lemma append_assoc a b c :
  String.append (String.append a b) c = String.append a (String.append b c).
Proof. induction a as [|x a IH]; [done|]. rewrite !append_cons. by f_equal. Qed.

Lemma trim_no_prefix s w r : w ∈ WHITE_SPACE → trim s ≠ w +:+ r.
Proof.
  intros Hw H. unfold trim in H. destruct (trim_end_prefix (trim_start s)) as [x Hx].
  rewrite H, append_assoc in Hx. by destruct (trim_start_clean s w (String.append r x) Hw).
Qed.

Lemma trim_no_suffix s w r : w ∈ WHITE_SPACE → trim s ≠ r +:+ w.
Proof. apply trim_end_clean. Qed.

Lemma trim_trim s : trim (trim s) = trim s.
Proof.
  unfold trim at 1. unfold trim_start.
  rewrite trim_start_from_fixed by (intros w r; apply trim_no_prefix).
  apply trim_end_fixed. intros w r. apply trim_no_suffix.
Qed.


Lemma latest_content_eq d :
  getLatestAssistantContent d = trim (default "" (latest_text d)).
Proof.
  unfold getLatestAssistantContent, latest_text.
  destruct (last _) as [node|]; [|done]. cbn.
  destruct (el_innerText node) as [[|c t]|]; done.
Qed.

(** X1.  The sampled answer text is the inner text of the last assistant
    node with the white space at both ends removed: it neither starts nor
    ends with a white space or line terminator code point, and trimming it
    again changes nothing. *)
Theorem latest_content_is_trimmed d :
  (∀ w r, w ∈ WHITE_SPACE → getLatestAssistantContent d ≠ w +:+ r)
  ∧ (∀ w r, w ∈ WHITE_SPACE → getLatestAssistantContent d ≠ r +:+ w)
  ∧ trim (getLatestAssistantContent d) = getLatestAssistantContent d.
Proof.
  rewrite latest_content_eq. split; [|split].
  - intros w r. apply trim_no_prefix.
  - intros w r. apply trim_no_suffix.
  - apply trim_trim.
Qed.


(** ** Element lookup *)

Lemma first_match_some q ok sels e :
  first_match q ok sels = Some e →
  ok e = true ∧ ∃ sel, sel ∈ sels ∧ q sel = Some e.
Proof.
  induction sels as [|s sels IH]; [done|]. cbn [first_match].
  destruct (q s) as [e'|] eqn:Hq.
  - destruct (ok e') eqn:Hok.
    + intros [= <-]. split; [done|]. exists s. split; [left|done].
    + intros H. destruct (IH H) as (H1 & sel & H2 & H3). split; [done|].
      exists sel. split; [by right|done].
  - intros H. destruct (IH H) as (H1 & sel & H2 & H3). split; [done|].
    exists sel. split; [by right|done].
Qed.

Lemma first_match_rejecting q ok sels :
  (∀ e, ok e = false) → first_match q ok sels = None.
Proof.
  intros Hno. induction sels as [|s sels IH]; [done|]. cbn [first_match].
  destruct (q s) as [e|]; [by rewrite Hno|done].
Qed.

Lemma send_button_found d ta b :
  findSendButton d ta = Some b →
  is_button d b = true
  ∧ ∃ sel, sel ∈ SEND_BUTTON_SELECTORS
           ∧ (querySelector d sel = Some b
              ∨ ∃ q, closestForm d ta = Some q ∧ q sel = Some b).
Proof.
  unfold findSendButton. destruct (closestForm d ta) as [q|] eqn:Hq.
  - destruct (first_match q (is_button d) SEND_BUTTON_SELECTORS) as [b'|] eqn:Hf.
    + intros [= <-]. apply first_match_some in Hf as (H1 & sel & H2 & H3).
      split; [done|]. exists sel. split; [done|]. right. eauto.
    + intros Hb. apply first_match_some in Hb as (H1 & sel & H2 & H3).
      split; [done|]. exists sel. eauto.
  - intros Hb. apply first_match_some in Hb as (H1 & sel & H2 & H3).
    split; [done|]. exists sel. eauto.
Qed.

(** X3.  The stop button and the send button the Observer finds are
    instances of HTMLButtonElement returned for one of the listed
    selectors; a send button inside the form of the input area is taken
    before the document is searched; and when the page has no
    HTMLButtonElement constructor neither button is ever found. *)
Theorem button_lookup d :
  (∀ b, findStopButton d = Some b →
     is_button d b = true
     ∧ ∃ sel, sel ∈ STOP_BUTTON_SELECTORS ∧ querySelector d sel = Some b)
  ∧ (∀ ta b, findSendButton d ta = Some b →
       is_button d b = true
       ∧ ∃ sel, sel ∈ SEND_BUTTON_SELECTORS
                ∧ (querySelector d sel = Some b
                   ∨ ∃ q, closestForm d ta = Some q ∧ q sel = Some b))
  ∧ (∀ ta q b, closestForm d ta = Some q →
       first_match q (is_button d) SEND_BUTTON_SELECTORS = Some b →
       findSendButton d ta = Some b)
  ∧ (HTMLButtonCtor d = false →
       findStopButton d = None ∧ ∀ ta, findSendButton d ta = None).
Proof.
  split; [|split; [|split]].
  - intros b Hb. by apply first_match_some in Hb.
  - intros ta b. apply send_button_found.
  - intros ta q b Hq Hf. unfold findSendButton. by rewrite Hq, Hf.
  - intros Hno.
    assert (Hrej : ∀ e, is_button d e = false) by (intros e; unfold is_button; by rewrite Hno).
    split; [by apply first_match_rejecting|].
    intros ta. unfold findSendButton.
    destruct (closestForm d ta); rewrite ?first_match_rejecting; done.
Qed.

(** ** Waiting for the input area *)

(** X4.  [waitForSelector] resolves with the element found by the first
    check at which a selector matches, provided every earlier check was
    made within the timeout; the matching check itself may come after the
    timeout, since a check looks for the element before it looks at the
    clock. *)
Theorem wait_resolves_at_first_match selectors timeout start pre d now post e :
  (∀ d' n', (d', n') ∈ pre →
     first_match (querySelector d') (fun _ => true) selectors = None
     ∧ n' - start ≤ timeout) →
  first_match (querySelector d) (fun _ => true) selectors = Some e →
  waitForSelector selectors timeout start (pre ++ (d, now) :: post) = Resolved e.
Proof.
  intros Hpre Hd. induction pre as [|[d' n'] pre IH]; cbn [app waitForSelector].
  - by rewrite Hd.
  - destruct (Hpre d' n') as [Hn Ht]; [left|]. rewrite Hn.
    destruct (timeout <? n' - start) eqn:Hlt; [apply Z.ltb_lt in Hlt; lia|].
    apply IH. intros d1 n1 H1. apply (Hpre d1 n1). by right.
Qed.

(** X5.  [waitForSelector] rejects only with the time-out error, and only
    at a check made more than [timeout] ms after the start, no check up to
    and including that one having found the element. *)
Theorem wait_rejects_only_after_timeout selectors timeout start checks t :
  waitForSelector selectors timeout start checks = Rejected t →
  t = timed_out
  ∧ ∃ pre d now post,
      checks = pre ++ (d, now) :: post
      ∧ timeout < now - start
      ∧ ∀ d' n', (d', n') ∈ pre ++ [(d, now)] →
          first_match (querySelector d') (fun _ => true) selectors = None.
Proof.
  intros H. split; [by apply wait_rejects_with_timeout in H|].
  induction checks as [|[d now] checks IH]; [done|]. cbn [waitForSelector] in H.
  destruct (first_match (querySelector d) _ selectors) eqn:Hf; [done|].
  destruct (timeout <? now - start) eqn:Hlt.
  - exists [], d, now, checks. split; [done|]. split; [by apply Z.ltb_lt|].
    intros d' n' Hin. apply list_elem_of_singleton in Hin. by injection Hin as -> ->.
  - destruct (IH H) as (pre & d1 & n1 & post & -> & Hlate & Hnone).
    exists ((d, now) :: pre), d1, n1, post. split; [done|]. split; [done|].
    intros d' n' Hin. cbn [app] in Hin. apply elem_of_cons in Hin as [Heq|Hin].
    + by injection Heq as -> ->.
    + by apply (Hnone d' n').
Qed.

(** ** The prompt handler *)

Lemma clicks_app a b : clicks (a ++ b) = clicks a ++ clicks b.
Proof. apply omap_app. Qed.

Lemma clicks_typing d ta v : clicks (typing d ta v) = [].
Proof.
  unfold typing.
  destruct (if _ && _ then _ else _); destruct (InputEventCtor d); reflexivity.
Qed.

(** X6.  A run of the prompt handler has one of three outcomes.  It is
    still waiting, and has done nothing.  Or it failed: one error event
    was sent, the send button was not clicked, and the request is not
    registered.  Or it succeeded: the send button, an HTMLButtonElement,
    was clicked once, nothing was sent upstream, and polling has started
    under a fresh interval. *)
Theorem prompt_outcomes o rid prompt start checks pg :
  let r := step o (Prompt rid prompt start checks pg) in
  (r = (o, []))
  ∨ (∃ t, sent r.2 = [error_event rid t] ∧ clicks r.2 = [] ∧ r.1 = discard rid o
          ∧ ACTIVE_REQUESTS r.1 !! rid = None)
  ∨ (∃ b, sent r.2 = [] ∧ clicks r.2 = [b] ∧ is_button pg b = true
          ∧ r.1 = install rid o
          ∧ ACTIVE_REQUESTS r.1 !! rid = Some (fresh o)
          ∧ timers r.1 !! fresh o = Some rid
          ∧ heap r.1 !! fresh o = Some (initial_state (fresh o))).
Proof.
  cbv zeta. rewrite step_prompt.
  destruct (waitForSelector _ _ _ _) as [ta|t|]; [|right; left|by left].
  - destruct (findSendButton pg ta) as [b|] eqn:Hb; right; [right|left].
    + exists b. cbn [fst snd]. rewrite sent_app, clicks_app, sent_typing, clicks_typing.
      destruct (send_button_found pg ta b Hb) as [Hbtn _].
      cbn. rewrite !lookup_insert_eq. done.
    + exists no_send_button. cbn [fst snd].
      rewrite sent_app, clicks_app, sent_typing, clicks_typing.
      split; [done|]. split; [done|]. split; [done|]. apply discard_gone.
  - exists t. cbn [fst snd]. split; [done|]. split; [done|]. split; [done|].
    apply discard_gone.
Qed.

(** ** The registry and the intervals *)

(** X7.  In every run from the initial state in which no request
    identifier is prompted twice, the live intervals and the entries of
    [ACTIVE_REQUESTS] correspond one to one: an interval is live exactly
    when its request is registered with it, and its state object is not
    done and knows the interval. *)
Theorem registry_matches_intervals evs :
  fresh_prompts init evs →
  let o := (run init evs).1 in
  (∀ h rid, timers o !! h = Some rid ↔ ACTIVE_REQUESTS o !! rid = Some h)
  ∧ (∀ h rid, timers o !! h = Some rid →
       ∃ st, heap o !! h = Some st ∧ rdone st = false ∧ interval st = Some h).
Proof.
  intros F. cbv zeta. pose proof (wf_run init evs wf_init F) as W. split.
  - intros h rid. split; [apply (wf_registered _ W)|apply (wf_owner _ W)].
  - intros h rid Ht. destruct (wf_running _ W h rid Ht) as (st & Hh & Hd).
    exists st. split; [done|]. split; [done|]. by apply (wf_interval _ W).
Qed.

Lemma discard_install_registered o rid h :
  wf o → ACTIVE_REQUESTS o !! rid = Some h →
  ACTIVE_REQUESTS (discard rid (install rid o)) = delete rid (ACTIVE_REQUESTS o)
  ∧ timers (discard rid (install rid o)) = timers o
  ∧ heap (discard rid (install rid o)) !! h = heap o !! h.
Proof.
  intros W Ha. destruct (wf_fresh o W (fresh o)) as [Hft Hfh]; [lia|].
  pose proof (wf_owner o W rid h Ha) as Ht.
  assert (Hne : fresh o ≠ h) by congruence.
  unfold discard. cbn. rewrite !lookup_insert_eq. cbn.
  rewrite delete_insert_eq, delete_insert_id by done.
  by rewrite lookup_insert_ne.
Qed.

(** X8.  A prompt for an identifier that is still registered starts a
    second interval and overwrites the entry.  A later cancel clears the
    new interval only: the earlier one stays live although the identifier
    is no longer registered, and it goes on sending chunks for it. *)
Theorem reused_identifier_orphans_interval
    o rid h st prompt start checks pg ta b pg' d now1 now2 :
  wf o → ACTIVE_REQUESTS o !! rid = Some h → heap o !! h = Some st →
  waitForSelector INPUT_SELECTORS 15000 start checks = Resolved ta →
  findSendButton pg ta = Some b →
  emits st d = true →
  let o2 := (run o [Prompt rid prompt start checks pg; Cancel rid pg']).1 in
  ACTIVE_REQUESTS o2 !! rid = None
  ∧ timers o2 !! h = Some rid
  ∧ chunk rid (getLatestAssistantContent d) false ∈ sent (step o2 (Tick h d now1 now2)).2.
Proof.
  intros W Ha Hh Hw Hb He. cbv zeta.
  rewrite !run_cons. cbn [run fst]. rewrite step_prompt, Hw, Hb. cbn [fst].
  rewrite step_cancel. cbn [fst].
  destruct (discard_install_registered o rid h W Ha) as (Hac & Htm & Hhp).
  pose proof (wf_owner o W rid h Ha) as Ht.
  split; [rewrite Hac; apply lookup_delete_eq|]. split; [by rewrite Htm|].
  rewrite (step_tick _ h rid st d now1 now2); [|by rewrite Htm|by rewrite Hhp].
  cbv zeta. rewrite He.
  destruct (negb (rdone st) && quiet d (sampled st d now1) now2); cbn; left.
Qed.

Lemma discard_gone_id rid o : ACTIVE_REQUESTS o !! rid = None → discard rid o = o.
Proof. intros H. unfold discard. by rewrite H. Qed.

(** X9.  A cancel undoes a prompt only when it arrives after the prompt
    was submitted.  Take a prompt for an identifier that is not registered
    and whose submission succeeds (the input area is found and the send
    button clicked).  If the cancel arrives after the submission, the
    registry and the set of live intervals are what they were before,
    nothing was sent upstream, and a tick of the cleared interval does
    nothing.  If the cancel arrives while the prompt is still waiting for
    the input area, it finds nothing to discard and the submission goes
    ahead: polling is installed afterwards and its ticks send chunks for
    the cancelled request. *)
Theorem cancel_undoes_only_a_submitted_prompt
    o rid prompt start checks pg ta b pg' d now1 now2 :
  wf o → ACTIVE_REQUESTS o !! rid = None →
  waitForSelector INPUT_SELECTORS 15000 start checks = Resolved ta →
  findSendButton pg ta = Some b →
  emits (initial_state (fresh o)) d = true →
  let after := run o [Prompt rid prompt start checks pg; Cancel rid pg'] in
  let before := run o [Cancel rid pg'; Prompt rid prompt start checks pg] in
  (ACTIVE_REQUESTS after.1 = ACTIVE_REQUESTS o
   ∧ timers after.1 = timers o
   ∧ sent after.2 = []
   ∧ step after.1 (Tick (fresh o) d now1 now2) = (after.1, []))
  ∧ (before.1 = install rid o
     ∧ ACTIVE_REQUESTS before.1 !! rid = Some (fresh o)
     ∧ timers before.1 !! fresh o = Some rid
     ∧ sent before.2 = []
     ∧ chunk rid (getLatestAssistantContent d) false
       ∈ sent (step before.1 (Tick (fresh o) d now1 now2)).2).
Proof.
  intros W Ha Hw Hb He. cbv zeta.
  destruct (wf_fresh o W (fresh o)) as [Hft Hfh]; [lia|].
  split.
  - rewrite !run_cons. cbn [run fst snd]. rewrite step_prompt, Hw, Hb. cbn [fst snd].
    rewrite step_cancel. cbn [fst snd].
    assert (Htm : timers (discard rid (install rid o)) = timers o).
    { unfold discard. cbn. rewrite !lookup_insert_eq. cbn. by rewrite delete_insert_id. }
    split; [|split; [done|split]].
    + unfold discard. cbn. rewrite !lookup_insert_eq. cbn. by rewrite delete_insert_id.
    + rewrite !sent_app, sent_typing. by destruct (findStopButton pg').
    + apply step_tick_dead. by rewrite Htm.
  - rewrite !run_cons. cbn [run fst snd]. rewrite step_cancel. cbn [fst snd].
    rewrite (discard_gone_id rid o Ha), step_prompt, Hw, Hb. cbn [fst snd].
    split; [done|]. split; [cbn; apply lookup_insert_eq|].
    split; [cbn; apply lookup_insert_eq|]. split.
    + rewrite !sent_app, sent_typing. by destruct (findStopButton pg').
    + rewrite (step_tick _ (fresh o) rid (initial_state (fresh o)) d now1 now2);
        [|cbn; apply lookup_insert_eq|cbn; apply lookup_insert_eq].
      cbv zeta. rewrite He.
      destruct (negb _ && quiet d _ now2); cbn; left.
Qed.

Lemma run_without_timers o evs :
  timers o = ∅ → Forall (fun ev => is_tick ev = true) evs → run o evs = (o, []).
Proof.
  intros Ht Hall. induction Hall as [|ev evs Hev _ IH]; [done|].
  destruct ev as [| |h d n1 n2| |]; try done.
  rewrite run_cons, step_tick_dead by (rewrite Ht; apply lookup_empty).
  cbn [fst snd]. by rewrite IH.
Qed.

(** X10.  The [beforeunload] handler sends nothing and leaves no entry and
    no live interval, so that no tick has any effect afterwards. *)
Theorem unload_stops_everything o evs :
  wf o → Forall (fun ev => is_tick ev = true) evs →
  let r := step o BeforeUnload in
  r.2 = [] ∧ ACTIVE_REQUESTS r.1 = ∅ ∧ timers r.1 = ∅ ∧ run r.1 evs = (r.1, []).
Proof.
  intros W Hall. cbv zeta. rewrite step_unload. cbn [fst snd].
  pose proof (wf_unloaded o W) as W'.
  assert (Ht : timers (unloaded o) = ∅).
  { apply map_empty. intros h. destruct (timers (unloaded o) !! h) as [rid|] eqn:Hh; [|done].
    pose proof (wf_registered _ W' h rid Hh) as Ha. cbn in Ha.
    by rewrite lookup_empty in Ha. }
  split; [done|]. split; [done|]. split; [done|]. by apply run_without_timers.
Qed.

(** ** The stream of one request *)

Lemma last_cons_default (c : string) l d0 : List.last (c :: l) d0 = List.last l c.
Proof.
  revert c d0. induction l as [|a l IH]; intros c d0; [done|].
  transitivity (List.last l a); [exact (IH a d0)|symmetry; exact (IH a c)].
Qed.

Lemma progress_tick rid st d : Forall (is_progress rid) (sent (tick_output rid st d)).
Proof.
  unfold tick_output. destruct (emits st d); cbn; [|constructor].
  constructor; [|constructor]. by eexists.
Qed.

Lemma last_after_tick rid st d n1 l :
  List.last (chunk_contents rid (sent (tick_output rid st d)) ++ l) (lastContent st)
  = List.last l (lastContent (sampled st d n1)).
Proof.
  rewrite LifecycleClaims.chunk_contents_tick. unfold sampled.
  destruct (emits st d); cbn [app lastContent]; [|done]. apply last_cons_default.
Qed.

Lemma poll_shape rid st ticks :
  ∃ chunks fin,
    poll rid st ticks = chunks ++ fin
    ∧ Forall (is_progress rid) chunks
    ∧ (fin = []
       ∨ fin = [chunk rid (List.last (chunk_contents rid chunks) (lastContent st)) true]).
Proof.
  revert st. induction ticks as [|[[d n1] n2] ticks IH]; intros st.
  - exists [], []. split; [done|]. split; [constructor|by left].
  - cbn [poll]. destruct (quiet d (sampled st d n1) n2).
    + exists (sent (tick_output rid st d)), [chunk rid (lastContent (sampled st d n1)) true].
      split; [done|]. split; [apply progress_tick|]. right.
      pose proof (last_after_tick rid st d n1 []) as Hl. rewrite app_nil_r in Hl.
      by rewrite Hl.
    + destruct (IH (sampled st d n1)) as (chunks & fin & -> & Hp & Hfin).
      exists (sent (tick_output rid st d) ++ chunks), fin.
      split; [by rewrite app_assoc|]. split.
      * apply Forall_app. split; [apply progress_tick|done].
      * by rewrite LifecycleClaims.chunk_contents_app, (last_after_tick rid st d n1).
Qed.

(** X11.  What one request sends over its ticks is a sequence of
    [done: false] chunks, followed by at most one final event; the final
    event comes last and carries the content of the last chunk sent (or
    the content the request held at the start, if it sent none). *)
Theorem final_event_closes_the_stream o h rid st ticks :
  wf o → timers o !! h = Some rid → heap o !! h = Some st →
  ∃ chunks fin,
    sent (run o (tick_of h <$> ticks)).2 = chunks ++ fin
    ∧ Forall (is_progress rid) chunks
    ∧ (fin = []
       ∨ fin = [chunk rid (List.last (chunk_contents rid chunks) (lastContent st)) true]).
Proof.
  intros W Ht Hh. rewrite (run_ticks o h rid st ticks W Ht Hh). apply poll_shape.
Qed.

Lemma quiet_with_stop d st n2 : is_Some (findStopButton d) → quiet d st n2 = false.
Proof. intros Hs. unfold quiet. by rewrite bool_decide_eq_true_2. Qed.

(** X12.  As long as the stop button is shown at every tick, a request
    is never completed, however much time passes: it sends no final event
    and its interval stays live. *)
Theorem stop_button_blocks_completion o h rid st ticks :
  wf o → timers o !! h = Some rid → heap o !! h = Some st →
  stop_shown ticks →
  finals rid (run o (tick_of h <$> ticks)).2 = []
  ∧ timers (run o (tick_of h <$> ticks)).1 !! h = Some rid.
Proof.
  revert o st. induction ticks as [|[[d n1] n2] ticks IH]; intros o st W Ht Hh Hs; [done|].
  rewrite fmap_cons, run_cons. cbn [tick_of fst snd].
  pose proof (wf_tick o h d n1 n2 W) as W'.
  destruct (tick_continues o h rid st d n1 n2 W Ht Hh) as (o' & Hstep & _ & Htm & Hhp & _).
  { apply quiet_with_stop. apply (Hs d n1 n2). left. }
  rewrite Hstep in *. cbn [fst snd] in *.
  destruct (IH o' (sampled st d n1)) as [IH1 IH2]; try done.
  - by rewrite Htm.
  - rewrite Hhp. apply lookup_insert_eq.
  - intros d' m1 m2 Hin. apply (Hs d' m1 m2). by right.
  - by rewrite finals_app, finals_tick_output, IH1.
Qed.

(** X13.  A tick of one request leaves every other running request alone:
    its interval, its entry, its state object, and nothing is sent under
    its identifier. *)
Theorem tick_leaves_other_requests_alone o h1 h2 rid2 d now1 now2 :
  wf o → timers o !! h2 = Some rid2 → h1 ≠ h2 →
  let r := step o (Tick h1 d now1 now2) in
  timers r.1 !! h2 = Some rid2
  ∧ ACTIVE_REQUESTS r.1 !! rid2 = Some h2
  ∧ heap r.1 !! h2 = heap o !! h2
  ∧ sent_for rid2 r.2 = [].
Proof.
  intros W Ht2 Hne. cbv zeta.
  pose proof (wf_registered o W h2 rid2 Ht2) as Ha2.
  destruct (timers o !! h1) as [rid1|] eqn:Ht1; [|by rewrite step_tick_dead].
  destruct (wf_running o W h1 rid1 Ht1) as (st & Hh & _).
  assert (Hrid : rid1 ≠ rid2).
  { intros ->. pose proof (wf_registered o W h1 rid2 Ht1). congruence. }
  destruct (quiet d (sampled st d now1) now2) eqn:Hq.
  - destruct (tick_completes o h1 rid1 st d now1 now2 W Ht1 Hh Hq)
      as (o' & -> & Hac & Htm & Hhp).
    cbn [fst snd]. rewrite Hac, Htm, Hhp.
    rewrite !lookup_delete_ne, lookup_insert_ne by done.
    rewrite sent_for_app, sent_for_tick_other, sent_for_chunk_other by done. done.
  - destruct (tick_continues o h1 rid1 st d now1 now2 W Ht1 Hh Hq)
      as (o' & -> & Hac & Htm & Hhp & _).
    cbn [fst snd]. rewrite Hac, Htm, Hhp, lookup_insert_ne by done.
    by rewrite sent_for_tick_other.
Qed.

End ObserverExtras.

(** * Further properties of the Broker *)
Module BrokerExtras.
Import Broker MoreTerms BrokerFacts.

Lemma answers_app cid a b : answers cid (a ++ b) = (answers cid a + answers cid b)%nat.
Proof. unfold answers. by rewrite List.filter_app, length_app. Qed.

Lemma parked_calls_app cid a b :
  parked_calls cid (a ++ b) = (parked_calls cid a + parked_calls cid b)%nat.
Proof. unfold parked_calls. by rewrite List.filter_app, length_app. Qed.

Lemma invocations_cons cid ev evs :
  invocations cid (ev :: evs) = (invocations cid [ev] + invocations cid evs)%nat.
Proof.
  unfold invocations. cbn.
  by destruct (match ev with Invoke _ _ => _ | _ => _ end).
Qed.

Lemma settlements_cons ev evs :
  settlements (ev :: evs) = (settlements [ev] + settlements evs)%nat.
Proof. unfold settlements. cbn. by destruct ev. Qed.

(** ** One creation at a time *)

Lemma afterEnsure_window cid c b :
  windows_created (afterEnsure cid c b).2 = 0%nat
  ∧ creatingWindowPromise (afterEnsure cid c b).1 = creatingWindowPromise b
  ∧ parked (afterEnsure cid c b).1 = parked b.
Proof.
  destruct c as [|prompt provider sender uuid]; cbn; [done|].
  by destruct (live_window b).
Qed.

Lemma resume_window failure k b :
  windows_created (resume failure k b).2 = 0%nat
  ∧ parked (resume failure k b).1 = parked b.
Proof.
  unfold resume. destruct failure as [msg|]; [by destruct (pk_role k)|].
  match goal with
  | |- context [afterEnsure ?c ?w ?b'] =>
      destruct (afterEnsure_window c w b') as (Hw & _ & Hp)
  end.
  rewrite Hw, Hp. by destruct (pk_role k).
Qed.

Lemma resume_all_window failure ks b :
  windows_created (resume_all failure ks b).2 = 0%nat
  ∧ parked (resume_all failure ks b).1 = parked b.
Proof.
  revert b. induction ks as [|k ks IH]; intros b; [done|]. cbn [resume_all].
  destruct (resume_window failure k b) as [Hw Hp].
  destruct (resume failure k b) as [b1 out1].
  destruct (IH b1) as [IHw IHp].
  destruct (resume_all failure ks b1) as [b2 out2]. cbn [fst snd] in *.
  rewrite windows_created_app, Hw, IHw, IHp, Hp. done.
Qed.

Lemma creation_step b ev :
  (windows_created (step b ev).2 + creation_slot (step b ev).1
   ≤ creation_slot b + settlements [ev])%nat.
Proof.
  destruct ev as [cid c|rid|p failure|w|w|fromId m]; cbn [step].
  - unfold invoke, ensureWindow, creation_slot at 2.
    destruct (live_window b) as [w|].
    + destruct (afterEnsure_window cid c b) as (Hw & Hc & _).
      destruct (afterEnsure cid c b) as [b2 out2]. cbn [fst snd app] in *.
      unfold creation_slot. rewrite Hw, Hc. cbn. lia.
    + destruct (creatingWindowPromise b) as [p|] eqn:Hc; cbn.
      * unfold creation_slot; cbn. rewrite Hc. lia.
      * unfold creation_slot; cbn. lia.
  - unfold cancel. destruct (truthy rid); cbn [fst snd]; [|cbn; lia].
    unfold creation_slot; cbn. destruct (window b); cbn; lia.
  - unfold loadSettled.
    match goal with
    | |- context [resume_all ?f ?ks ?b'] => destruct (resume_all_window f ks b') as [Hw _]
    end.
    rewrite Hw. unfold creation_slot, settlements. cbn [List.filter length].
    match goal with
    | |- context [creatingWindowPromise (resume_all ?f ?ks ?b').1] =>
        destruct (creatingWindowPromise (resume_all f ks b').1)
    end; destruct (creatingWindowPromise b); lia.
  - unfold creation_slot. cbn. destruct (creatingWindowPromise b); lia.
  - unfold creation_slot. cbn. destruct (creatingWindowPromise b); lia.
  - assert (H : windows_created (onUpstream fromId m b).2 = 0%nat
                ∧ creatingWindowPromise (onUpstream fromId m b).1
                  = creatingWindowPromise b).
    { unfold onUpstream, forwardChunk.
      destruct m as [p|p|]; cbn; try done;
        destruct (pendingRequests b !! _) as [req|]; cbn; try done;
        destruct (fromId (senderId req)) as [[[]]|]; cbn; try done;
        destruct (terminal _); cbn; done. }
    destruct H as [Hw Hc]. unfold creation_slot. rewrite Hw, Hc.
    destruct (creatingWindowPromise b); cbn; lia.
Qed.

(** X14.  In any run of the Broker, whatever calls, cancellations,
    window closures and upstream messages it is made of, the number of
    windows constructed is at most the number of settled creations, plus
    one if no creation was in flight at the start: a window is only
    constructed when no creation is in flight.  From the initial state
    this is one more than the number of creations that settled. *)
Theorem one_creation_at_a_time b evs :
  (windows_created (run b evs).2 + creation_slot (run b evs).1
   ≤ creation_slot b + settlements evs)%nat
  ∧ (windows_created (run init evs).2 ≤ 1 + settlements evs)%nat.
Proof.
  assert (H : ∀ b, (windows_created (run b evs).2 + creation_slot (run b evs).1
                    ≤ creation_slot b + settlements evs)%nat).
  { clear b. induction evs as [|ev evs IH]; intros b; [cbn; lia|].
    rewrite broker_run_cons, settlements_cons. cbn [fst snd].
    rewrite windows_created_app.
    pose proof (creation_step b ev). specialize (IH (step b ev).1). lia. }
  split; [apply H|]. specialize (H init).
  change (creation_slot init) with 1%nat in H. lia.
Qed.

(** ** Every call gets its answer *)

Lemma afterEnsure_answers cid c what b :
  answers cid (afterEnsure c what b).2 = (if bool_decide (c = cid) then 1 else 0)%nat.
Proof.
  destruct what as [|prompt provider sender uuid]; cbn.
  - unfold answers; cbn. by destruct (bool_decide (c = cid)).
  - destruct (live_window b); unfold answers; cbn; by destruct (bool_decide (c = cid)).
Qed.

Lemma resume_answers cid failure k b :
  answers cid (resume failure k b).2
  = (if bool_decide (pk_call k = cid) then 1 else 0)%nat.
Proof.
  unfold resume. destruct failure as [msg|]; [|apply afterEnsure_answers].
  unfold answers; cbn. by destruct (bool_decide (pk_call k = cid)).
Qed.

Lemma resume_all_answers cid failure ks b :
  answers cid (resume_all failure ks b).2 = parked_calls cid ks.
Proof.
  revert b. induction ks as [|k ks IH]; intros b; [done|]. cbn [resume_all].
  pose proof (resume_answers cid failure k b) as Hk.
  destruct (resume failure k b) as [b1 out1]. specialize (IH b1).
  destruct (resume_all failure ks b1) as [b2 out2]. cbn [fst snd] in *.
  rewrite answers_app, Hk, IH. unfold parked_calls. cbn.
  by destruct (bool_decide (pk_call k = cid)).
Qed.

Lemma parked_calls_split cid p ks :
  (parked_calls cid (filter (fun k => pk_promise k = p) ks)
   + parked_calls cid (filter (fun k => pk_promise k ≠ p) ks))%nat
  = parked_calls cid ks.
Proof.
  induction ks as [|k ks IH]; [done|]. rewrite !filter_cons.
  destruct (decide (pk_promise k = p)) as [Hp|Hp].
  - rewrite decide_False by (by intros ?). unfold parked_calls in *. cbn.
    destruct (bool_decide (pk_call k = cid)); cbn; lia.
  - rewrite decide_True by done. unfold parked_calls in *. cbn.
    destruct (bool_decide (pk_call k = cid)); cbn; lia.
Qed.

Lemma answer_step cid b ev :
  (answers cid (step b ev).2 + parked_calls cid (parked (step b ev).1))%nat
  = (parked_calls cid (parked b) + invocations cid [ev])%nat.
Proof.
  destruct ev as [c what|rid|p failure|w|w|fromId m]; cbn [step].
  - unfold invocations. cbn [List.filter].
    unfold invoke, ensureWindow. destruct (live_window b) as [w|].
    + pose proof (afterEnsure_answers cid c what b) as Ha.
      destruct (afterEnsure_window c what b) as (_ & _ & Hp).
      destruct (afterEnsure c what b) as [b2 out2]. cbn [fst snd app] in *.
      rewrite Ha, Hp. destruct (bool_decide (c = cid)); cbn; lia.
    + destruct (creatingWindowPromise b) as [p|]; unfold createWindow;
        cbn [fst snd parked];
        rewrite parked_calls_app; unfold answers, parked_calls; cbn.
      all: by destruct (bool_decide (c = cid)).
  - unfold cancel, answers, invocations.
    destruct (truthy rid); [destruct (window b)|]; cbn [fst snd List.filter length parked set_pending answered];
      lia.
  - unfold loadSettled. rewrite resume_all_answers.
    match goal with
    | |- context [resume_all ?f ?ks ?b'] => destruct (resume_all_window f ks b') as [_ Hp]
    end.
    rewrite Hp. cbn [parked]. rewrite parked_calls_split. unfold invocations.
    cbn [List.filter length]. lia.
  - unfold answers, invocations. cbn [fst snd List.filter length parked onClosed]. lia.
  - unfold answers, invocations. cbn [fst snd List.filter length parked onDestroyed]. lia.
  - assert (H : answers cid (onUpstream fromId m b).2 = 0%nat
                ∧ parked (onUpstream fromId m b).1 = parked b).
    { unfold onUpstream, forwardChunk.
      destruct m as [p|p|]; cbn; try done;
        destruct (pendingRequests b !! _) as [req|]; cbn; try done;
        destruct (fromId (senderId req)) as [[[]]|]; cbn; try done;
        destruct (terminal _); cbn; done. }
    destruct H as [-> ->]. unfold invocations. cbn [List.filter length]. lia.
Qed.

Lemma answers_balance cid b evs :
  (answers cid (run b evs).2 + parked_calls cid (parked (run b evs).1))%nat
  = (parked_calls cid (parked b) + invocations cid evs)%nat.
Proof.
  revert b. induction evs as [|ev evs IH]; intros b; [cbn; lia|].
  rewrite broker_run_cons, invocations_cons. cbn [fst snd]. rewrite answers_app.
  pose proof (answer_step cid b ev). specialize (IH (step b ev).1). lia.
Qed.

(** ** What calls wait for *)

Lemma filter_keep_all {A} (P : A → Prop) `{∀ x, Decision (P x)} (l : list A) :
  (∀ x, x ∈ l → P x) → filter P l = l.
Proof.
  induction l as [|x l IH]; intros Hl; [done|].
  rewrite filter_cons, decide_True by (apply Hl; left).
  rewrite IH; [done|]. intros y Hy. apply Hl. by right.
Qed.

Lemma filter_drop_all {A} (P : A → Prop) `{∀ x, Decision (P x)} (l : list A) :
  (∀ x, x ∈ l → ¬ P x) → filter P l = [].
Proof.
  induction l as [|x l IH]; intros Hl; [done|].
  rewrite filter_cons, decide_False by (apply Hl; left).
  apply IH. intros y Hy. apply Hl. by right.
Qed.

Lemma resume_promise failure k b :
  creatingWindowPromise (resume failure k b).1
  = match pk_role k with
    | Creator => None
    | Follower => creatingWindowPromise b
    end.
Proof.
  unfold resume. destruct failure as [msg|]; [by destruct (pk_role k)|].
  match goal with
  | |- context [afterEnsure ?c ?w ?b'] =>
      destruct (afterEnsure_window c w b') as (_ & Hc & _)
  end.
  rewrite Hc. by destruct (pk_role k).
Qed.

Lemma resume_all_cleared failure ks b :
  creatingWindowPromise b = None →
  creatingWindowPromise (resume_all failure ks b).1 = None.
Proof.
  revert b. induction ks as [|k ks IH]; intros b Hb; [done|]. cbn [resume_all].
  pose proof (resume_promise failure k b) as Hk.
  destruct (resume failure k b) as [b1 out1]. cbn [fst] in Hk.
  assert (Hb1 : creatingWindowPromise b1 = None).
  { rewrite Hk. by destruct (pk_role k). }
  specialize (IH b1 Hb1). by destruct (resume_all failure ks b1).
Qed.

Lemma resume_all_clears failure ks b :
  (∃ k, k ∈ ks ∧ pk_role k = Creator) →
  creatingWindowPromise (resume_all failure ks b).1 = None.
Proof.
  revert b. induction ks as [|k ks IH]; intros b (k0 & Hin & Hrole).
  - by apply elem_of_nil in Hin.
  - cbn [resume_all]. pose proof (resume_promise failure k b) as Hk.
    pose proof (resume_all_cleared failure ks (resume failure k b).1) as Hc.
    specialize (IH (resume failure k b).1).
    destruct (resume failure k b) as [b1 out1]. cbn [fst] in *.
    destruct (resume_all failure ks b1) as [b2 out2] eqn:E. cbn [fst] in *.
    apply elem_of_cons in Hin as [<-|Hin].
    + apply Hc. by rewrite Hk, Hrole.
    + apply IH. eauto.
Qed.

Lemma upstream_keeps fromId m b :
  parked (onUpstream fromId m b).1 = parked b
  ∧ creatingWindowPromise (onUpstream fromId m b).1 = creatingWindowPromise b.
Proof.
  unfold onUpstream, forwardChunk.
  destruct m as [p|p|]; cbn; try done;
    destruct (pendingRequests b !! _) as [req|]; cbn; try done;
    destruct (fromId (senderId req)) as [[[]]|]; cbn; try done;
    destruct (terminal _); cbn; done.
Qed.

Lemma settle_in_flight p failure b :
  waiting_on_creation b → creatingWindowPromise b = Some p →
  creatingWindowPromise (loadSettled p failure b).1 = None
  ∧ parked (loadSettled p failure b).1 = []
  ∧ ∀ cid, answers cid (loadSettled p failure b).2 = parked_calls cid (parked b).
Proof.
  intros [HI HJ] Hp. unfold loadSettled.
  assert (Hall : ∀ k, k ∈ parked b → pk_promise k = p).
  { intros k Hk. specialize (HI k Hk). congruence. }
  rewrite (filter_keep_all (fun k => pk_promise k = p)) by done.
  rewrite (filter_drop_all (fun k => pk_promise k ≠ p))
    by (intros k Hk Hne; by destruct Hne; apply Hall).
  split; [|split].
  - apply resume_all_clears. destruct (HJ p Hp) as (k & Hk & Hr & _). eauto.
  - match goal with
    | |- context [resume_all ?f ?ks ?b'] => destruct (resume_all_window f ks b') as [_ H]
    end.
    by rewrite H.
  - intros cid. apply resume_all_answers.
Qed.

Lemma settle_other p failure b :
  waiting_on_creation b → creatingWindowPromise b ≠ Some p →
  loadSettled p failure b = (b, []).
Proof.
  intros [HI HJ] Hp. unfold loadSettled.
  rewrite (filter_drop_all (fun k => pk_promise k = p)).
  - rewrite (filter_keep_all (fun k => pk_promise k ≠ p)); [by destruct b|].
    intros k Hk He. apply Hp. rewrite (HI k Hk). by rewrite He.
  - intros k Hk He. apply Hp. rewrite (HI k Hk). by rewrite He.
Qed.

Lemma waiting_step b ev : waiting_on_creation b → waiting_on_creation (step b ev).1.
Proof.
  intros W. pose proof W as [HI HJ].
  destruct ev as [cid c|rid|p failure|w|w|fromId m]; cbn [step].
  - unfold invoke, ensureWindow. destruct (live_window b) as [w|].
    + destruct (afterEnsure_window cid c b) as (_ & Hc & Hp).
      destruct (afterEnsure cid c b) as [b2 out2]. cbn [fst snd] in *.
      unfold waiting_on_creation. by rewrite Hc, Hp.
    + destruct (creatingWindowPromise b) as [p|] eqn:Hc; cbn [createWindow fst snd].
      * split; cbn; rewrite ?Hc.
        -- intros k Hk. apply elem_of_app in Hk as [Hk|Hk]; [by apply HI|].
           by apply list_elem_of_singleton in Hk as ->.
        -- intros p' Hp'. destruct (HJ p' Hp') as (k & Hk & Hr).
           exists k. split; [|done]. apply elem_of_app. by left.
      * assert (Hnone : parked b = []).
        { destruct (parked b) as [|k ks]; [done|].
          by specialize (HI k (list_elem_of_here k ks)). }
        split; cbn; rewrite Hnone.
        -- intros k Hk. by apply list_elem_of_singleton in Hk as ->.
        -- intros p' [= <-]. eexists. split; [left|done].
  - unfold cancel. destruct (truthy rid); [|done]. exact W.
  - destruct (creatingWindowPromise b) as [q|] eqn:Hc.
    + destruct (decide (q = p)) as [->|Hne].
      * destruct (settle_in_flight p failure b W Hc) as (H1 & H2 & _).
        split; [rewrite H2; intros k Hk; by apply elem_of_nil in Hk|].
        intros p' Hp'. by rewrite H1 in Hp'.
      * rewrite settle_other; [done|done|]. rewrite Hc. congruence.
    + rewrite settle_other; [done|done|]. by rewrite Hc.
  - exact W.
  - exact W.
  - destruct (upstream_keeps fromId m b) as [Hp Hc].
    unfold waiting_on_creation. by rewrite Hp, Hc.
Qed.

Lemma waiting_run b evs : waiting_on_creation b → waiting_on_creation (run b evs).1.
Proof.
  revert b. induction evs as [|ev evs IH]; intros b W; [done|].
  rewrite broker_run_cons. cbn [fst]. apply IH. by apply waiting_step.
Qed.

Lemma waiting_init : waiting_on_creation init.
Proof. split; [intros k Hk; by apply elem_of_nil in Hk|done]. Qed.

(** X15.  Calls of [initialize] and [sendMessage] wait for one thing only,
    the window creation in flight, and they do not wait beyond it.  In
    every state the service reaches from its initial state: every parked
    call is parked on the creation in flight; when that creation settles,
    normally or with a failure, the creation is cleared, no call is left
    parked and each call that was parked has got its answer; and so,
    whenever no creation is in flight, no call is parked and every call
    made so far has been answered exactly once. *)
Theorem calls_wait_only_for_the_creation_in_flight evs :
  let b := (run init evs).1 in
  (∀ k, k ∈ parked b → creatingWindowPromise b = Some (pk_promise k))
  ∧ (∀ p failure, creatingWindowPromise b = Some p →
       creatingWindowPromise (loadSettled p failure b).1 = None
       ∧ parked (loadSettled p failure b).1 = []
       ∧ ∀ cid, answers cid (loadSettled p failure b).2 = parked_calls cid (parked b))
  ∧ (creatingWindowPromise b = None →
       parked b = []
       ∧ ∀ cid, answers cid (run init evs).2 = invocations cid evs).
Proof.
  cbv zeta. pose proof (waiting_run init evs waiting_init) as W.
  split; [apply W|]. split.
  - intros p failure Hp. by apply settle_in_flight.
  - intros Hc.
    assert (Hnone : parked (run init evs).1 = []).
    { destruct W as [HI _]. destruct (parked (run init evs).1) as [|k ks]; [done|].
      specialize (HI k (list_elem_of_here k ks)). congruence. }
    split; [done|]. intros cid.
    pose proof (answers_balance cid init evs) as H. rewrite Hnone in H.
    change (parked init) with (@nil Parked) in H. unfold parked_calls in H at 1 2.
    cbn [List.filter length] in H. lia.
Qed.

(** ** Loss of the window *)

Lemma first_invoke_state cid c b :
  live_window b = None → creatingWindowPromise b = None →
  invoke cid c b =
    ({| window := Some (nextWindow b); isReady := false;
        creatingWindowPromise := Some (nextWindow b);
        pendingRequests := pendingRequests b; destroyed := destroyed b;
        parked := parked b ++ [mkParked cid c Creator (nextWindow b)];
        nextWindow := S (nextWindow b) |},
     [NewBrowserWindow (nextWindow b); LoadURL (nextWindow b) CHATGPT_URL]).
Proof. intros Hw Hc. unfold invoke, ensureWindow. by rewrite Hw, Hc. Qed.

Lemma filter_promise_one (k : Parked) p :
  pk_promise k = p →
  filter (fun k => pk_promise k = p) [k] = [k]
  ∧ filter (fun k => pk_promise k ≠ p) [k] = [].
Proof.
  intros Hp. rewrite !filter_cons, !filter_nil.
  rewrite decide_True by done. by rewrite decide_False by (by intros ?).
Qed.

(** X16.  When the page load of a newly made window fails, the call that
    made the window is rejected with the reason of the failure and the
    creation promise is cleared, but the window stays assigned.  Later
    calls therefore find a window, construct no new one and are answered
    at once: a failed load is not tried again. *)
Theorem failed_load_is_not_retried b c1 what1 reason :
  live_window b = None → creatingWindowPromise b = None → parked b = [] →
  nextWindow b ∉ destroyed b →
  let w := nextWindow b in
  let r := run b [Invoke c1 what1; LoadSettled w (Some reason)] in
  r.2 = [NewBrowserWindow w; LoadURL w CHATGPT_URL; Reject c1 reason]
  ∧ live_window r.1 = Some w
  ∧ creatingWindowPromise r.1 = None
  ∧ pendingRequests r.1 = pendingRequests b
  ∧ ∀ c2 what2,
      windows_created (invoke c2 what2 r.1).2 = 0%nat
      ∧ answers c2 (invoke c2 what2 r.1).2 = 1%nat.
Proof.
  intros Hw Hc Hp Hn. cbv zeta.
  rewrite !broker_run_cons. cbn [run step fst snd].
  rewrite (first_invoke_state c1 what1 b Hw Hc), Hp. cbn [fst snd app].
  unfold loadSettled. cbn [parked].
  destruct (filter_promise_one (mkParked c1 what1 Creator (nextWindow b)) (nextWindow b))
    as [-> ->]; [done|].
  cbn [resume_all resume pk_role pk_call fst snd app].
  assert (Hl : ∀ ps ks, live_window
            {| window := Some (nextWindow b); isReady := false;
               creatingWindowPromise := None; pendingRequests := ps;
               destroyed := destroyed b; parked := ks;
               nextWindow := S (nextWindow b) |} = Some (nextWindow b)).
  { intros ps ks. unfold live_window. cbn. by rewrite decide_False. }
  split; [done|]. split; [apply Hl|]. split; [done|]. split; [done|].
  intros c2 what2.
  destruct (live_invoke_creates_nothing c2 what2 _ _ (Hl (pendingRequests b) [])) as (H1 & _ & _).
  split; [exact H1|].
  unfold invoke, ensureWindow. rewrite Hl.
  match goal with
  | |- context [afterEnsure ?c ?w ?b'] => pose proof (afterEnsure_answers c2 c w b') as Ha
  end.
  destruct (afterEnsure _ _ _) as [b2 out2]. cbn [fst snd app] in *.
  by rewrite Ha, bool_decide_eq_true_2.
Qed.

(** X17.  When the window is closed while its creation is in flight, a
    further call constructs no second window: it waits for the creation
    that is in flight.  When that creation settles, both calls resume.  If
    the load failed, both are rejected with the reason of the failure.  If
    the load succeeded, they find no window: [initialize] answers false and
    [sendMessage] is rejected with 'Web model window is not available'.
    Either way no window is left, no creation is in flight, no call is
    parked and no request is registered. *)
Theorem window_closed_during_creation b c1 what1 c2 what2 failure :
  live_window b = None → creatingWindowPromise b = None → parked b = [] →
  let w := nextWindow b in
  let r := run b [Invoke c1 what1; WindowClosed w; Invoke c2 what2;
                  LoadSettled w failure] in
  r.2 = [NewBrowserWindow w; LoadURL w CHATGPT_URL;
         after_lost_window failure c1 what1; after_lost_window failure c2 what2]
  ∧ window r.1 = None
  ∧ creatingWindowPromise r.1 = None
  ∧ parked r.1 = []
  ∧ pendingRequests r.1 = pendingRequests b.
Proof.
  intros Hw Hc Hp. cbv zeta.
  rewrite !broker_run_cons. cbn [run step fst snd].
  rewrite (first_invoke_state c1 what1 b Hw Hc), Hp. cbn [fst snd app].
  unfold onClosed, invoke, ensureWindow, live_window.
  cbn [window creatingWindowPromise fst snd parked app].
  unfold loadSettled. cbn [parked].
  rewrite !filter_cons, !filter_nil. cbn [pk_promise].
  rewrite !decide_True by done. rewrite !decide_False by (by intros ?).
  cbn [resume_all resume pk_role pk_call pk_what fst snd app].
  destruct failure as [reason|]; [done|].
  destruct what1, what2; cbn; done.
Qed.

(** ** Routing *)

(** X18.  A [sendMessage] on a live window registers the request under
    the new identifier, passes the prompt to the window and answers with
    the identifier; from then on an event that carries the identifier is
    forwarded, unchanged, to the caller that sent the message, and the
    record is kept until the event is terminal. *)
Theorem send_then_forward b w cid prompt provider sender uuid fromId p :
  live_window b = Some w →
  fromId sender = Some {| wc_destroyed := false |} →
  requestId p = uuid →
  let r := invoke cid (CSendMessage prompt provider sender uuid) b in
  r.2 = [ToObserver w (DownPrompt uuid prompt provider); Resolve cid (VString uuid)]
  ∧ pendingRequests r.1 !! uuid = Some {| senderId := sender |}
  ∧ (forwardChunk fromId p r.1).2 = [ToCaller sender p]
  ∧ pendingRequests (forwardChunk fromId p r.1).1 !! uuid
    = if terminal p then None else Some {| senderId := sender |}.
Proof.
  intros Hw Hf <-. cbv zeta. unfold invoke, ensureWindow. rewrite Hw. cbn.
  rewrite Hw. cbn [fst snd].
  assert (Hp : pendingRequests (set_pending (insert (requestId p) (mkPending sender)) b)
               !! requestId p = Some (mkPending sender)) by apply lookup_insert_eq.
  split; [done|]. split; [done|].
  rewrite (forward_live fromId p _ (mkPending sender) Hp Hf). cbn [fst snd].
  split; [done|]. destruct (terminal p); [cbn; apply lookup_delete_eq|done].
Qed.

(** X19.  When the caller of a request is gone ([webContents.fromId]
    finds nothing, or what it finds is destroyed), the event is not
    forwarded and the request is retired: no later event for it is ever
    forwarded, whatever [webContents.fromId] then returns. *)
Theorem dead_caller_retires_request b fromId p req :
  pendingRequests b !! requestId p = Some req →
  (fromId (senderId req) = None
   ∨ fromId (senderId req) = Some {| wc_destroyed := true |}) →
  let r := forwardChunk fromId p b in
  r.2 = []
  ∧ pendingRequests r.1 !! requestId p = None
  ∧ ∀ fromId' p', requestId p' = requestId p → forwardChunk fromId' p' r.1 = (r.1, []).
Proof.
  intros Hp Hdead. cbv zeta.
  assert (Hr : forwardChunk fromId p b = (set_pending (delete (requestId p)) b, [])).
  { unfold forwardChunk. rewrite Hp. by destruct Hdead as [-> | ->]. }
  rewrite Hr. cbn [fst snd]. split; [done|].
  split; [cbn; apply lookup_delete_eq|].
  intros fromId' p' Hid. apply forward_unknown. rewrite Hid. cbn. apply lookup_delete_eq.
Qed.

(** ** Readiness *)

Lemma resume_all_ready failure ks b :
  isReady b = false →
  isReady (resume_all failure ks b).1 = false
  ∧ List.filter reports_ready (resume_all failure ks b).2 = [].
Proof.
  revert b. induction ks as [|k ks IH]; intros b Hr; [done|]. cbn [resume_all].
  assert (H1 : isReady (resume failure k b).1 = false
               ∧ List.filter reports_ready (resume failure k b).2 = []).
  { unfold resume. destruct failure as [msg|].
    - by destruct (pk_role k).
    - destruct (pk_what k) as [|prompt provider sender uuid]; destruct (pk_role k);
        cbn; rewrite ?Hr; try done;
        match goal with |- context [live_window ?b'] => destruct (live_window b') end;
        cbn; by rewrite ?Hr. }
  destruct H1 as [Hr1 Hf1]. destruct (resume failure k b) as [b1 out1].
  destruct (IH b1 Hr1) as [Hr2 Hf2].
  destruct (resume_all failure ks b1) as [b2 out2]. cbn [fst snd] in *.
  by rewrite List.filter_app, Hf1, Hf2.
Qed.

Lemma ready_step b ev :
  isReady b = false → ready_signal ev = false →
  isReady (step b ev).1 = false ∧ List.filter reports_ready (step b ev).2 = [].
Proof.
  intros Hr Hs. destruct ev as [c what|rid|p failure|w|w|fromId m]; cbn [step].
  - unfold invoke, ensureWindow. destruct (live_window b) as [w|] eqn:Hw.
    + destruct what as [|prompt provider sender uuid]; cbn; rewrite ?Hr, ?Hw; done.
    + by destruct (creatingWindowPromise b).
  - unfold cancel. destruct (truthy rid); [destruct (window b)|]; done.
  - unfold loadSettled. by apply resume_all_ready.
  - done.
  - done.
  - destruct m as [p|p|]; [| |done]; cbn; unfold forwardChunk;
      destruct (pendingRequests b !! _) as [req|]; cbn; try done;
      destruct (fromId (senderId req)) as [[[]]|]; cbn; try done;
      destruct (terminal _); done.
Qed.

(** X20.  [initialize] answers true only after the Observer has reported
    ready: in a run that starts without readiness and in which no
    'web-model:ready' message arrives, no call is fulfilled with true. *)
Theorem readiness_needs_the_ready_signal b evs :
  isReady b = false → Forall (fun ev => ready_signal ev = false) evs →
  List.filter reports_ready (run b evs).2 = [] ∧ isReady (run b evs).1 = false.
Proof.
  intros Hr Hall. revert b Hr. induction Hall as [|ev evs Hev _ IH]; intros b Hr; [done|].
  rewrite broker_run_cons. cbn [fst snd].
  destruct (ready_step b ev Hr Hev) as [Hr1 Hf1].
  destruct (IH _ Hr1) as [Hf2 Hr2]. by rewrite List.filter_app, Hf1, Hf2.
Qed.

End BrokerExtras.

(** * Properties of the Facade's asynchronous entry points *)
Module ClientExtras.
Import Client MoreTerms.

Lemma client_run_cons c ev evs :
  run c (ev :: evs)
  = ((run (step c ev).1 evs).1, (step c ev).2 ++ (run (step c ev).1 evs).2).
Proof. cbn [run]. destruct (step c ev) as [c1 out1]. cbn. by destruct (run c1 evs). Qed.

Lemma init_calls_app a b : init_calls (a ++ b) = (init_calls a + init_calls b)%nat.
Proof. unfold init_calls. by rewrite List.filter_app, length_app. Qed.

Lemma init_settlements_cons ev evs :
  init_settlements (ev :: evs) = (init_settlements [ev] + init_settlements evs)%nat.
Proof. unfold init_settlements. cbn. by destruct ev. Qed.

Lemma afterInit_keeps cid what result c :
  init_calls (afterInit cid what result c).2 = 0%nat
  ∧ initializePromise (afterInit cid what result c).1 = initializePromise c
  ∧ initialized (afterInit cid what result c).1 = initialized c
  ∧ awaiting_init (afterInit cid what result c).1 = awaiting_init c
  ∧ Facade.api (facade (afterInit cid what result c).1) = Facade.api (facade c).
Proof.
  destruct what as [|prompt provider callbacks]; [done|].
  unfold afterInit. destruct (Facade.api (facade c)) eqn:Hapi; cbn; rewrite ?Hapi; done.
Qed.

Lemma resume_all_keeps result ws c :
  init_calls (resume_all result ws c).2 = 0%nat
  ∧ initializePromise (resume_all result ws c).1 = initializePromise c
  ∧ awaiting_init (resume_all result ws c).1 = awaiting_init c
  ∧ (ws = [] → initialized (resume_all result ws c).1 = initialized c).
Proof.
  revert c. induction ws as [|w ws IH]; intros c; [done|]. cbn [resume_all].
  destruct (afterInit_keeps (iw_call w) (iw_what w) result (set_initialized result c))
    as (H1 & H2 & _ & H4 & _).
  destruct (afterInit _ _ _ _) as [c1 out1]. destruct (IH c1) as (I1 & I2 & I3 & _).
  destruct (resume_all result ws c1) as [c2 out2]. cbn [fst snd] in *.
  rewrite init_calls_app, H1, I1, I2, I3, H2, H4. done.
Qed.

Lemma memo_step c ev :
  (init_calls (step c ev).2 + init_slot (step c ev).1
   ≤ init_slot c + init_settlements [ev])%nat.
Proof.
  destruct ev as [cid what|n outcome|cid answer|rid|payload]; cbn [step].
  - unfold invoke, ensureInitialized. destruct (initialized c).
    + destruct (afterInit_keeps cid what true c) as (H1 & H2 & _).
      destruct (afterInit cid what true c) as [c2 out2]. cbn [fst snd app] in *.
      unfold init_slot. rewrite H1, H2. cbn. lia.
    + destruct (initializePromise c) as [[n|]|] eqn:Hp.
      * unfold init_slot; cbn. rewrite Hp. lia.
      * destruct (afterInit_keeps cid what false (set_initialized false c)) as (H1 & H2 & _).
        destruct (afterInit cid what false (set_initialized false c)) as [c2 out2].
        cbn [fst snd app] in *. unfold init_slot. rewrite H1, H2. cbn. rewrite Hp. lia.
      * destruct (Facade.api (facade c)).
        -- unfold init_slot; cbn. rewrite Hp. lia.
        -- destruct (afterInit_keeps cid what false
                       (set_initialized false (set_promise (Some ResolvedFalse) c)))
             as (H1 & H2 & _).
           destruct (afterInit cid what false _) as [c2 out2].
           cbn [fst snd app] in *. unfold init_slot. rewrite H1, H2. cbn. rewrite Hp. lia.
  - unfold initSettled. destruct (in_flight n c).
    + match goal with
      | |- context [resume_all ?r ?ws ?c'] =>
          destruct (resume_all_keeps r ws c') as (H1 & H2 & _)
      end.
      unfold init_slot. rewrite H1, H2. cbn. destruct (initializePromise c); lia.
    + unfold init_slot. cbn. destruct (initializePromise c); lia.
  - unfold sendSettled. destruct (list_find _ _) as [[i [c' cbs]]|].
    + destruct answer; unfold init_slot; cbn; destruct (initializePromise c); lia.
    + unfold init_slot. cbn. destruct (initializePromise c); lia.
  - unfold of_facade, init_slot, init_calls. cbn.
    assert (H : List.filter (fun e => match e with ApiInitialize _ => true | _ => false end)
                  (OfFacade <$> (Facade.cancel rid (facade c)).2) = []).
    { induction (Facade.cancel rid (facade c)).2; [done|]. by cbn. }
    rewrite H. cbn. destruct (initializePromise c); lia.
  - unfold of_facade, init_slot, init_calls. cbn.
    assert (H : List.filter (fun e => match e with ApiInitialize _ => true | _ => false end)
                  (OfFacade <$> (Facade.handleEvent payload (facade c)).2) = []).
    { induction (Facade.handleEvent payload (facade c)).2; [done|]. by cbn. }
    rewrite H. cbn. destruct (initializePromise c); lia.
Qed.

(** X21.  The initialization of the Broker is requested once at a time:
    in any run of the Facade the number of calls of the API's
    [initialize] is at most the number of such calls that have settled,
    plus one if none was outstanding at the start.  However many
    [ensureInitialized] and [sendMessage] calls arrive while one is
    outstanding, they share it. *)
Theorem initialization_is_shared c evs :
  (init_calls (run c evs).2 + init_slot (run c evs).1
   ≤ init_slot c + init_settlements evs)%nat
  ∧ (init_calls (run init evs).2 ≤ 1 + init_settlements evs)%nat.
Proof.
  assert (H : ∀ c, (init_calls (run c evs).2 + init_slot (run c evs).1
                    ≤ init_slot c + init_settlements evs)%nat).
  { clear c. induction evs as [|ev evs IH]; intros c; [cbn; lia|].
    rewrite client_run_cons, init_settlements_cons. cbn [fst snd].
    rewrite init_calls_app.
    pose proof (memo_step c ev). specialize (IH (step c ev).1). lia. }
  split; [apply H|]. specialize (H init).
  change (init_slot init) with 1%nat in H. lia.
Qed.

Lemma sticky_step c ev :
  initialized c = true → awaiting_init c = [] →
  initialized (step c ev).1 = true
  ∧ awaiting_init (step c ev).1 = []
  ∧ ∀ e, e ∈ (step c ev).2 →
      (∀ n, e ≠ ApiInitialize n) ∧ (∀ cid, e ≠ Resolve cid (VBool false)).
Proof.
  intros Hi Hw.
  destruct ev as [cid what|n outcome|cid answer|rid|payload]; cbn [step].
  - unfold invoke, ensureInitialized. rewrite Hi.
    destruct what as [|prompt provider callbacks]; unfold afterInit.
    + cbn. split; [done|split; [done|]]. intros e He.
      apply list_elem_of_singleton in He as ->. done.
    + destruct (Facade.api (facade c)); cbn; (split; [done|split; [done|]]);
        intros e He; apply list_elem_of_singleton in He as ->; done.
  - unfold initSettled. rewrite Hw. destruct (in_flight n c); cbn.
    + split; [done|split; [done|]]. intros e He. by apply elem_of_nil in He.
    + split; [done|split; [done|]]. intros e He. by apply elem_of_nil in He.
  - unfold sendSettled. destruct (list_find _ _) as [[i [c' cbs]]|].
    + destruct answer; cbn; (split; [done|split; [done|]]);
        intros e He; apply list_elem_of_singleton in He as ->; done.
    + cbn. split; [done|split; [done|]]. intros e He. by apply elem_of_nil in He.
  - unfold of_facade. cbn. split; [done|split; [done|]]. intros e He.
    apply list_elem_of_fmap in He as (x & -> & _). done.
  - unfold of_facade. cbn. split; [done|split; [done|]]. intros e He.
    apply list_elem_of_fmap in He as (x & -> & _). done.
Qed.

(** X22.  Once the Facade is initialized it stays initialized, whatever
    calls, settlements and Broker events follow: [initialize] of the API
    is never called again and no call of [ensureInitialized] is answered
    with [false]. *)
Theorem initialized_is_permanent c evs :
  initialized c = true → awaiting_init c = [] →
  initialized (run c evs).1 = true
  ∧ ∀ e, e ∈ (run c evs).2 →
      (∀ n, e ≠ ApiInitialize n) ∧ (∀ cid, e ≠ Resolve cid (VBool false)).
Proof.
  revert c. induction evs as [|ev evs IH]; intros c Hi Hw.
  - split; [done|]. intros e He. by apply elem_of_nil in He.
  - rewrite client_run_cons. cbn [fst snd].
    destruct (sticky_step c ev Hi Hw) as (Hi1 & Hw1 & Hout).
    destruct (IH _ Hi1 Hw1) as [Hi2 Hout2]. split; [done|].
    intros e He. apply elem_of_app in He as [He|He]; auto.
Qed.

(** X23.  [sendMessage] does not look at the result of the
    initialization.  On a Facade with the API that has not been
    initialized, a [sendMessage] call requests the initialization and,
    when that settles with [true], with [false] or with a rejection, asks
    the Broker to send the prompt all the same.  The flag takes the result
    (a rejection counts as [false]), and after a failure the next call
    requests the initialization again. *)
Theorem send_ignores_the_initialization_result
    c cid prompt provider callbacks outcome :
  Facade.api (facade c) = true → initialized c = false →
  initializePromise c = None → awaiting_init c = [] →
  (run c [Invoke cid (CSend prompt provider callbacks);
          InitSettled (nextPromise c) outcome]).2
  = [ApiInitialize (nextPromise c); ApiSendMessage cid prompt provider]
  ∧ initialized (run c [Invoke cid (CSend prompt provider callbacks);
                        InitSettled (nextPromise c) outcome]).1
    = default false outcome
  ∧ (default false outcome = false →
     ∀ cid2 what,
       (run c [Invoke cid (CSend prompt provider callbacks);
               InitSettled (nextPromise c) outcome;
               Invoke cid2 what]).2
       = [ApiInitialize (nextPromise c); ApiSendMessage cid prompt provider;
          ApiInitialize (S (nextPromise c))]).
Proof.
  intros Hapi Hi Hp Hw.
  set (c1 := {| facade := facade c; initialized := initialized c;
                initializePromise := Some (FromApi (nextPromise c));
                awaiting_init := [mkInitWaiter cid (CSend prompt provider callbacks)
                                    (nextPromise c)];
                awaiting_reply := awaiting_reply c;
                nextPromise := S (nextPromise c) |}).
  set (c2 := {| facade := facade c; initialized := default false outcome;
                initializePromise := None; awaiting_init := [];
                awaiting_reply := awaiting_reply c ++ [(cid, callbacks)];
                nextPromise := S (nextPromise c) |}).
  assert (H1 : step c (Invoke cid (CSend prompt provider callbacks))
               = (c1, [ApiInitialize (nextPromise c)])).
  { cbn [step]. unfold invoke, ensureInitialized. rewrite Hi, Hp, Hapi.
    cbn. rewrite Hw. unfold c1. by rewrite Hi. }
  assert (H2 : step c1 (InitSettled (nextPromise c) outcome)
               = (c2, [ApiSendMessage cid prompt provider])).
  { cbn [step]. unfold initSettled, in_flight. cbn [c1 initializePromise awaiting_init].
    rewrite bool_decide_eq_true_2 by done.
    rewrite !filter_cons, !filter_nil. cbn [iw_promise].
    rewrite decide_True by done. rewrite decide_False by (intros H; by apply H).
    cbn [resume_all iw_call iw_what afterInit set_initialized facade].
    change (Facade.api (facade c1)) with (Facade.api (facade c)). rewrite Hapi.
    reflexivity. }
  assert (H3 : default false outcome = false → ∀ cid2 what,
               (step c2 (Invoke cid2 what)).2 = [ApiInitialize (S (nextPromise c))]).
  { intros Hfail cid2 what. cbn [step]. unfold invoke, ensureInitialized.
    cbn [c2 initialized initializePromise facade]. rewrite Hfail, Hapi. done. }
  split; [|split].
  - rewrite !client_run_cons, H1. cbn [fst snd]. rewrite H2. done.
  - rewrite !client_run_cons, H1. cbn [fst snd]. rewrite H2. done.
  - intros Hfail cid2 what.
    rewrite !client_run_cons, H1. cbn [fst snd]. rewrite H2. cbn [fst snd].
    rewrite (H3 Hfail). done.
Qed.

Lemma find_own_reply cid callbacks (l : list (nat * Facade.StreamCallbacks)) :
  Forall (fun x => x.1 ≠ cid) l →
  (∃ i, list_find (fun x => x.1 = cid) (l ++ [(cid, callbacks)])
        = Some (i, (cid, callbacks)))
  ∧ filter (fun x => x.1 ≠ cid) (l ++ [(cid, callbacks)]) = l.
Proof.
  induction 1 as [|x l Hx Hl [[i IH1] IH2]].
  - split; [exists 0%nat|]; cbn.
    + by rewrite decide_True.
    + by case_decide.
  - split.
    + exists (S i). cbn. rewrite decide_False by done.
      cbn in IH1. rewrite IH1. done.
    + rewrite <- app_comm_cons, filter_cons, decide_True by done. by rewrite IH2.
Qed.

(** X24.  The callbacks of a [sendMessage] call are registered when, and
    only when, the Broker answers with a request identifier.  After the
    answer a Broker event for that identifier reaches the call's
    [onUpdate]; the same event arriving before the answer is dropped; and
    when the Broker rejects, the call is rejected with the Broker's
    message and the listener map is left as it was. *)
Theorem callbacks_are_live_from_the_reply_on
    c cid prompt provider callbacks rid p text f :
  Facade.api (facade c) = true → initialized c = true →
  Forall (fun x => x.1 ≠ cid) (awaiting_reply c) →
  Facade.listeners (facade c) !! rid = None →
  requestId p = rid → truthy_opt (error p) = false → content p = Some text →
  Facade.onUpdate callbacks = Some f →
  (run c [Invoke cid (CSend prompt provider callbacks);
          SendSettled cid (inl rid); Incoming p]).2
  = [ApiSendMessage cid prompt provider; Resolve cid (VString rid);
     OfFacade (Facade.CallOnUpdate rid f text (truthy_flag (done p)))]
  ∧ (run c [Invoke cid (CSend prompt provider callbacks);
            Incoming p; SendSettled cid (inl rid)]).2
    = [ApiSendMessage cid prompt provider; Resolve cid (VString rid)]
  ∧ ∀ message,
      (run c [Invoke cid (CSend prompt provider callbacks);
              SendSettled cid (inr message)]).2
      = [ApiSendMessage cid prompt provider; Reject cid message]
      ∧ Facade.listeners
          (facade (run c [Invoke cid (CSend prompt provider callbacks);
                          SendSettled cid (inr message)]).1)
        = Facade.listeners (facade c)
      ∧ awaiting_reply (run c [Invoke cid (CSend prompt provider callbacks);
                               SendSettled cid (inr message)]).1
        = awaiting_reply c.
Proof.
  intros Hapi Hi Hfresh Hnone Hrid Herr Hcontent Hf.
  destruct (find_own_reply cid callbacks _ Hfresh) as [[i Hfind] Hfilter].
  assert (Hinvoke : step c (Invoke cid (CSend prompt provider callbacks))
                    = ({| facade := facade c; initialized := initialized c;
                          initializePromise := initializePromise c;
                          awaiting_init := awaiting_init c;
                          awaiting_reply := awaiting_reply c ++ [(cid, callbacks)];
                          nextPromise := nextPromise c |},
                       [ApiSendMessage cid prompt provider])).
  { cbn [step]. unfold invoke, ensureInitialized. rewrite Hi.
    unfold afterInit. rewrite Hapi. cbn. by rewrite Hi. }
  repeat split.
  - rewrite !client_run_cons, Hinvoke. cbn [run fst snd step].
    unfold sendSettled. cbn [awaiting_reply]. rewrite Hfind. cbn [fst snd app].
    unfold of_facade, Facade.handleEvent. cbn [with_facade facade Facade.listen
      Facade.set_listeners Facade.listeners fst snd].
    rewrite Hrid, lookup_insert_eq, Herr, Hcontent, Hf. done.
  - rewrite !client_run_cons, Hinvoke. cbn [run fst snd step].
    unfold of_facade, Facade.handleEvent. cbn [facade]. rewrite Hrid, Hnone.
    cbn [fst snd fmap list_fmap app].
    unfold sendSettled, with_facade. cbn [awaiting_reply]. rewrite Hfind. done.
  - rewrite !client_run_cons, Hinvoke. cbn [run fst snd step].
    unfold sendSettled. cbn [awaiting_reply]. rewrite Hfind. done.
  - rewrite !client_run_cons, Hinvoke. cbn [run fst snd step].
    unfold sendSettled. cbn [awaiting_reply]. rewrite Hfind. done.
  - rewrite !client_run_cons, Hinvoke. cbn [run fst snd step].
    unfold sendSettled. cbn [awaiting_reply]. rewrite Hfind. cbn. exact Hfilter.
Qed.

Lemma without_api_step c call :
  Facade.api (facade c) = false → initialized c = false →
  (∀ n, initializePromise c ≠ Some (FromApi n)) →
  (step c (invoke_of call)).2 = [without_api call]
  ∧ Facade.api (facade (step c (invoke_of call)).1) = false
  ∧ initialized (step c (invoke_of call)).1 = false
  ∧ initializePromise (step c (invoke_of call)).1 = Some ResolvedFalse
  ∧ Facade.listeners (facade (step c (invoke_of call)).1) = Facade.listeners (facade c).
Proof.
  intros Hapi Hi Hp. destruct call as [cid what]. unfold invoke_of, without_api.
  cbn [step fst snd]. unfold invoke, ensureInitialized. rewrite Hi.
  destruct (initializePromise c) as [[n|]|] eqn:E.
  - by destruct (Hp n).
  - destruct what; unfold afterInit; cbn [set_initialized facade]; rewrite ?Hapi;
      cbn; by rewrite ?E.
  - rewrite Hapi. destruct what; unfold afterInit;
      cbn [set_initialized set_promise facade]; rewrite ?Hapi; done.
Qed.

(** X25.  Without the preload API nothing is ever sent: every
    [ensureInitialized] call is answered [false], every [sendMessage]
    call is rejected with 'Web model API is not available', in the order
    of the calls, no callbacks are registered, and the Facade never
    becomes initialized. *)
Theorem without_the_api_every_call_fails c calls :
  Facade.api (facade c) = false → initialized c = false →
  (∀ n, initializePromise c ≠ Some (FromApi n)) →
  (run c (invoke_of <$> calls)).2 = without_api <$> calls
  ∧ initialized (run c (invoke_of <$> calls)).1 = false
  ∧ Facade.listeners (facade (run c (invoke_of <$> calls)).1)
    = Facade.listeners (facade c).
Proof.
  revert c. induction calls as [|call calls IH]; intros c Hapi Hi Hp; [done|].
  rewrite fmap_cons, client_run_cons. cbn [fst snd].
  destruct (without_api_step c call Hapi Hi Hp) as (Hout & Hapi1 & Hi1 & Hp1 & Hl1).
  destruct (IH (step c (invoke_of call)).1 Hapi1 Hi1) as (I1 & I2 & I3).
  { intros n. by rewrite Hp1. }
  rewrite Hout, I1, I2, I3, Hl1. done.
Qed.

End ClientExtras.

(** * Properties of the whole path *)
Module SystemExtras.
Import Observer Terms MoreTerms System.

Lemma relay_all_one fromId m w : relay_all fromId [m] w = relay fromId m w.
Proof. cbn. destruct (relay fromId m w) as [w1 out1]. by rewrite app_nil_r. Qed.

Lemma observe_all_cons fromId ev evs w :
  observe_all fromId (ev :: evs) w
  = ((observe_all fromId evs (observe fromId ev w).1).1,
     (observe fromId ev w).2 ++ (observe_all fromId evs (observe fromId ev w).1).2).
Proof.
  cbn [observe_all]. destruct (observe fromId ev w) as [w1 out1]. cbn.
  by destruct (observe_all fromId evs w1).
Qed.

Lemma observe_dead_ticks fromId w h ticks :
  timers (observer w) !! h = None →
  observe_all fromId (tick_of h <$> ticks) w = (w, []).
Proof.
  intros Ht. induction ticks as [|[[d n1] n2] ticks IH]; [done|].
  rewrite fmap_cons, observe_all_cons. cbn [tick_of].
  assert (Ho : observe fromId (Tick h d n1 n2) w = (w, [])).
  { unfold observe. rewrite ObserverFacts.step_tick_dead by done. cbn. by destruct w. }
  rewrite Ho. cbn [fst snd]. by rewrite IH.
Qed.

Section one_request.
Context (fromId : nat -> option Broker.WebContents) (rid : string)
        (req : Broker.PendingRequest) (l : Facade.StreamCallbacks) (f : nat).
Hypothesis alive : fromId (Broker.senderId req) = Some {| Broker.wc_destroyed := false |}.
Hypothesis callback : Facade.onUpdate l = Some f.


Lemma relay_progress o b fs c :
  held rid req l b fs →
  relay fromId (chunk rid c false) {| observer := o; broker := b; facades := fs |}
  = ({| observer := o; broker := b; facades := fs |},
     [(Broker.senderId req, Facade.CallOnUpdate rid f c false)]).
Proof.
  intros [Hp (fa & Hfa & Hl)]. unfold relay, chunk. cbn [Broker.onUpstream broker facades].
  rewrite (BrokerFacts.forward_live fromId _ b req) by done.
  cbn [Broker.terminal done error truthy_flag truthy_opt orb].
  rewrite SystemFacts.deliver_all_one. unfold deliver. rewrite Hfa.
  rewrite (FacadeFacts.handle_listener _ fa l) by done.
  cbn [error truthy_opt done truthy_flag content requestId]. rewrite callback.
  cbn. by rewrite insert_id.
Qed.

Lemma relay_final o b fs c :
  held rid req l b fs →
  ∃ b' fs',
    relay fromId (chunk rid c true) {| observer := o; broker := b; facades := fs |}
    = ({| observer := o; broker := b'; facades := fs' |},
       [(Broker.senderId req, Facade.CallOnUpdate rid f c true)])
    ∧ retired rid req b' fs'.
Proof.
  intros [Hp (fa & Hfa & Hl)]. unfold relay, chunk. cbn [Broker.onUpstream broker facades].
  rewrite (BrokerFacts.forward_live fromId _ b req) by done.
  cbn [Broker.terminal done error truthy_flag truthy_opt orb requestId].
  rewrite SystemFacts.deliver_all_one. unfold deliver. rewrite Hfa.
  rewrite (FacadeFacts.handle_listener _ fa l) by done.
  cbn [error truthy_opt done truthy_flag content requestId]. rewrite callback.
  cbn [fmap list_fmap]. eexists _, _. split; [reflexivity|]. split.
  - cbn. apply lookup_delete_eq.
  - eexists. rewrite lookup_insert_eq. split; [done|]. cbn. apply lookup_delete_eq.
Qed.

Lemma relay_tick_output o b fs st d :
  held rid req l b fs →
  relay_all fromId (sent (tick_output rid st d))
    {| observer := o; broker := b; facades := fs |}
  = ({| observer := o; broker := b; facades := fs |},
     omap (update_call (Broker.senderId req) f) (sent (tick_output rid st d))).
Proof.
  intros H. unfold tick_output. destruct (emits st d); [|done].
  cbn [sent omap list_omap]. rewrite relay_all_one, relay_progress by done. done.
Qed.

Lemma no_final_in_tick_output st d c : chunk rid c true ∉ sent (tick_output rid st d).
Proof.
  unfold tick_output. destruct (emits st d); cbn; [|apply not_elem_of_nil].
  intros H. apply list_elem_of_singleton in H. discriminate.
Qed.

Lemma stream_reaches_caller ticks : ∀ o b fs h st,
  wf o → timers o !! h = Some rid → heap o !! h = Some st → held rid req l b fs →
  let r := observe_all fromId (tick_of h <$> ticks)
             {| observer := o; broker := b; facades := fs |} in
  r.2 = omap (update_call (Broker.senderId req) f) (poll rid st ticks)
  ∧ (completes rid (poll rid st ticks) →
     ACTIVE_REQUESTS (observer r.1) !! rid = None
     ∧ timers (observer r.1) !! h = None
     ∧ retired rid req (broker r.1) (facades r.1)).
Proof.
  induction ticks as [|[[d n1] n2] ticks IH]; intros o b fs h st W Ht Hh Hheld; cbv zeta.
  - split; [done|]. intros [c Hc]. by apply elem_of_nil in Hc.
  - rewrite fmap_cons, observe_all_cons. cbn [tick_of poll].
    pose proof (ObserverFacts.wf_tick o h d n1 n2 W) as W'.
    destruct (quiet d (sampled st d n1) n2) eqn:Hq.
    + destruct (ObserverFacts.tick_completes o h rid st d n1 n2 W Ht Hh Hq)
        as (o' & Hs & Ha & Htm & _).
      assert (Hobs : ∃ b' fs',
                observe fromId (Tick h d n1 n2)
                  {| observer := o; broker := b; facades := fs |}
                = ({| observer := o'; broker := b'; facades := fs' |},
                   omap (update_call (Broker.senderId req) f)
                     (sent (tick_output rid st d)
                      ++ [chunk rid (lastContent (sampled st d n1)) true]))
                ∧ retired rid req b' fs').
      { destruct (relay_final o' b fs (lastContent (sampled st d n1)) Hheld)
          as (b' & fs' & Hr & Hret).
        exists b', fs'. split; [|done].
        unfold observe. cbn [observer broker facades]. rewrite Hs.
        rewrite ObserverFacts.sent_app.
        change (sent [IpcSend (chunk rid (lastContent (sampled st d n1)) true)])
          with [chunk rid (lastContent (sampled st d n1)) true].
        unfold tick_output. destruct (emits st d).
        - cbn [sent omap list_omap app relay_all].
          rewrite relay_progress by done. rewrite Hr. done.
        - cbn [sent omap list_omap app]. rewrite relay_all_one, Hr. done. }
      destruct Hobs as (b' & fs' & -> & Hret). cbn [fst snd].
      rewrite observe_dead_ticks
        by (cbn [observer]; rewrite Htm; apply lookup_delete_eq).
      cbn [fst snd]. rewrite app_nil_r. split; [done|]. intros _.
      cbn [observer broker facades]. rewrite Ha, Htm.
      split; [apply lookup_delete_eq|]. split; [apply lookup_delete_eq|done].
    + destruct (ObserverFacts.tick_continues o h rid st d n1 n2 W Ht Hh Hq)
        as (o' & Hs & _ & Htm & Hhp & _).
      assert (Hobs : observe fromId (Tick h d n1 n2)
                       {| observer := o; broker := b; facades := fs |}
                     = ({| observer := o'; broker := b; facades := fs |},
                        omap (update_call (Broker.senderId req) f)
                          (sent (tick_output rid st d)))).
      { unfold observe. cbn [observer broker facades]. rewrite Hs.
        by apply relay_tick_output. }
      rewrite Hs in W'. cbn [fst] in W'. rewrite Hobs. cbn [fst snd].
      destruct (IH o' b fs h (sampled st d n1)) as [I1 I2]; [done| | |done|].
      { by rewrite Htm. }
      { rewrite Hhp. apply lookup_insert_eq. }
      cbv zeta in I1, I2. rewrite I1, omap_app. split; [done|].
      intros [c Hc]. apply I2. exists c.
      apply elem_of_app in Hc as [Hc|Hc]; [|done].
      by destruct (no_final_in_tick_output st d c).
Qed.

End one_request.

(** X26.  The caller sees the stream the Observer produces.  For a
    request that the Observer polls, whose caller is alive and holds a
    listener with an [onUpdate] callback, the calls made over any sequence
    of ticks are exactly one [onUpdate] per event sent by the Observer, in
    order, with the content and the done flag of the event: nothing is
    dropped, added or reordered on the way through the Broker and the
    Facade. *)
Theorem caller_receives_the_stream fromId w h rid st ticks req fa l f :
  wf (observer w) → timers (observer w) !! h = Some rid →
  heap (observer w) !! h = Some st →
  Broker.pendingRequests (broker w) !! rid = Some req →
  fromId (Broker.senderId req) = Some {| Broker.wc_destroyed := false |} →
  facades w !! Broker.senderId req = Some fa →
  Facade.listeners fa !! rid = Some l → Facade.onUpdate l = Some f →
  (observe_all fromId (tick_of h <$> ticks) w).2
  = omap (update_call (Broker.senderId req) f) (poll rid st ticks).
Proof.
  intros W Ht Hh Hp Halive Hfa Hl Hf. destruct w as [o b fs]. cbn in *.
  apply (stream_reaches_caller fromId rid req l f Halive Hf ticks o b fs h st W Ht Hh).
  split; [done|]. by exists fa.
Qed.

(** X27.  When the stream of a request ends with its final event, the
    request is forgotten everywhere: the Observer has neither its entry nor
    its interval, the Broker has no pending record, and the caller's Facade
    has no listener for it. *)
Theorem completed_request_is_forgotten fromId w h rid st ticks req fa l f :
  wf (observer w) → timers (observer w) !! h = Some rid →
  heap (observer w) !! h = Some st →
  Broker.pendingRequests (broker w) !! rid = Some req →
  fromId (Broker.senderId req) = Some {| Broker.wc_destroyed := false |} →
  facades w !! Broker.senderId req = Some fa →
  Facade.listeners fa !! rid = Some l → Facade.onUpdate l = Some f →
  completes rid (poll rid st ticks) →
  ACTIVE_REQUESTS (observer (observe_all fromId (tick_of h <$> ticks) w).1) !! rid = None
  ∧ timers (observer (observe_all fromId (tick_of h <$> ticks) w).1) !! h = None
  ∧ Broker.pendingRequests (broker (observe_all fromId (tick_of h <$> ticks) w).1) !! rid
    = None
  ∧ ∃ fa', facades (observe_all fromId (tick_of h <$> ticks) w).1 !! Broker.senderId req
           = Some fa'
           ∧ Facade.listeners fa' !! rid = None.
Proof.
  intros W Ht Hh Hp Halive Hfa Hl Hf Hc. destruct w as [o b fs]. cbn in *.
  destruct (stream_reaches_caller fromId rid req l f Halive Hf ticks o b fs h st W Ht Hh)
    as [_ H]; [split; [done|by exists fa]|].
  destruct (H Hc) as (H1 & H2 & H3 & H4). done.
Qed.

(** X28.  An error event whose message is the empty string ends the
    request without telling the caller.  The Broker keeps the empty
    message (only a missing one becomes 'Unknown error'), forwards the
    event with [done] set and drops its record; the Facade takes the empty
    message for no error, so [onError] is not called, and with no content
    in the event [onUpdate] is not called either, yet the listener is
    removed. *)
Theorem error_with_empty_message_is_swallowed fromId w p req fa l :
  error p = Some "" → content p = None →
  Broker.pendingRequests (broker w) !! requestId p = Some req →
  fromId (Broker.senderId req) = Some {| Broker.wc_destroyed := false |} →
  facades w !! Broker.senderId req = Some fa →
  Facade.listeners fa !! requestId p = Some l →
  (relay fromId (UpError p) w).2 = []
  ∧ Broker.pendingRequests (broker (relay fromId (UpError p) w).1) !! requestId p = None
  ∧ ∃ fa', facades (relay fromId (UpError p) w).1 !! Broker.senderId req = Some fa'
           ∧ Facade.listeners fa' !! requestId p = None.
Proof.
  intros He Hc Hp Halive Hfa Hl. unfold relay. cbn [Broker.onUpstream].
  rewrite (BrokerFacts.forward_live fromId (Broker.as_error p) (broker w) req) by done.
  unfold Broker.terminal, Broker.as_error. rewrite He, Hc.
  cbn [done error truthy_flag truthy_opt orb requestId].
  rewrite SystemFacts.deliver_all_one. unfold deliver. rewrite Hfa.
  rewrite (FacadeFacts.handle_listener _ fa l) by done.
  cbn [error truthy_opt truthy done truthy_flag content requestId].
  cbn [fmap list_fmap fst snd broker facades]. split; [done|].
  split; [cbn; apply lookup_delete_eq|].
  eexists. rewrite lookup_insert_eq. split; [done|]. cbn. apply lookup_delete_eq.
Qed.

End SystemExtras.

(** * Properties of the typing into the input area *)
Module InputExtras.
Import Observer Terms MoreTerms ObserverFacts.

Lemma setter_calls_typing d ta v :
  setter_calls (typing d ta v)
  = match el_ownValueSetter ta, el_protoValueSetter ta with
    | Some _, Some g => [(g, ta, v)]
    | _, _ => []
    end.
Proof.
  unfold typing, setter_calls. rewrite !omap_app.
  destruct (el_ownValueSetter ta) as [f|], (el_protoValueSetter ta) as [g|];
    cbn [bool_decide andb negb];
    repeat case_bool_decide; cbn; destruct (InputEventCtor d); cbn;
    try done; try congruence.
  all: by exfalso; eauto.
Qed.

Lemma input_events_typing d ta v :
  input_events (typing d ta v)
  = (ta, None) :: (if InputEventCtor d then [(ta, Some v)] else []).
Proof.
  unfold typing, input_events. rewrite !omap_app.
  destruct (if _ && _ then _ else _); destruct (InputEventCtor d); reflexivity.
Qed.

(** X29.  Once the input area is found, the prompt is written into it
    through the value setter of the element's prototype, and through no
    other: that setter is called once, with the prompt, when the element
    has a value setter of its own and its prototype has one.  When the
    element has no value setter of its own, or its prototype has none, no
    setter is called and the prompt is not written.  In every case the
    input events are dispatched: a plain one, and one that carries the
    prompt where the page has InputEvent.  This holds whether or not the
    send button is then found. *)
Theorem prompt_is_written_by_the_prototype_setter o rid prompt start checks pg ta :
  waitForSelector INPUT_SELECTORS 15000 start checks = Resolved ta →
  setter_calls (step o (Prompt rid prompt start checks pg)).2
  = match el_ownValueSetter ta, el_protoValueSetter ta with
    | Some _, Some g => [(g, ta, prompt)]
    | _, _ => []
    end
  ∧ input_events (step o (Prompt rid prompt start checks pg)).2
    = (ta, None) :: (if InputEventCtor pg then [(ta, Some prompt)] else []).
Proof.
  intros Hw. rewrite step_prompt, Hw.
  destruct (findSendButton pg ta) as [b|]; cbn [snd]; unfold setter_calls, input_events;
    rewrite !omap_app; cbn [omap list_omap];
    fold (setter_calls (typing pg ta prompt)); fold (input_events (typing pg ta prompt));
    rewrite setter_calls_typing, input_events_typing, !app_nil_r; done.
Qed.

End InputExtras.

(** * Instances of the further properties *)
Module ExtraInstances.
Import Terms MoreTerms.

Lemma wf_two_requests : wf two_requests.
Proof.
  apply ObserverFacts.wf_install; [apply Instances.wf_polling | reflexivity].
Qed.



Lemma wait_resolves_at_first_match_witness :
  Observer.waitForSelector Observer.INPUT_SELECTORS 15000 0
    ([(blank_page, 0); (blank_page, 200)] ++ [(page "" false, 20000)])
  = Observer.Resolved (node 1 false None).
Proof.
  apply (ObserverExtras.wait_resolves_at_first_match Observer.INPUT_SELECTORS 15000 0
           [(blank_page, 0); (blank_page, 200)] (page "" false) 20000 []
           (node 1 false None)).
  - intros d' n' H.
    apply elem_of_cons in H as [H|H]; [injection H as -> ->; split; [reflexivity|lia]|].
    apply elem_of_cons in H as [H|H]; [injection H as -> ->; split; [reflexivity|lia]|].
    by apply elem_of_nil in H.
  - vm_compute. reflexivity.
Defined.

Lemma wait_rejects_only_after_timeout_witness :
  ∃ pre d now post,
    [(blank_page, 0); (blank_page, 15200); (page "" false, 15400)]
    = pre ++ (d, now) :: post
    ∧ 15000 < now - 0
    ∧ ∀ d' n', (d', n') ∈ pre ++ [(d, now)] →
        Observer.first_match (Observer.querySelector d') (fun _ => true)
          Observer.INPUT_SELECTORS = None.
Proof.
  assert (H : Observer.waitForSelector Observer.INPUT_SELECTORS 15000 0
                [(blank_page, 0); (blank_page, 15200); (page "" false, 15400)]
              = Observer.Rejected timed_out) by (vm_compute; reflexivity).
  destruct (ObserverExtras.wait_rejects_only_after_timeout _ _ _ _ _ H) as [_ H'].
  exact H'.
Defined.

Lemma registry_matches_intervals_witness :
  let evs := [Observer.Prompt "r1" "Hello" 0 [(page "" false, 0)] (page "" false);
              Observer.Tick 1 (page "Hi" false) 400 400] in
  let o := (Observer.run Observer.init evs).1 in
  fresh_prompts Observer.init evs
  ∧ ∀ h rid, Observer.timers o !! h = Some rid ↔ Observer.ACTIVE_REQUESTS o !! rid = Some h.
Proof.
  cbv zeta.
  assert (F : fresh_prompts Observer.init
                [Observer.Prompt "r1" "Hello" 0 [(page "" false, 0)] (page "" false);
                 Observer.Tick 1 (page "Hi" false) 400 400]).
  { split; [apply NoDup_singleton|]. intros rid _. apply lookup_empty. }
  split; [exact F|].
  pose proof (ObserverExtras.registry_matches_intervals _ F) as H.
  cbv zeta in H. destruct H as [H _]. exact H.
Defined.

Lemma reused_identifier_orphans_interval_witness :
  let o2 := (Observer.run (Observer.install "r1" Observer.init)
               [Observer.Prompt "r1" "again" 0 [(page "" false, 0)] (page "" false);
                Observer.Cancel "r1" (page "" false)]).1 in
  Observer.ACTIVE_REQUESTS o2 !! "r1" = None
  ∧ Observer.timers o2 !! 1%nat = Some "r1"
  ∧ Observer.chunk "r1" (Observer.getLatestAssistantContent (page "Hi" false)) false
    ∈ Observer.sent (Observer.step o2 (Observer.Tick 1 (page "Hi" false) 400 400)).2.
Proof.
  cbv zeta.
  apply (ObserverExtras.reused_identifier_orphans_interval
           (Observer.install "r1" Observer.init) "r1" 1%nat (initial_state 1)
           "again" 0 [(page "" false, 0)] (page "" false)
           (node 1 false None) (node 2 true None) (page "" false)
           (page "Hi" false) 400 400).
  - apply Instances.wf_polling.
  - reflexivity.
  - reflexivity.
  - vm_compute. reflexivity.
  - vm_compute. reflexivity.
  - vm_compute. reflexivity.
Defined.

Lemma cancel_undoes_only_a_submitted_prompt_witness :
  let prompt := Observer.Prompt "r1" "Hello" 0 [(page "" false, 0)] (page "" false) in
  let cancel := Observer.Cancel "r1" (page "" true) in
  let after := Observer.run Observer.init [prompt; cancel] in
  let before := Observer.run Observer.init [cancel; prompt] in
  (Observer.ACTIVE_REQUESTS after.1 = Observer.ACTIVE_REQUESTS Observer.init
   ∧ Observer.timers after.1 = Observer.timers Observer.init
   ∧ Observer.sent after.2 = [])
  ∧ (Observer.ACTIVE_REQUESTS before.1 !! "r1" = Some 1%nat
     ∧ Observer.chunk "r1" (Observer.getLatestAssistantContent (page "Hi" false)) false
       ∈ Observer.sent (Observer.step before.1
                          (Observer.Tick 1 (page "Hi" false) 400 400)).2).
Proof.
  cbv zeta.
  pose proof (ObserverExtras.cancel_undoes_only_a_submitted_prompt Observer.init "r1"
                "Hello" 0 [(page "" false, 0)] (page "" false) (node 1 false None)
                (node 2 true None) (page "" true) (page "Hi" false) 400 400
                ObserverFacts.wf_init eq_refl) as H.
  cbv zeta in H. destruct H as [(A1 & A2 & A3 & _) (_ & B2 & _ & _ & B5)].
  - vm_compute. reflexivity.
  - vm_compute. reflexivity.
  - vm_compute. reflexivity.
  - split; [|split; [exact B2|exact B5]].
    split; [exact A1|]. split; [exact A2|exact A3].
Defined.

Lemma unload_stops_everything_witness :
  let r := Observer.step two_requests Observer.BeforeUnload in
  r.2 = [] ∧ Observer.ACTIVE_REQUESTS r.1 = ∅ ∧ Observer.timers r.1 = ∅
  ∧ Observer.run r.1 [Observer.Tick 1 (page "Hi" false) 400 400;
                      Observer.Tick 2 (page "Hi" false) 400 400] = (r.1, []).
Proof.
  cbv zeta.
  apply (ObserverExtras.unload_stops_everything two_requests
           [Observer.Tick 1 (page "Hi" false) 400 400;
            Observer.Tick 2 (page "Hi" false) 400 400]).
  - apply wf_two_requests.
  - repeat constructor.
Defined.

Lemma final_event_closes_the_stream_witness :
  let ticks := [(page "Hi" false, 400, 400); (page "Hi" false, 2000, 2000);
                (page "Hi again" false, 2400, 2400)] in
  ∃ chunks fin,
    Observer.sent (Observer.run (Observer.install "r1" Observer.init)
                     (tick_of 1 <$> ticks)).2 = chunks ++ fin
    ∧ Forall (is_progress "r1") chunks
    ∧ (fin = []
       ∨ fin = [Observer.chunk "r1" (List.last (chunk_contents "r1" chunks) "") true]).
Proof.
  cbv zeta.
  apply (ObserverExtras.final_event_closes_the_stream
           (Observer.install "r1" Observer.init) 1%nat "r1" (initial_state 1)).
  - apply Instances.wf_polling.
  - reflexivity.
  - reflexivity.
Defined.

Lemma stop_button_blocks_completion_witness :
  let ticks := [(page "Hi" true, 400, 400); (page "Hi" true, 60000, 60000)] in
  stop_shown ticks
  ∧ finals "r1" (Observer.run (Observer.install "r1" Observer.init)
                   (tick_of 1 <$> ticks)).2 = []
  ∧ Observer.timers (Observer.run (Observer.install "r1" Observer.init)
                       (tick_of 1 <$> ticks)).1 !! 1%nat = Some "r1".
Proof.
  cbv zeta.
  assert (S : stop_shown [(page "Hi" true, 400, 400); (page "Hi" true, 60000, 60000)]).
  { intros d n1 n2 H.
    apply elem_of_cons in H as [H|H]; [injection H as -> -> ->; by eexists|].
    apply elem_of_cons in H as [H|H]; [injection H as -> -> ->; by eexists|].
    by apply elem_of_nil in H. }
  split; [exact S|].
  apply (ObserverExtras.stop_button_blocks_completion
           (Observer.install "r1" Observer.init) 1%nat "r1" (initial_state 1)).
  - apply Instances.wf_polling.
  - reflexivity.
  - reflexivity.
  - exact S.
Defined.

Lemma tick_leaves_other_requests_alone_witness :
  let r := Observer.step two_requests (Observer.Tick 1 (page "Hi" false) 400 400) in
  Observer.timers r.1 !! 2%nat = Some "r2"
  ∧ Observer.ACTIVE_REQUESTS r.1 !! "r2" = Some 2%nat
  ∧ Observer.heap r.1 !! 2%nat = Observer.heap two_requests !! 2%nat
  ∧ Observer.sent_for "r2" r.2 = [].
Proof.
  cbv zeta.
  apply (ObserverExtras.tick_leaves_other_requests_alone two_requests 1%nat 2%nat "r2").
  - apply wf_two_requests.
  - reflexivity.
  - discriminate.
Defined.

Lemma failed_load_is_not_retried_witness :
  let r := Broker.run Broker.init
             [Broker.Invoke 1 Broker.CInitialize;
              Broker.LoadSettled 1 (Some "ERR_INTERNET_DISCONNECTED")] in
  r.2 = [Broker.NewBrowserWindow 1; Broker.LoadURL 1 Broker.CHATGPT_URL;
         Broker.Reject 1 "ERR_INTERNET_DISCONNECTED"]
  ∧ Broker.live_window r.1 = Some 1%nat
  ∧ Broker.windows_created (Broker.invoke 2 Broker.CInitialize r.1).2 = 0%nat.
Proof.
  cbv zeta.
  pose proof (BrokerExtras.failed_load_is_not_retried Broker.init 1%nat Broker.CInitialize
                "ERR_INTERNET_DISCONNECTED" eq_refl eq_refl eq_refl) as H.
  cbv zeta in H. destruct H as (H1 & H2 & _ & _ & H3).
  - apply not_elem_of_empty.
  - split; [exact H1|]. split; [exact H2|]. apply (H3 2%nat Broker.CInitialize).
Defined.

Lemma window_closed_during_creation_witness :
  let r := Broker.run Broker.init
             [Broker.Invoke 1 Broker.CInitialize; Broker.WindowClosed 1;
              Broker.Invoke 2 (Broker.CSendMessage "Hello" None 5 "u1");
              Broker.LoadSettled 1 (Some "ERR_ABORTED")] in
  r.2 = [Broker.NewBrowserWindow 1; Broker.LoadURL 1 Broker.CHATGPT_URL;
         Broker.Reject 1 "ERR_ABORTED"; Broker.Reject 2 "ERR_ABORTED"]
  ∧ Broker.window r.1 = None.
Proof.
  cbv zeta.
  pose proof (BrokerExtras.window_closed_during_creation Broker.init 1%nat
                Broker.CInitialize 2%nat (Broker.CSendMessage "Hello" None 5 "u1")
                (Some "ERR_ABORTED") eq_refl eq_refl eq_refl) as H.
  cbv zeta in H. destruct H as (H1 & H2 & _). split; [exact H1|exact H2].
Defined.

Lemma send_then_forward_witness :
  let p := {| requestId := "u1"; content := Some "Hi"; done := Some true;
              error := None |} in
  let r := Broker.invoke 2 (Broker.CSendMessage "Hello" None 5 "u1") broker_with_window in
  r.2 = [Broker.ToObserver 1 (Broker.DownPrompt "u1" "Hello" None);
         Broker.Resolve 2 (Broker.VString "u1")]
  ∧ (Broker.forwardChunk all_alive p r.1).2 = [Broker.ToCaller 5 p]
  ∧ Broker.pendingRequests (Broker.forwardChunk all_alive p r.1).1 !! "u1" = None.
Proof.
  cbv zeta.
  pose proof (BrokerExtras.send_then_forward broker_with_window 1%nat 2%nat "Hello" None
                5%nat "u1" all_alive
                {| requestId := "u1"; content := Some "Hi"; done := Some true;
                   error := None |}
                eq_refl eq_refl eq_refl) as H.
  cbv zeta in H. destruct H as (H1 & _ & H3 & H4).
  split; [exact H1|]. split; [exact H3|exact H4].
Defined.

Lemma dead_caller_retires_request_witness :
  let p := {| requestId := "r1"; content := Some "Hi"; done := Some false;
              error := None |} in
  let r := Broker.forwardChunk (fun _ => None) p (System.broker one_request) in
  r.2 = [] ∧ Broker.pendingRequests r.1 !! "r1" = None.
Proof.
  cbv zeta.
  pose proof (BrokerExtras.dead_caller_retires_request (System.broker one_request)
                (fun _ => None)
                {| requestId := "r1"; content := Some "Hi"; done := Some false;
                   error := None |}
                {| Broker.senderId := 5 |} eq_refl (or_introl eq_refl)) as H.
  cbv zeta in H. destruct H as (H1 & H2 & _). split; [exact H1|exact H2].
Defined.

Lemma readiness_needs_the_ready_signal_witness :
  let evs := [Broker.Invoke 1 Broker.CInitialize; Broker.LoadSettled 1 None;
              Broker.Invoke 2 Broker.CInitialize] in
  List.filter reports_ready (Broker.run Broker.init evs).2 = []
  ∧ Broker.isReady (Broker.run Broker.init evs).1 = false.
Proof.
  cbv zeta.
  apply (BrokerExtras.readiness_needs_the_ready_signal Broker.init).
  - reflexivity.
  - repeat constructor.
Defined.

Lemma initialized_is_permanent_witness :
  Client.initialized
    (Client.run initialized_client
       [Client.Invoke 1 Client.CEnsure;
        Client.Invoke 2 (Client.CSend "Hello" None both_callbacks);
        Client.InitSettled 1 (Some false)]).1 = true.
Proof.
  destruct (ClientExtras.initialized_is_permanent initialized_client
              [Client.Invoke 1 Client.CEnsure;
               Client.Invoke 2 (Client.CSend "Hello" None both_callbacks);
               Client.InitSettled 1 (Some false)] eq_refl eq_refl) as [H _].
  exact H.
Defined.

Lemma send_ignores_the_initialization_result_witness :
  (Client.run Client.init
     [Client.Invoke 1 (Client.CSend "Hello" None both_callbacks);
      Client.InitSettled 1 None]).2
  = [Client.ApiInitialize 1; Client.ApiSendMessage 1 "Hello" None].
Proof.
  destruct (ClientExtras.send_ignores_the_initialization_result Client.init 1%nat
              "Hello" None both_callbacks None eq_refl eq_refl eq_refl eq_refl)
    as [H _].
  exact H.
Defined.

Lemma callbacks_are_live_from_the_reply_on_witness :
  let p := {| requestId := "r1"; content := Some "Hi"; done := Some false;
              error := None |} in
  (Client.run initialized_client
     [Client.Invoke 1 (Client.CSend "Hello" None both_callbacks);
      Client.SendSettled 1 (inl "r1"); Client.Incoming p]).2
  = [Client.ApiSendMessage 1 "Hello" None; Client.Resolve 1 (Client.VString "r1");
     Client.OfFacade (Facade.CallOnUpdate "r1" 10 "Hi" false)].
Proof.
  cbv zeta.
  destruct (ClientExtras.callbacks_are_live_from_the_reply_on initialized_client 1%nat
              "Hello" None both_callbacks "r1"
              {| requestId := "r1"; content := Some "Hi"; done := Some false;
                 error := None |}
              "Hi" 10%nat eq_refl eq_refl (Forall_nil_2 _) eq_refl eq_refl eq_refl
              eq_refl eq_refl) as [H _].
  exact H.
Defined.

Lemma without_the_api_every_call_fails_witness :
  let calls := [(1%nat, Client.CEnsure);
                (2%nat, Client.CSend "Hello" None both_callbacks)] in
  (Client.run client_without_api (invoke_of <$> calls)).2
  = [Client.Resolve 1 (Client.VBool false);
     Client.Reject 2 "Web model API is not available"].
Proof.
  cbv zeta.
  destruct (ClientExtras.without_the_api_every_call_fails client_without_api
              [(1%nat, Client.CEnsure);
               (2%nat, Client.CSend "Hello" None both_callbacks)] eq_refl eq_refl)
    as [H _].
  - intros n. discriminate.
  - exact H.
Defined.

Lemma caller_receives_the_stream_witness :
  let ticks := [(page "Hi" false, 400, 400); (page "Hi" false, 2000, 2000)] in
  (System.observe_all all_alive (tick_of 1 <$> ticks) one_request).2
  = omap (update_call 5 10) (poll "r1" (initial_state 1) ticks).
Proof.
  cbv zeta.
  apply (SystemExtras.caller_receives_the_stream all_alive one_request 1%nat "r1"
           (initial_state 1) _ {| Broker.senderId := 5 |}
           (Facade.listen "r1" both_callbacks Facade.init) both_callbacks 10%nat).
  - apply Instances.wf_polling.
  - reflexivity.
  - reflexivity.
  - reflexivity.
  - reflexivity.
  - reflexivity.
  - reflexivity.
  - reflexivity.
Defined.

Lemma completed_request_is_forgotten_witness :
  let ticks := [(page "Hi" false, 400, 400); (page "Hi" false, 2000, 2000)] in
  completes "r1" (poll "r1" (initial_state 1) ticks)
  ∧ Observer.ACTIVE_REQUESTS
      (System.observer
         (System.observe_all all_alive (tick_of 1 <$> ticks) one_request).1) !! "r1"
    = None
  ∧ Broker.pendingRequests
      (System.broker
         (System.observe_all all_alive (tick_of 1 <$> ticks) one_request).1) !! "r1"
    = None.
Proof.
  cbv zeta.
  assert (C : completes "r1"
                (poll "r1" (initial_state 1)
                   [(page "Hi" false, 400, 400); (page "Hi" false, 2000, 2000)])).
  { exists "Hi". apply list_elem_of_In. vm_compute. right. left. reflexivity. }
  split; [exact C|].
  destruct (SystemExtras.completed_request_is_forgotten all_alive one_request 1%nat "r1"
              (initial_state 1)
              [(page "Hi" false, 400, 400); (page "Hi" false, 2000, 2000)]
              {| Broker.senderId := 5 |}
              (Facade.listen "r1" both_callbacks Facade.init) both_callbacks 10%nat
              Instances.wf_polling eq_refl eq_refl eq_refl eq_refl eq_refl eq_refl
              eq_refl C) as (H1 & _ & H3 & _).
  split; [exact H1|exact H3].
Defined.

Lemma error_with_empty_message_is_swallowed_witness :
  let p := {| requestId := "r1"; content := None; done := None; error := Some "" |} in
  (System.relay all_alive (UpError p) one_request).2 = []
  ∧ Broker.pendingRequests
      (System.broker (System.relay all_alive (UpError p) one_request).1) !! "r1" = None.
Proof.
  cbv zeta.
  destruct (SystemExtras.error_with_empty_message_is_swallowed all_alive one_request
              {| requestId := "r1"; content := None; done := None; error := Some "" |}
              {| Broker.senderId := 5 |}
              (Facade.listen "r1" both_callbacks Facade.init) both_callbacks
              eq_refl eq_refl eq_refl eq_refl eq_refl eq_refl) as (H1 & H2 & _).
  split; [exact H1|exact H2].
Defined.

Lemma prompt_is_written_by_the_prototype_setter_witness :
  let ev := Observer.Prompt "r1" "Hello" 0 [(controlled_page, 0)] controlled_page in
  setter_calls (Observer.step Observer.init ev).2 = [(21%nat, controlled_input, "Hello")]
  ∧ input_events (Observer.step Observer.init ev).2
    = [(controlled_input, None); (controlled_input, Some "Hello")].
Proof.
  cbv zeta.
  apply (InputExtras.prompt_is_written_by_the_prototype_setter Observer.init "r1" "Hello"
           0 [(controlled_page, 0)] controlled_page controlled_input).
  vm_compute. reflexivity.
Defined.

End ExtraInstances.
